(** * UWB trilateration: solver, anchor selection, noise injection, Monte-Carlo harness

    A shallow embedding of the Python sources under [UWB_GUI/]:

    - [trilateration] / [trilateration_3anchors]
      (UWB_error_test_boxplot.py, UWB_error_test_line.py, UWB_errors_on_map.py,
      uwb3anchorstest.py, auto_distances.py: five textually identical bodies);
    - the closest-three selection of [update_position] (uwb3anchorstest.py);
    - the range-gated selection of [update_circles]
      (UWB_movable_position_GUI.py, auto_sinus.py);
    - the noise injection and trial loops of [simulate_error]
      (UWB_error_test_boxplot.py) and [simulate_errors] (UWB_error_test_line.py);
    - the anchor manager handlers [add_anchor], [remove_anchor], [on_press],
      [on_release], [on_motion], [redraw_anchors], [update_position]
      (uwb3anchorstest.py).

    Numbers.  Python floats (and numpy float64) are idealised as real numbers
    [R]: every arithmetic operation is exact, [x ** 2] is [x ^ 2],
    [np.linalg.norm] of a 2-vector is [sqrt (x ^ 2 + y ^ 2)], and there is no
    NaN, infinity, rounding, overflow or underflow.  The one place where the
    code itself produces a NaN on purpose ([np.nan] in [simulate_errors]) is
    modelled by an explicit constructor.  Rounding effects of binary64 are
    outside this development.

    Exceptions.  A Python call either returns a value or raises; this is the
    type [result].  [try ... except] is a [match] on it. *)

From Stdlib Require Import String.
From Stdlib Require Import Floats.
From Stdlib Require Import Reals Lra Lia ZArith Bool Arith List.
From Stdlib Require Import Permutation Sorted.
Import ListNotations.

Open Scope R_scope.

(** ** Python outcomes *)

(** An exception is identified by its class name and carries a message. *)
Inductive exn : Type :=
| PyExc (cls : string) (msg : string).

Definition ValueError (msg : string) : exn := PyExc "ValueError" msg.
Definition IndexError (msg : string) : exn := PyExc "IndexError" msg.

Inductive result (A : Type) : Type :=
| Ok (a : A)
| Raise (e : exn).

Arguments Ok {A} a.
Arguments Raise {A} e.

Definition is_ok {A : Type} (r : result A) : bool :=
  match r with Ok _ => true | Raise _ => false end.

(** Sequencing of calls that may raise: the first exception propagates. *)
Definition and_then {A B : Type} (r : result A) (k : A -> result B) : result B :=
  match r with
  | Ok a => k a
  | Raise e => Raise e
  end.

Notation "x <~ r ;; k" := (and_then r (fun x => k))
  (at level 61, r at next level, right associativity).

(** ** Points and the Euclidean norm *)

(** An anchor or a position: [np.array([x, y])], [[x, y]] or [(x, y)]. *)
Definition point : Type := (R * R)%type.

(** [p - q] on numpy arrays. *)
Definition psub (p q : point) : point :=
  (fst p - fst q, snd p - snd q).

(** [np.linalg.norm] on a 2-vector. *)
Definition norm (v : point) : R :=
  sqrt (fst v ^ 2 + snd v ^ 2).

(** ** The solver *)

(** What the specification calls [DegenerateGeometryError] is, in the code,
    the [ValueError("Anchors are aligned")] of [trilateration]. *)
Definition DegenerateGeometryError : exn := ValueError "Anchors are aligned".

(** [trilateration(p1, d1, p2, d2, p3, d3)], line for line. *)
Definition trilateration (p1 : point) (d1 : R) (p2 : point) (d2 : R)
                         (p3 : point) (d3 : R) : result point :=
  let '(x1, y1) := p1 in
  let '(x2, y2) := p2 in
  let '(x3, y3) := p3 in
  let A := 2 * (x2 - x1) in
  let B := 2 * (y2 - y1) in
  let C := d1 ^ 2 - d2 ^ 2 - x1 ^ 2 + x2 ^ 2 - y1 ^ 2 + y2 ^ 2 in
  let D := 2 * (x3 - x1) in
  let E := 2 * (y3 - y1) in
  let F := d1 ^ 2 - d3 ^ 2 - x1 ^ 2 + x3 ^ 2 - y1 ^ 2 + y3 ^ 2 in
  let denominator := A * E - B * D in
  if Req_dec_T denominator 0 then
    Raise (ValueError "Anchors are aligned")
  else
    let x := (C * E - B * F) / denominator in
    let y := (A * F - C * D) / denominator in
    Ok (x, y).

(** [trilateration_3anchors] of uwb3anchorstest.py and auto_distances.py has
    the same body and returns the tuple [x, y]. *)
Definition trilateration_3anchors := trilateration.

(** Three points are collinear when one straight line [a x + b y = c]
    (with [(a, b)] not both zero) passes through all of them. *)
Definition on_line (a b c : R) (p : point) : Prop :=
  a * fst p + b * snd p = c.

Definition collinear (p1 p2 p3 : point) : Prop :=
  exists a b c : R,
    (a <> 0 \/ b <> 0) /\ on_line a b c p1 /\ on_line a b c p2 /\ on_line a b c p3.

(** The coefficients of the linearised system, named as in the code
    ([A] .. [F] and [denominator]), as functions of the inputs. *)
Definition coefA (p1 p2 : point) : R := 2 * (fst p2 - fst p1).
Definition coefB (p1 p2 : point) : R := 2 * (snd p2 - snd p1).
Definition coefC (p1 p2 : point) (d1 d2 : R) : R :=
  d1 ^ 2 - d2 ^ 2 - fst p1 ^ 2 + fst p2 ^ 2 - snd p1 ^ 2 + snd p2 ^ 2.
Definition coefD (p1 p3 : point) : R := 2 * (fst p3 - fst p1).
Definition coefE (p1 p3 : point) : R := 2 * (snd p3 - snd p1).
Definition coefF (p1 p3 : point) (d1 d3 : R) : R :=
  d1 ^ 2 - d3 ^ 2 - fst p1 ^ 2 + fst p3 ^ 2 - snd p1 ^ 2 + snd p3 ^ 2.
Definition denom (p1 p2 p3 : point) : R :=
  coefA p1 p2 * coefE p1 p3 - coefB p1 p2 * coefD p1 p3.


(** ** Python lists *)

(** [l[i]] for a non-negative index: [IndexError] when out of range. *)
Definition getitem {A : Type} (l : list A) (i : nat) : result A :=
  match nth_error l i with
  | Some a => Ok a
  | None => Raise (IndexError "list index out of range")
  end.

(** The list [l] with position [i] replaced by [v] (the effect of a
    successful [l[i] = v]); unchanged when [i] is out of range. *)
Fixpoint list_set {A : Type} (l : list A) (i : nat) (v : A) : list A :=
  match l, i with
  | [], _ => []
  | _ :: l', O => v :: l'
  | a :: l', S i' => a :: list_set l' i' v
  end.

(** [l[i] = v]: [IndexError] when out of range. *)
Definition setitem {A : Type} (l : list A) (i : nat) (v : A) : result (list A) :=
  if (i <? length l)%nat then Ok (list_set l i v)
  else Raise (IndexError "list assignment index out of range").

(** [l.pop()]: the list without its last element; [IndexError] on []. *)
Definition pop {A : Type} (l : list A) : result (list A) :=
  match l with
  | [] => Raise (IndexError "pop from empty list")
  | _ :: _ => Ok (removelast l)
  end.

(** [enumerate(l)], counting from [start]. *)
Fixpoint enumerate_from {A : Type} (start : nat) (l : list A) : list (nat * A) :=
  match l with
  | [] => []
  | a :: l' => (start, a) :: enumerate_from (S start) l'
  end.

Definition enumerate {A : Type} (l : list A) : list (nat * A) :=
  enumerate_from 0 l.

(** [range(n)]. *)
Definition range (n : nat) : list nat := seq 0 n.

(** [sum(l)] and [np.mean(l)] on a non-empty list of floats. *)
Definition sum_list (l : list R) : R := fold_right Rplus 0 l.

Definition np_mean (l : list R) : R := sum_list l / INR (length l).

(** Comparisons of floats as booleans. *)
Definition Rltb (x y : R) : bool := if Rlt_dec x y then true else false.
Definition Rleb (x y : R) : bool := if Rle_dec x y then true else false.

(** ** [sorted(iterable, key=...)] *)

(** Python's [sorted] is a stable sort that compares keys with [<] only.  It
    is modelled by the insertion phase of the list sort: each element in turn
    is inserted into the sorted prefix, to the right of every element that it
    is not smaller than.  [ltb] is [<] on keys. *)
Section Sorted.
Context {X K : Type}.
Variable ltb : K -> K -> bool.
Variable key : X -> K.

Fixpoint insert_right (x : X) (l : list X) : list X :=
  match l with
  | [] => [x]
  | y :: l' =>
      if ltb (key x) (key y) then x :: y :: l' else y :: insert_right x l'
  end.

Definition sorted_into (acc l : list X) : list X :=
  fold_left (fun acc x => insert_right x acc) l acc.

Definition sorted (l : list X) : list X := sorted_into [] l.

(** The order a stable sort produces when the input is laid out along
    [before]: by key, and among equal keys by input position. *)
Definition key_then_position (before : X -> X -> Prop) (x y : X) : Prop :=
  ltb (key x) (key y) = true \/
  (ltb (key y) (key x) = false /\ before x y).

End Sorted.

(** ** State and exceptions *)

(** A computation that reads and writes a state of type [S] and either
    returns or raises; what it wrote before raising stays written. *)
Definition SE (S A : Type) : Type := S -> result A * S.

Definition ret {S A : Type} (a : A) : SE S A := fun s => (Ok a, s).

Definition bind {S A B : Type} (m : SE S A) (k : A -> SE S B) : SE S B :=
  fun s =>
    match m s with
    | (Ok a, s') => k a s'
    | (Raise e, s') => (Raise e, s')
    end.

Definition lift {S A : Type} (r : result A) : SE S A := fun s => (r, s).

Definition get {S : Type} : SE S S := fun s => (Ok s, s).

Definition put {S : Type} (s : S) : SE S unit := fun _ => (Ok tt, s).

(** [try: m except Exception as e: handler e]. *)
Definition try_except {S A : Type} (m : SE S A) (handler : exn -> SE S A) : SE S A :=
  fun s =>
    match m s with
    | (Ok a, s') => (Ok a, s')
    | (Raise e, s') => handler e s'
    end.

Declare Scope se_scope.
Delimit Scope se_scope with se.
Notation "x <- m ;; k" := (bind m (fun x => k))
  (at level 61, m at next level, right associativity) : se_scope.
Notation "m ;; k" := (bind m (fun _ => k))
  (at level 61, right associativity) : se_scope.
Open Scope se_scope.

(** ** The [random] module *)

(** The generator behind Python's [random]: a state of type [G] and the two
    primitives every function used here is built from, [random()] (a float in
    the half-open interval from 0 to 1) and [_randbelow(n)] (an int below
    [n]).  Seeding the generator fixes the state, hence all the draws. *)
Class RandomSource (G : Type) : Type := {
  random : G -> R * G;
  randbelow : nat -> G -> nat * G
}.

(** The documented ranges of the two primitives. *)
Class RandomSourceLaws (G : Type) {RS : RandomSource G} : Prop := {
  random_range : forall g, 0 <= fst (random g) < 1;
  randbelow_range : forall n g, (0 < n)%nat -> (fst (randbelow n g) < n)%nat
}.

Section PyRandom.
Context {G : Type} {RS : RandomSource G}.

Definition random_m : SE G R := fun g => let (u, g') := random g in (Ok u, g').

Definition randbelow_m (n : nat) : SE G nat :=
  fun g => let (j, g') := randbelow n g in (Ok j, g').

(** [random.uniform(a, b)]: [a + (b - a) * self.random()]. *)
Definition uniform (a b : R) : SE G R :=
  u <- random_m ;; ret (a + (b - a) * u).

(** [random.choice(seq)]: [seq[self._randbelow(len(seq))]]. *)
Definition choice {A : Type} (seq : list A) : SE G A :=
  match seq with
  | [] => lift (Raise (IndexError "Cannot choose from an empty sequence"))
  | _ :: _ => j <- randbelow_m (length seq) ;; lift (getitem seq j)
  end.

(** The selection loop of [random.sample] for a short population (at most
    21 elements, the branch taken for the three-element lists of this
    program): draw [j] below the number [m] of elements still in the pool,
    take [pool[j]], and move the last live element [pool[m - 1]] into its
    place. *)
Fixpoint sample_loop {A : Type} (k m : nat) (pool selected : list A)
  : SE G (list A) :=
  match k with
  | O => ret selected
  | S k' =>
      j <- randbelow_m m ;;
      x <- lift (getitem pool j) ;;
      y <- lift (getitem pool (m - 1)) ;;
      sample_loop k' (m - 1) (list_set pool j y) (selected ++ [x])
  end.

(** [random.sample(population, k)]. *)
Definition sample {A : Type} (population : list A) (k : nat) : SE G (list A) :=
  if (k <=? length population)%nat then
    sample_loop k (length population) population []
  else
    lift (Raise (ValueError "Sample larger than population or is negative")).

(** ** Noise injection *)

(** [noisy[i] += random.uniform(lo, hi)]: the element is loaded (an
    [IndexError] when [i] is out of range), the sample is drawn, the sum is
    stored. *)
Definition add_noise_at (lo hi : R) (noisy : list R) (i : nat) : SE G (list R) :=
  d <- lift (getitem noisy i) ;;
  u <- uniform lo hi ;;
  lift (setitem noisy i (d + u)).

(** [for i in indices: noisy[i] += random.uniform(lo, hi)]. *)
Fixpoint add_noise_each (lo hi : R) (noisy : list R) (indices : list nat)
  : SE G (list R) :=
  match indices with
  | [] => ret noisy
  | i :: rest =>
      noisy' <- add_noise_at lo hi noisy i ;;
      add_noise_each lo hi noisy' rest
  end.

(** [[d + random.uniform(lo, hi) for d in true_distances]]. *)
Fixpoint add_noise_all (lo hi : R) (true_distances : list R) : SE G (list R) :=
  match true_distances with
  | [] => ret []
  | d :: rest =>
      u <- uniform lo hi ;;
      rest' <- add_noise_all lo hi rest ;;
      ret ((d + u) :: rest')
  end.

(** The noise block shared by [simulate_error] (boxplot, lines 81-93, with
    [uniform(0, 5)]), [simulate_errors] (line sweep, lines 84-95, with
    [uniform(-noise, noise)]) and [simulate_and_plot] (with
    [uniform(0, noise_level)]): the three texts differ only in the two
    arguments of [random.uniform], here [lo] and [hi]. *)
Definition inject_noise (lo hi : R) (case : Z) (true_distances : list R)
  : SE G (list R) :=
  let noisy := true_distances in
  if (case =? 1)%Z then
    i <- choice [0; 1; 2]%nat ;;
    add_noise_at lo hi noisy i
  else if (case =? 2)%Z then
    indices <- sample [0; 1; 2]%nat 2 ;;
    add_noise_each lo hi noisy indices
  else if (case =? 3)%Z then
    add_noise_all lo hi true_distances
  else
    ret noisy.

(** ** The Monte-Carlo harness *)

(** The module globals of UWB_error_test_boxplot.py and UWB_error_test_line.py,
    taken as parameters of the functions that read them: the list [anchors]
    and the point [true_pos]; [true_distances] is computed from them as in
    the source. *)
Definition true_distances (anchors : list point) (true_pos : point) : list R :=
  map (fun a => norm (psub true_pos a)) anchors.

(** The body of the [try] block of both harnesses: solve on the three
    anchors with the noisy distances and measure the error.  The arguments
    of the call are evaluated from left to right. *)
Definition trial_error (anchors : list point) (true_pos : point)
                       (noisy : list R) : result R :=
  a0 <~ getitem anchors 0 ;;
  n0 <~ getitem noisy 0 ;;
  a1 <~ getitem anchors 1 ;;
  n1 <~ getitem noisy 1 ;;
  a2 <~ getitem anchors 2 ;;
  n2 <~ getitem noisy 2 ;;
  pos <~ trilateration a0 n0 a1 n1 a2 n2 ;;
  Ok (norm (psub pos true_pos)).

(** The trial loop: [errors] is the list built so far, [n] the number of
    trials left.  A raising [try] block is skipped ([continue]); the noise
    block is outside the [try]. *)
Fixpoint trial_loop (anchors : list point) (true_pos : point)
                    (lo hi : R) (case : Z) (n : nat) (errors : list R)
  : SE G (list R) :=
  match n with
  | O => ret errors
  | S n' =>
      noisy <- inject_noise lo hi case (true_distances anchors true_pos) ;;
      match trial_error anchors true_pos noisy with
      | Ok error => trial_loop anchors true_pos lo hi case n' (errors ++ [error])
      | Raise _ => trial_loop anchors true_pos lo hi case n' errors
      end
  end.

(** [simulate_error(case, trials)] of UWB_error_test_boxplot.py. *)
Definition simulate_error (anchors : list point) (true_pos : point)
                          (case : Z) (trials : Z) : SE G (list R) :=
  trial_loop anchors true_pos 0 5 case (Z.to_nat trials) [].

(** An entry of the list [simulate_errors] returns: a mean, or [np.nan]. *)
Inductive mean_error : Type :=
| Mean (m : R)
| NaN.

(** [np.mean(errors) if errors else np.nan]. *)
Definition mean_or_nan (errors : list R) : mean_error :=
  match errors with
  | [] => NaN
  | _ :: _ => Mean (np_mean errors)
  end.

(** The loop over [noise_levels]; [mean_errors] is the list built so far. *)
Fixpoint level_loop (anchors : list point) (true_pos : point)
                    (case : Z) (trials : Z)
                    (noise_levels : list R) (mean_errors : list mean_error)
  : SE G (list mean_error) :=
  match noise_levels with
  | [] => ret mean_errors
  | noise :: rest =>
      errors <- trial_loop anchors true_pos (- noise) noise case
                           (Z.to_nat trials) [] ;;
      level_loop anchors true_pos case trials rest
                 (mean_errors ++ [mean_or_nan errors])
  end.

(** [simulate_errors(noise_levels, case, trials)] of UWB_error_test_line.py. *)
Definition simulate_errors (anchors : list point) (true_pos : point)
                           (noise_levels : list R) (case : Z) (trials : Z)
  : SE G (list mean_error) :=
  level_loop anchors true_pos case trials noise_levels [].

(** *** The harness, trial by trial *)

(** The next four definitions translate no source function: they say what
    the two loops are meant to compute (a log of outcomes per level, its
    successes, their mean), to compare [trial_loop] and [level_loop] with. *)

(** One trial seen from outside: the noise is injected and the outcome of
    the [try] block is recorded, an error or the exception that was caught. *)
Definition run_trial (anchors : list point) (true_pos : point)
                     (lo hi : R) (case : Z) : SE G (result R) :=
  noisy <- inject_noise lo hi case (true_distances anchors true_pos) ;;
  ret (trial_error anchors true_pos noisy).

(** The outcomes of [n] consecutive trials, in trial order. *)
Fixpoint trial_log (anchors : list point) (true_pos : point)
                   (lo hi : R) (case : Z) (n : nat) : SE G (list (result R)) :=
  match n with
  | O => ret []
  | S n' =>
      r <- run_trial anchors true_pos lo hi case ;;
      rest <- trial_log anchors true_pos lo hi case n' ;;
      ret (r :: rest)
  end.

(** The errors of the successful trials of a log, failures dropped. *)
Fixpoint successes (log : list (result R)) : list R :=
  match log with
  | [] => []
  | Ok e :: rest => e :: successes rest
  | Raise _ :: rest => successes rest
  end.

(** One mean per magnitude, each over the successful trials of its level. *)
Fixpoint sweep (anchors : list point) (true_pos : point) (case : Z) (n : nat)
               (noise_levels : list R) : SE G (list mean_error) :=
  match noise_levels with
  | [] => ret []
  | noise :: rest =>
      log <- trial_log anchors true_pos (- noise) noise case n ;;
      means <- sweep anchors true_pos case n rest ;;
      ret (mean_or_nan (successes log) :: means)
  end.

End PyRandom.

(** The globals as the two scripts define them. *)
Definition anchors_default : list point :=
  [(-4.5, 0); (-1.5, -3); (1.5, 0)].

Definition true_pos_default : point := (0, 2).

(** [np.linspace(0, 5, 11)], the magnitudes of UWB_error_test_line.py. *)
Definition noise_levels_default : list R :=
  [0; 0.5; 1; 1.5; 2; 2.5; 3; 3.5; 4; 4.5; 5].

(** A generator to run the definitions on: the state counts the draws,
    [random()] returns one half and [_randbelow(n)] the count modulo [n]. *)
#[export] Instance counter_source : RandomSource nat := {
  random := fun g => (/ 2, S g);
  randbelow := fun n g => (Nat.modulo g n, S g)
}.

(** ** Range-gated selection: [update_circles] *)

(** What [update_circles] of UWB_movable_position_GUI.py computes before it
    draws: the selected [(index, distance)] pairs, their number, and the
    colour chosen from that number.  (auto_sinus.py has the same text with
    the colour "purple" for three anchors.) *)
Record selection : Type := {
  closest_valid : list (nat * R);
  count : nat;
  circle_color : option string
}.

(** Step 1: [[np.linalg.norm(np.array(anchor) - np.array(star_pos)) for anchor in anchors]]. *)
Definition distances_to (anchors : list point) (star_pos : point) : list R :=
  map (fun anchor => norm (psub anchor star_pos)) anchors.

(** Step 2: [[(i, d) for i, d in enumerate(distances) if d <= r]]; the source
    has the literal 10 for [r]. *)
Definition within (r : R) (distances : list R) : list (nat * R) :=
  filter (fun x => Rleb (snd x) r) (enumerate distances).

(** Step 4: the colour for a count. *)
Definition tier_color (count : nat) : option string :=
  match count with
  | 3%nat => Some "green"%string
  | 2%nat => Some "yellow"%string
  | 1%nat => Some "red"%string
  | _ => None
  end.

(** Steps 2 to 4 for a list of distances and a range [r].  No statement of
    these steps raises: the outcome is always a returned selection. *)
Definition select_in_range (r : R) (distances : list R) : result selection :=
  let within_r := within r distances in
  let closest_valid := firstn 3 (sorted Rltb snd within_r) in
  let count := length closest_valid in
  Ok {| closest_valid := closest_valid;
        count := count;
        circle_color := tier_color count |}.

(** Steps 1 to 4 of [update_circles]. *)
Definition update_circles (anchors : list point) (star_pos : point)
  : result selection :=
  select_in_range 10 (distances_to anchors star_pos).

(** ** Closest three: line 119 of [update_position] *)

(** [sorted(range(len(distances)), key=lambda i: distances[i])[:3]]. *)
Definition d_index (distances : list R) : list nat :=
  firstn 3 (sorted Rltb (fun i => nth i distances 0) (range (length distances))).

(** ** The anchor manager (uwb3anchorstest.py) *)

(** The text of [result_label]. *)
Inductive label : Type :=
| LabelInitial
| LabelText (msg : string)
| LabelEstimated (pos : point)
| LabelException (e : exn).

(** A matplotlib mouse event: whether [event.inaxes] is the plot's axes, and
    the data coordinates of the pointer. *)
Record event : Type := {
  inaxes : bool;
  xdata : R;
  ydata : R
}.

(** The globals of the script that the handlers read and write, and the
    generator of [random].  An entry of [distance_entries] is the float its
    text denotes, or [None] when [float] rejects the text. *)
Record world (G : Type) : Type := {
  anchors : list point;
  distances : list R;
  distance_entries : list (option R);
  selected_index : option nat;
  star : option point;
  result_label : label;
  rng : G
}.

Arguments anchors {G} w.
Arguments distances {G} w.
Arguments distance_entries {G} w.
Arguments selected_index {G} w.
Arguments star {G} w.
Arguments result_label {G} w.
Arguments rng {G} w.

Section Manager.
Context {G : Type} {RS : RandomSource G}.

Definition set_anchors (v : list point) : SE (world G) unit :=
  fun w => (Ok tt, {| anchors := v; distances := distances w;
                      distance_entries := distance_entries w;
                      selected_index := selected_index w; star := star w;
                      result_label := result_label w; rng := rng w |}).

Definition set_distances (v : list R) : SE (world G) unit :=
  fun w => (Ok tt, {| anchors := anchors w; distances := v;
                      distance_entries := distance_entries w;
                      selected_index := selected_index w; star := star w;
                      result_label := result_label w; rng := rng w |}).

Definition set_distance_entries (v : list (option R)) : SE (world G) unit :=
  fun w => (Ok tt, {| anchors := anchors w; distances := distances w;
                      distance_entries := v;
                      selected_index := selected_index w; star := star w;
                      result_label := result_label w; rng := rng w |}).

Definition set_selected_index (v : option nat) : SE (world G) unit :=
  fun w => (Ok tt, {| anchors := anchors w; distances := distances w;
                      distance_entries := distance_entries w;
                      selected_index := v; star := star w;
                      result_label := result_label w; rng := rng w |}).

Definition set_star (v : option point) : SE (world G) unit :=
  fun w => (Ok tt, {| anchors := anchors w; distances := distances w;
                      distance_entries := distance_entries w;
                      selected_index := selected_index w; star := v;
                      result_label := result_label w; rng := rng w |}).

Definition set_result_label (v : label) : SE (world G) unit :=
  fun w => (Ok tt, {| anchors := anchors w; distances := distances w;
                      distance_entries := distance_entries w;
                      selected_index := selected_index w; star := star w;
                      result_label := v; rng := rng w |}).

(** A draw from the global generator. *)
Definition draw {A : Type} (m : SE G A) : SE (world G) A :=
  fun w =>
    let (r, g') := m (rng w) in
    (r, {| anchors := anchors w; distances := distances w;
           distance_entries := distance_entries w;
           selected_index := selected_index w; star := star w;
           result_label := result_label w; rng := g' |}).

(** [float(entry.get())]. *)
Definition float_of_entry (entry : option R) : result R :=
  match entry with
  | Some v => Ok v
  | None => Raise (ValueError "could not convert string to float")
  end.

(** [for i, entry in enumerate(distance_entries): distances[i] = float(entry.get())]. *)
Fixpoint read_entries (i : nat) (entries : list (option R)) : SE (world G) unit :=
  match entries with
  | [] => ret tt
  | entry :: rest =>
      v <- lift (float_of_entry entry) ;;
      w <- get ;;
      ds <- lift (setitem (distances w) i v) ;;
      set_distances ds ;;
      read_entries (S i) rest
  end.

(** Lines 117 to 123 of [update_position]: pick the three closest anchors
    and call the solver on them. *)
Definition solve_closest : SE (world G) point :=
  w <- get ;;
  let d_index := d_index (distances w) in
  i1 <- lift (getitem d_index 0) ;;
  p1 <- lift (getitem (anchors w) i1) ;;
  d1 <- lift (getitem (distances w) i1) ;;
  i2 <- lift (getitem d_index 1) ;;
  p2 <- lift (getitem (anchors w) i2) ;;
  d2 <- lift (getitem (distances w) i2) ;;
  i3 <- lift (getitem d_index 2) ;;
  p3 <- lift (getitem (anchors w) i3) ;;
  d3 <- lift (getitem (distances w) i3) ;;
  lift (trilateration_3anchors p1 d1 p2 d2 p3 d3).

(** The [try] block of [update_position]: read the entries, solve on the
    closest three, show the position. *)
Definition locate : SE (world G) unit :=
  w <- get ;;
  read_entries 0 (distance_entries w) ;;
  pos <- solve_closest ;;
  set_star (Some pos) ;;
  set_result_label (LabelEstimated pos).

(** [update_position()]. *)
Definition update_position : SE (world G) unit :=
  w <- get ;;
  if (length (anchors w) <? 3)%nat then
    set_result_label (LabelText "Need at least 3 anchors")
  else
    try_except locate (fun e => set_result_label (LabelException e)).

(** [redraw_anchors()]: of the globals modelled here it rebuilds
    [distance_entries], one entry per pair of [zip(anchors, distances)],
    holding [str(d)]. *)
Definition redraw_anchors : SE (world G) unit :=
  w <- get ;;
  set_distance_entries (map (fun ad => Some (snd ad))
                            (combine (anchors w) (distances w))).

(** [add_anchor()]. *)
Definition add_anchor : SE (world G) unit :=
  w <- get ;;
  if (10 <=? length (anchors w))%nat then
    set_result_label (LabelText "Max 10 anchors allowed")
  else
    x <- draw (uniform (-10) 10) ;;
    y <- draw (uniform (-10) 10) ;;
    set_anchors (anchors w ++ [(x, y)]) ;;
    set_distances (distances w ++ [5]) ;;
    redraw_anchors.

(** [remove_anchor()]. *)
Definition remove_anchor : SE (world G) unit :=
  w <- get ;;
  if (length (anchors w) <=? 3)%nat then
    set_result_label (LabelText "Need minimum 3 anchors")
  else
    a <- lift (pop (anchors w)) ;;
    set_anchors a ;;
    d <- lift (pop (distances w)) ;;
    set_distances d ;;
    redraw_anchors.

(** The loop of [on_press]: the index of the first anchor closer than 0.5 to
    the click, counting from [i]. *)
Fixpoint first_hit (ev : event) (i : nat) (l : list point) : option nat :=
  match l with
  | [] => None
  | a :: l' =>
      if Rltb (sqrt ((xdata ev - fst a) ^ 2 + (ydata ev - snd a) ^ 2)) 0.5
      then Some i
      else first_hit ev (S i) l'
  end.

(** [on_press(event)]. *)
Definition on_press (ev : event) : SE (world G) unit :=
  if negb (inaxes ev) then ret tt
  else
    set_selected_index None ;;
    w <- get ;;
    match first_hit ev 0 (anchors w) with
    | Some i => set_selected_index (Some i)
    | None => ret tt
    end.

(** [on_release(event)]. *)
Definition on_release (ev : event) : SE (world G) unit :=
  set_selected_index None.

(** [on_motion(event)]. *)
Definition on_motion (ev : event) : SE (world G) unit :=
  w <- get ;;
  match selected_index w with
  | None => ret tt
  | Some i =>
      if negb (inaxes ev) then ret tt
      else
        a <- lift (getitem (anchors w) i) ;;
        set_anchors (list_set (anchors w) i (xdata ev, snd a)) ;;
        w <- get ;;
        a <- lift (getitem (anchors w) i) ;;
        set_anchors (list_set (anchors w) i (fst a, ydata ev)) ;;
        redraw_anchors ;;
        update_position
  end.

(** The globals as the script initialises them. *)
Definition initial_world (g : G) : world G :=
  {| anchors := [(6, 7.5); (9, -3); (5, 7.5)];
     distances := [7; 5; 8];
     distance_entries := [];
     selected_index := None;
     star := None;
     result_label := LabelInitial;
     rng := g |}.

(** What the user can do once the window is up. *)
Inductive action : Type :=
| ClickAddAnchor
| ClickRemoveAnchor
| ClickFindPosition
| TypeInEntry (i : nat) (text : option R)
| ButtonPress (ev : event)
| ButtonRelease (ev : event)
| MouseMotion (ev : event).

(** The callback bound to each action.  Typing changes the text of one
    entry and then, on key release, calls [update_position]. *)
Definition handler (a : action) : SE (world G) unit :=
  match a with
  | ClickAddAnchor => add_anchor
  | ClickRemoveAnchor => remove_anchor
  | ClickFindPosition => update_position
  | TypeInEntry i text =>
      w <- get ;;
      set_distance_entries (list_set (distance_entries w) i text) ;;
      update_position
  | ButtonPress ev => on_press ev
  | ButtonRelease ev => on_release ev
  | MouseMotion ev => on_motion ev
  end.

(** The globals after a callback has run; an exception that escapes a
    callback is reported by the event loop, which then goes on. *)
Definition after (a : action) (w : world G) : world G := snd (handler a w).

(** The script calls [redraw_anchors()] and [update_position()] before it
    enters the event loop. *)
Definition startup (g : G) : world G :=
  snd ((redraw_anchors ;; update_position) (initial_world g)).

Inductive reachable (g : G) : world G -> Prop :=
| reachable_startup : reachable g (startup g)
| reachable_after a w : reachable g w -> reachable g (after a w).

(** The invariant of the anchor set. *)
Definition anchor_set_ok (w : world G) : Prop :=
  length (anchors w) = length (distances w) /\
  (3 <= length (anchors w) <= 10)%nat.

End Manager.

(** ** Error names of the specification with no counterpart in the code *)

(** No source file defines or raises these; they are exception classes only
    by name, so that statements can say the code does not raise them. *)
Definition InvalidInputError (msg : string) : exn := PyExc "InvalidInputError" msg.
Definition InsufficientAnchorsError (msg : string) : exn :=
  PyExc "InsufficientAnchorsError" msg.

(** ** Vocabulary of the statements *)

(** By distance, then by index. *)
Definition closer (d : nat -> R) (i j : nat) : Prop :=
  d i < d j \/ (d i = d j /\ (i < j)%nat).

(** By distance, then by index, on [(index, distance)] pairs. *)
Definition nearer (x y : nat * R) : Prop :=
  snd x < snd y \/ (snd x = snd y /\ (fst x < fst y)%nat).

Definition index_before (x y : nat * R) : Prop := (fst x < fst y)%nat.

(** [noisy] is [ds] with an additive sample between [lo] and [hi] on the
    entries listed in [idx], and equal to [ds] on every other entry. *)
Definition perturbed_at (lo hi : R) (ds noisy : list R) (idx : list nat) : Prop :=
  (length noisy = length ds)%nat /\
  forall k : nat,
    (In k idx -> lo <= nth k noisy 0 - nth k ds 0 <= hi) /\
    (~ In k idx -> nth k noisy 0 = nth k ds 0).

(** What the outcome of one trial can be: the aligned-anchors error, or the
    distance between the ground truth and the position the solver returns on
    the three anchors and some three noisy distances. *)
Definition trial_outcome (anchors : list point) (true_pos : point)
                         (r : result R) : Prop :=
  r = Raise DegenerateGeometryError \/
  exists (noisy : list R) (pos : point),
    length noisy = 3%nat /\
    trilateration (nth 0 anchors (0, 0)) (nth 0 noisy 0)
                  (nth 1 anchors (0, 0)) (nth 1 noisy 0)
                  (nth 2 anchors (0, 0)) (nth 2 noisy 0) = Ok pos /\
    r = Ok (norm (psub pos true_pos)).

(** The mean of a level from the log of its trials. *)
Definition level_mean (log : list (result R)) : mean_error :=
  match successes log with
  | [] => NaN
  | e :: es => Mean (sum_list (e :: es) / INR (length (e :: es)))
  end.

(** ** The scenario of the scripts in binary64 arithmetic *)

(** The solver and the norm once more, on IEEE 754 binary64 numbers with
    round-to-nearest-even (the arithmetic of Python floats and of numpy
    float64), to evaluate the scenario of the scripts as the machine does.
    [x ** 2] is taken as the correctly rounded square [x * x]. *)
Module Binary64.

Import PrimFloat.

Definition fpoint : Type := (float * float)%type.

Definition square (x : float) : float := (x * x)%float.

(** [np.linalg.norm(p - q)] on 2-vectors. *)
Definition norm_sub (p q : fpoint) : float :=
  sqrt (square (fst p - fst q) + square (snd p - snd q))%float.

Definition trilateration (p1 : fpoint) (d1 : float) (p2 : fpoint) (d2 : float)
                         (p3 : fpoint) (d3 : float) : result fpoint :=
  let '(x1, y1) := p1 in
  let '(x2, y2) := p2 in
  let '(x3, y3) := p3 in
  let A := (2 * (x2 - x1))%float in
  let B := (2 * (y2 - y1))%float in
  let C := (square d1 - square d2 - square x1 + square x2
            - square y1 + square y2)%float in
  let D := (2 * (x3 - x1))%float in
  let E := (2 * (y3 - y1))%float in
  let F := (square d1 - square d3 - square x1 + square x3
            - square y1 + square y3)%float in
  let denominator := (A * E - B * D)%float in
  if (denominator =? 0)%float then
    Raise (ValueError "Anchors are aligned")
  else
    let x := ((C * E - B * F) / denominator)%float in
    let y := ((A * F - C * D) / denominator)%float in
    Ok (x, y).

Definition anchors : list fpoint :=
  [((-4.5)%float, 0%float); ((-1.5)%float, (-3)%float); (1.5%float, 0%float)].

Definition true_pos : fpoint := (0%float, 2%float).

Definition true_distances : list float :=
  map (fun a => norm_sub true_pos a) anchors.



End Binary64.

(** ** Further vocabulary: geometry of the solver *)





(** ** UWB_errors_on_map.py *)

(** What one call of [simulate_and_plot] leaves behind: a saved figure, with
    the estimated position and the error written on it, or the printed
    message of the exception that the [try] block raised. *)
Inductive plot_outcome : Type :=
| FigureSaved (est_pos : point) (error : R)
| ErrorPrinted (e : exn).

(** One run of the main loop of the script: its parameters and its outcome. *)
Record map_run : Type := {
  map_case : Z;
  map_noise : R;
  map_trial : nat;
  map_true_pos : point;
  map_outcome : plot_outcome
}.

Section ErrorsOnMap.
Context {G : Type} {RS : RandomSource G}.

(** The colours of the three anchors in the figures. *)
Definition map_colors : list string :=
  ["blue"%string; "green"%string; "red"%string].

(** The loop [for i, (a, true_d, noisy_d) in enumerate(zip(ANCHORS,
    true_distances, noisy))], counting from [i]: of what it does only the
    lookup [colors[i]] can raise. *)
Fixpoint annotate_anchors (i : nat) (zipped : list (point * (R * R)))
  : result unit :=
  match zipped with
  | [] => Ok tt
  | _ :: rest =>
      _ <~ getitem map_colors i ;;
      annotate_anchors (S i) rest
  end.

(** The [try] block of [simulate_and_plot]: solve, annotate the anchors,
    mark the positions and the error, save the figure. *)
Definition plot_estimate (ANCHORS : list point) (TRUE_POS : point)
                         (true_d noisy : list R) : result plot_outcome :=
  a0 <~ getitem ANCHORS 0 ;;
  n0 <~ getitem noisy 0 ;;
  a1 <~ getitem ANCHORS 1 ;;
  n1 <~ getitem noisy 1 ;;
  a2 <~ getitem ANCHORS 2 ;;
  n2 <~ getitem noisy 2 ;;
  est_pos <~ trilateration a0 n0 a1 n1 a2 n2 ;;
  _ <~ annotate_anchors 0 (combine ANCHORS (combine true_d noisy)) ;;
  Ok (FigureSaved est_pos (norm (psub est_pos TRUE_POS))).

(** [simulate_and_plot(case, noise_level, trial_index, TRUE_POS)]; the
    global [ANCHORS] is a parameter.  [trial_index] only goes into the title
    and the file name. *)
Definition simulate_and_plot (ANCHORS : list point) (case : Z) (noise_level : R)
                             (trial_index : nat) (TRUE_POS : point)
  : SE G plot_outcome :=
  let true_d := true_distances ANCHORS TRUE_POS in
  noisy <- inject_noise 0 noise_level case true_d ;;
  match plot_estimate ANCHORS TRUE_POS true_d noisy with
  | Ok outcome => ret outcome
  | Raise e => ret (ErrorPrinted e)
  end.

(** A [for] loop whose body leaves a list of records behind: the records of
    all the iterations, in order. *)
Fixpoint for_each {A B : Type} (l : list A) (body : A -> SE G (list B))
  : SE G (list B) :=
  match l with
  | [] => ret []
  | a :: l' =>
      r <- body a ;;
      rs <- for_each l' body ;;
      ret (r ++ rs)
  end.

(** The body of the innermost loop: draw [TRUE_POS], then simulate and plot. *)
Definition map_iteration (ANCHORS : list point) (case : Z) (noise : R)
                         (trial : nat) : SE G (list map_run) :=
  x <- uniform (-1.5) 1.5 ;;
  y <- choice (range 10) ;;
  let TRUE_POS := (x, INR y) in
  outcome <- simulate_and_plot ANCHORS case noise trial TRUE_POS ;;
  ret [{| map_case := case; map_noise := noise; map_trial := trial;
          map_true_pos := TRUE_POS; map_outcome := outcome |}].

(** The main loop of the script, with its globals as parameters. *)
Definition errors_on_map_main (ANCHORS : list point) (NOISE_LEVELS : list R)
                              (TRIALS_PER_SETTING : nat)
  : SE G (list map_run) :=
  for_each [1; 2; 3]%Z (fun case =>
    for_each NOISE_LEVELS (fun noise =>
      for_each (range TRIALS_PER_SETTING) (fun trial =>
        map_iteration ANCHORS case noise trial))).

End ErrorsOnMap.

(** The globals as the script defines them. *)
Definition NOISE_LEVELS_default : list R := [0; 1; 2; 3; 4; 5].

Definition TRIALS_PER_SETTING_default : nat := 3.

(** ** Further vocabulary: the anchor manager *)

(** The distance [on_press] compares with 0.5: from the click to an anchor. *)
Definition click_distance (ev : event) (a : point) : R :=
  sqrt ((xdata ev - fst a) ^ 2 + (ydata ev - snd a) ^ 2).

(** ** The reference lines *)

(** [min(l, key=key)] on a list with first element [best]: the first of the
    elements with the smallest key. *)
Fixpoint min_by (key : R -> R) (best : R) (l : list R) : R :=
  match l with
  | [] => best
  | y :: l' => if Rltb (key y) (key best) then min_by key y l' else min_by key best l'
  end.

(** [min(ref_lines, key=lambda y: abs(y_star - y))] with [ref_lines = [0, -3]]:
    lines 145-146 of [update_position], 130-131 of [update_circles], 77-78 of
    [update_plot]. *)
Definition closest_y (y_star : R) : R :=
  min_by (fun y => Rabs (y_star - y)) 0 [-3].

(** [abs(y_star - closest_y)], the length written next to the dashed line. *)
Definition distance_to_line (y_star : R) : R :=
  Rabs (y_star - closest_y y_star).

(** [(y_star + closest_y) / 2], where the length is written. *)
Definition mid_y (y_star : R) : R := (y_star + closest_y y_star) / 2.

(** ** test_server_uwb.py *)

(** The server keeps one global, [latest_data]; each of its two handlers
    reads or writes it once, inside [with lock], so a handler is one step on
    that global.  JSON values are of a type [json] that is left open; [[]] is
    the value [empty_list]. *)
Section Server.
Variable json : Type.
Variable empty_list : json.

(** What [request.get_json()] gives: a JSON object, as the dictionary it is
    read into, or no dictionary (the body is not JSON, or not an object), in
    which case [get_json] or the call of [data.get] raises [e]. *)
Inductive request_body : Type :=
| JsonObject (data : string -> option json)
| NoObject (e : exn).

(** The replies of the two routes: [jsonify(...), status]. *)
Inductive reply : Type :=
| StatusSuccess200
| Error400 (e : exn)
| Distances200 (distances : json).

(** [data.get(key, default)]. *)
Definition dict_get (data : string -> option json) (key : string)
                    (default : json) : json :=
  match data key with
  | Some v => v
  | None => default
  end.

Definition get_json (body : request_body) : result (string -> option json) :=
  match body with
  | JsonObject data => Ok data
  | NoObject e => Raise e
  end.

(** [receive_data()], the POST route [/send]. *)
Definition receive_data (body : request_body) : SE json reply :=
  try_except
    (data <- lift (get_json body) ;;
     put (dict_get data "distances" empty_list) ;;
     ret StatusSuccess200)
    (fun e => ret (Error400 e)).

(** [send_latest()], the GET route [/get]. *)
Definition send_latest : SE json reply :=
  latest_data <- get ;;
  ret (Distances200 latest_data).

(** A client request and the handler that serves it. *)
Inductive request : Type :=
| PostSend (body : request_body)
| GetLatest.

Definition serve (rq : request) : SE json reply :=
  match rq with
  | PostSend body => receive_data body
  | GetLatest => send_latest
  end.

(** [latest_data] after the requests [rqs] have been served in turn. *)
Fixpoint serve_all (rqs : list request) (latest_data : json) : json :=
  match rqs with
  | [] => latest_data
  | rq :: rest => serve_all rest (snd (serve rq latest_data))
  end.

(** What the requests [rqs] leave to be fetched: the ["distances"] of the
    last posted object, [[]] when that object has no such key, and [initial]
    when no object was posted. *)
Fixpoint last_posted (rqs : list request) (initial : json) : json :=
  match rqs with
  | [] => initial
  | PostSend (JsonObject data) :: rest =>
      last_posted rest (dict_get data "distances" empty_list)
  | _ :: rest => last_posted rest initial
  end.

End Server.

Arguments JsonObject {json} data.
Arguments NoObject {json} e.
Arguments StatusSuccess200 {json}.
Arguments Error400 {json} e.
Arguments Distances200 {json} distances.
Arguments PostSend {json} body.
Arguments GetLatest {json}.

(** ** auto_distances.py *)

(** [l[i]] for any int [i]: a negative index counts from the end. *)
Definition getitem_int {A : Type} (l : list A) (i : Z) : result A :=
  if (0 <=? i)%Z then getitem l (Z.to_nat i)
  else if (- Z.of_nat (length l) <=? i)%Z then
    getitem l (Z.to_nat (Z.of_nat (length l) + i))
  else Raise (IndexError "list index out of range").

(** The twelve anchors of auto_distances.py and auto_sinus.py: six along
    y = 0 and six along y = -3. *)
Definition depot_anchors : list point :=
  [(-16.5, 0); (-10.5, 0); (-4.5, 0); (1.5, 0); (7.5, 0); (13.5, 0);
   (-13.5, -3); (-7.5, -3); (-1.5, -3); (4.5, -3); (10.5, -3); (16.5, -3)].

(** One element of the ["distances"] list of the feed, a JSON object: the
    int under ['anchor_id'] and the number under ['distance'], each [None]
    when the key is missing. *)
Record feed_item : Type := {
  anchor_id : option Z;
  distance : option R
}.

(** What the request of one round gives: an exception [e] (raised by
    [requests.get], or by [response.json()] on a response with status 200),
    or a response with its status code and, read from its JSON object, the
    list under ["distances"] ([None] when the object has no such key). *)
Inductive http_response : Type :=
| RequestFailed (e : exn)
| Response (status_code : Z) (distances_value : option (list feed_item)).

(** A line written by [print]. *)
Inductive printed : Type :=
| PrintedFetchError (e : exn)
| PrintedServerError (status_code : Z).

(** The globals that [update_plot] and [poll_distances] write: the position
    of the star, the circles (centre, radius, colour), the three distances
    shown in the label, and what has been printed. *)
Record plot : Type := {
  plot_star : point;
  plot_circles : list (point * R * string);
  plot_label : option (R * R * R);
  plot_printed : list printed
}.

Definition KeyError (msg : string) : exn := PyExc "KeyError" msg.

(** [item['anchor_id']] and [item['distance']]. *)
Definition item_anchor_id (item : feed_item) : result Z :=
  match anchor_id item with
  | Some i => Ok i
  | None => Raise (KeyError "'anchor_id'")
  end.

Definition item_distance (item : feed_item) : result R :=
  match distance item with
  | Some d => Ok d
  | None => Raise (KeyError "'distance'")
  end.

(** A list comprehension whose element expression may raise. *)
Fixpoint comprehension {A B : Type} (f : A -> result B) (l : list A)
  : result (list B) :=
  match l with
  | [] => Ok []
  | a :: l' =>
      b <~ f a ;;
      bs <~ comprehension f l' ;;
      Ok (b :: bs)
  end.

Definition plot_colors : list string :=
  ["red"%string; "yellow"%string; "purple"%string].

Definition set_plot_circles (v : list (point * R * string)) : SE plot unit :=
  fun p => (Ok tt, {| plot_star := plot_star p; plot_circles := v;
                      plot_label := plot_label p;
                      plot_printed := plot_printed p |}).

Definition set_plot_star (v : point) : SE plot unit :=
  fun p => (Ok tt, {| plot_star := v; plot_circles := plot_circles p;
                      plot_label := plot_label p;
                      plot_printed := plot_printed p |}).

Definition set_plot_label (v : option (R * R * R)) : SE plot unit :=
  fun p => (Ok tt, {| plot_star := plot_star p;
                      plot_circles := plot_circles p;
                      plot_label := v;
                      plot_printed := plot_printed p |}).

Definition print (line : printed) : SE plot unit :=
  fun p => (Ok tt, {| plot_star := plot_star p;
                      plot_circles := plot_circles p;
                      plot_label := plot_label p;
                      plot_printed := plot_printed p ++ [line] |}).

(** The loop of [update_plot] over [enumerate(zip(used_indices,
    used_distances))], counting from [i]: one circle per pair, appended to
    [circles]. *)
Fixpoint draw_used (anchors : list point) (i : nat) (zipped : list (Z * R))
  : SE plot unit :=
  match zipped with
  | [] => ret tt
  | (idx, d) :: rest =>
      anchor <- lift (getitem_int anchors idx) ;;
      color <- lift (getitem plot_colors i) ;;
      p <- get ;;
      set_plot_circles (plot_circles p ++ [(anchor, d, color)]) ;;
      draw_used anchors (S i) rest
  end.

(** [update_plot(est_pos, used_indices, used_distances)]. *)
Definition update_plot (anchors : list point) (est_pos : point)
                       (used_indices : list Z) (used_distances : list R)
  : SE plot unit :=
  set_plot_circles [] ;;
  draw_used anchors 0 (combine used_indices used_distances) ;;
  set_plot_star est_pos.

(** The [try] block of one round of [poll_distances], the response being
    given. *)
Definition poll_try (anchors : list point) (response : http_response)
  : SE plot unit :=
  match response with
  | RequestFailed e => lift (Raise e)
  | Response status_code distances_value =>
      if (status_code =? 200)%Z then
        let distance_data :=
          match distances_value with Some l => l | None => [] end in
        if negb (length distance_data =? 3)%nat then
          lift (Raise (ValueError "Beklenen 3 mesafe verisi yok"))
        else
          used_ids <- lift (comprehension item_anchor_id distance_data) ;;
          used_distances <- lift (comprehension item_distance distance_data) ;;
          id1 <- lift (getitem used_ids 0) ;;
          p1 <- lift (getitem_int anchors id1) ;;
          d1 <- lift (getitem used_distances 0) ;;
          id2 <- lift (getitem used_ids 1) ;;
          p2 <- lift (getitem_int anchors id2) ;;
          d2 <- lift (getitem used_distances 1) ;;
          id3 <- lift (getitem used_ids 2) ;;
          p3 <- lift (getitem_int anchors id3) ;;
          d3 <- lift (getitem used_distances 2) ;;
          est_pos <- lift (trilateration_3anchors p1 d1 p2 d2 p3 d3) ;;
          update_plot anchors est_pos used_ids used_distances ;;
          set_plot_label (Some (d1, d2, d3))
      else
        print (PrintedServerError status_code)
  end.

(** One round of the loop of [poll_distances]. *)
Definition poll_once (anchors : list point) (response : http_response)
  : SE plot unit :=
  try_except (poll_try anchors response)
             (fun e => print (PrintedFetchError e)).

(** The rounds of [poll_distances] for the responses [responses], in turn. *)
Fixpoint poll_rounds (anchors : list point) (responses : list http_response)
                     (p : plot) : plot :=
  match responses with
  | [] => p
  | response :: rest => poll_rounds anchors rest (snd (poll_once anchors response p))
  end.

(** The row of the anchor with index [n] in [depot_anchors]: 0 for the six
    anchors along y = 0, 1 for the six along y = -3. *)
Definition depot_row (n : nat) : nat := if (n <? 6)%nat then 0%nat else 1%nat.

(** ** UWB_movable_position_GUI.py: the drawing and the mouse handlers *)

Module Movable.

(** The anchors of the script. *)
Definition anchors : list point :=
  [(-15, 0); (-9, 0); (-3, 0); (3, 0); (9, 0); (15, 0);
   (-15, -3); (-9, -3); (-3, -3); (3, -3); (9, -3); (15, -3)].

(** A mouse event: [event.inaxes == ax], and [event.xdata], [event.ydata],
    which are [None] when the pointer is outside the axes. *)
Record event : Type := {
  inaxes : bool;
  xdata : option R;
  ydata : option R
}.

(** A [patches.Circle(anchor, radius=d, color=circle_color)]. *)
Record circle : Type := {
  center : point;
  radius : R;
  color : option string
}.

(** The globals of the script.  [star_data] is the data of the marker
    [star]; each artist is kept with what it shows: a distance label with its
    place and the distance, the star label with its place and the position,
    the corridor line with its two ends, the corridor text with its place and
    the length.  An artist that has been removed is [None]. *)
Record canvas : Type := {
  star_pos : point;
  star_data : point;
  selected_star : bool;
  circles : list circle;
  text_labels : list (point * R);
  star_label : option (point * point);
  corridor_line : option (point * point);
  corridor_text : option (point * R)
}.

Definition set_star_pos (v : point) : SE canvas unit :=
  fun c => (Ok tt, {| star_pos := v; star_data := star_data c;
                      selected_star := selected_star c;
                      circles := circles c; text_labels := text_labels c;
                      star_label := star_label c;
                      corridor_line := corridor_line c;
                      corridor_text := corridor_text c |}).

Definition set_star_data (v : point) : SE canvas unit :=
  fun c => (Ok tt, {| star_pos := star_pos c; star_data := v;
                      selected_star := selected_star c;
                      circles := circles c; text_labels := text_labels c;
                      star_label := star_label c;
                      corridor_line := corridor_line c;
                      corridor_text := corridor_text c |}).

Definition set_selected_star (v : bool) : SE canvas unit :=
  fun c => (Ok tt, {| star_pos := star_pos c; star_data := star_data c;
                      selected_star := v;
                      circles := circles c; text_labels := text_labels c;
                      star_label := star_label c;
                      corridor_line := corridor_line c;
                      corridor_text := corridor_text c |}).

(** Lines 83 to 94: every old artist is removed and the two lists are
    cleared. *)
Definition clear_visuals : SE canvas unit :=
  fun c => (Ok tt, {| star_pos := star_pos c; star_data := star_data c;
                      selected_star := selected_star c;
                      circles := []; text_labels := [];
                      star_label := None;
                      corridor_line := None;
                      corridor_text := None |}).

(** [ax.add_patch(circle); circles.append(circle)]. *)
Definition add_circle (v : circle) : SE canvas unit :=
  fun c => (Ok tt, {| star_pos := star_pos c; star_data := star_data c;
                      selected_star := selected_star c;
                      circles := circles c ++ [v];
                      text_labels := text_labels c;
                      star_label := star_label c;
                      corridor_line := corridor_line c;
                      corridor_text := corridor_text c |}).

(** [label = ax.text(...); text_labels.append(label)]. *)
Definition add_text_label (v : point * R) : SE canvas unit :=
  fun c => (Ok tt, {| star_pos := star_pos c; star_data := star_data c;
                      selected_star := selected_star c;
                      circles := circles c;
                      text_labels := text_labels c ++ [v];
                      star_label := star_label c;
                      corridor_line := corridor_line c;
                      corridor_text := corridor_text c |}).

Definition set_star_label (v : option (point * point)) : SE canvas unit :=
  fun c => (Ok tt, {| star_pos := star_pos c; star_data := star_data c;
                      selected_star := selected_star c;
                      circles := circles c; text_labels := text_labels c;
                      star_label := v;
                      corridor_line := corridor_line c;
                      corridor_text := corridor_text c |}).

Definition set_corridor_line (v : option (point * point)) : SE canvas unit :=
  fun c => (Ok tt, {| star_pos := star_pos c; star_data := star_data c;
                      selected_star := selected_star c;
                      circles := circles c; text_labels := text_labels c;
                      star_label := star_label c;
                      corridor_line := v;
                      corridor_text := corridor_text c |}).

Definition set_corridor_text (v : option (point * R)) : SE canvas unit :=
  fun c => (Ok tt, {| star_pos := star_pos c; star_data := star_data c;
                      selected_star := selected_star c;
                      circles := circles c; text_labels := text_labels c;
                      star_label := star_label c;
                      corridor_line := corridor_line c;
                      corridor_text := v |}).

(** Step 5, lines 117 to 124: the loop over [closest_valid]. *)
Fixpoint draw_circles (anchors : list point) (circle_color : option string)
                      (closest_valid : list (nat * R)) : SE canvas unit :=
  match closest_valid with
  | [] => ret tt
  | (i, d) :: rest =>
      anchor <- lift (getitem anchors i) ;;
      add_circle {| center := anchor; radius := d; color := circle_color |} ;;
      add_text_label ((fst anchor + 0.5, snd anchor - 0.7), d) ;;
      draw_circles anchors circle_color rest
  end.

(** What one pass of that loop draws for the pair [x] of [closest_valid], when
    the index is one of [anchors]: the circle, and the label with its place
    and the distance it shows. *)
Definition circle_of (anchors : list point) (circle_color : option string)
                     (x : nat * R) : circle :=
  {| center := nth (fst x) anchors (0, 0);
     radius := snd x;
     color := circle_color |}.

Definition label_of (anchors : list point) (x : nat * R) : point * R :=
  ((fst (nth (fst x) anchors (0, 0)) + 0.5,
    snd (nth (fst x) anchors (0, 0)) - 0.7), snd x).

(** Lines 127 to 134: the star label and the corridor line with its text. *)
Definition draw_corridor : SE canvas unit :=
  c <- get ;;
  let star_pos := star_pos c in
  set_star_label (Some ((fst star_pos + 0.5, snd star_pos + 0.5), star_pos)) ;;
  let closest_y := closest_y (snd star_pos) in
  set_corridor_line (Some (star_pos, (fst star_pos, closest_y))) ;;
  let mid_y := (snd star_pos + closest_y) / 2 in
  set_corridor_text
    (Some ((fst star_pos + 0.5, mid_y), Rabs (snd star_pos - closest_y))).

(** [update_circles()], the whole of it: steps 1 to 4 are the selection
    defined above. *)
Definition update_circles (anchors : list point) : SE canvas unit :=
  clear_visuals ;;
  c <- get ;;
  sel <- lift (update_circles anchors (star_pos c)) ;;
  draw_circles anchors (circle_color sel) (closest_valid sel) ;;
  draw_corridor.

(** [on_press(event)]. *)
Definition on_press (ev : event) : SE canvas unit :=
  match inaxes ev, xdata ev, ydata ev with
  | true, Some x, Some y =>
      c <- get ;;
      let dist := norm (psub (x, y) (star_pos c)) in
      if Rltb dist 0.7 then set_selected_star true else ret tt
  | _, _, _ => ret tt
  end.

(** [on_release(event)]. *)
Definition on_release (ev : event) : SE canvas unit :=
  set_selected_star false.

(** [on_motion(event)]. *)
Definition on_motion (anchors : list point) (ev : event) : SE canvas unit :=
  c <- get ;;
  match selected_star c, inaxes ev, xdata ev, ydata ev with
  | true, true, Some x, Some y =>
      set_star_pos (x, y) ;;
      set_star_data (x, y) ;;
      update_circles anchors
  | _, _, _, _ => ret tt
  end.

(** The three bindings of lines 159 to 161. *)
Inductive mouse : Type :=
| button_press_event (ev : event)
| button_release_event (ev : event)
| motion_notify_event (ev : event).

Definition handler (anchors : list point) (m : mouse) : SE canvas unit :=
  match m with
  | button_press_event ev => on_press ev
  | button_release_event ev => on_release ev
  | motion_notify_event ev => on_motion anchors ev
  end.

(** The main loop on the events [events], in turn. *)
Fixpoint mainloop (anchors : list point) (events : list mouse)
  : SE canvas unit :=
  match events with
  | [] => ret tt
  | m :: rest => handler anchors m ;; mainloop anchors rest
  end.

(** The globals as the script sets them (lines 23 to 30, 75 and 76). *)
Definition initial_canvas : canvas :=
  {| star_pos := (0, 0); star_data := (0, 0); selected_star := false;
     circles := []; text_labels := [];
     star_label := Some ((0 + 0.5, 0 + 0.5), (0, 0));
     corridor_line := None; corridor_text := None |}.

(** The script from its first line to the events: the initial update of
    line 164, then the main loop. *)
Definition script (anchors : list point) (events : list mouse)
  : SE canvas unit :=
  update_circles anchors ;; mainloop anchors events.

(** A drag: a press, the pointer moving inside the axes through the points
    of [path], and a release. *)
Definition drag (press : event) (path : list point) (release : event)
  : list mouse :=
  button_press_event press
    :: map (fun p => motion_notify_event
                       {| inaxes := true; xdata := Some (fst p);
                          ydata := Some (snd p) |}) path
    ++ [button_release_event release].

End Movable.

(** The canvas shows the star where it is: the marker is at [star_pos], and
    [update_circles] would redraw what is there. *)
Definition up_to_date (anchors : list point) (c : Movable.canvas) : Prop :=
  Movable.star_data c = Movable.star_pos c /\
  Movable.update_circles anchors c = (Ok tt, c).

(** ** auto_sinus.py: the simulated movement *)

Module AutoSinus.

(** Lines 50 to 58: the colour for a count. *)
Definition tier_color (count : nat) : option string :=
  match count with
  | 3%nat => Some "purple"%string
  | 2%nat => Some "yellow"%string
  | 1%nat => Some "red"%string
  | _ => None
  end.

(** [update_circles()]: lines 60 to 76 have the text of lines 117 to 134 of
    UWB_movable_position_GUI.py (but for the colour and size of the texts),
    and work on globals of the same names. *)
Definition update_circles (anchors : list point) : SE Movable.canvas unit :=
  Movable.clear_visuals ;;
  c <- get ;;
  let distances := distances_to anchors (Movable.star_pos c) in
  let within_10m := within 10 distances in
  let closest_valid := firstn 3 (sorted Rltb snd within_10m) in
  let count := length closest_valid in
  let circle_color := tier_color count in
  Movable.draw_circles anchors circle_color closest_valid ;;
  Movable.draw_corridor.

(** The state of [poll_server]: the globals, its local [t], the text of
    [received_label] (the position shown, [None] for the initial "(?)")
    and the exceptions printed. *)
Record simulation : Type := {
  globals : Movable.canvas;
  t : R;
  received_label : option point;
  printed : list exn
}.

(** A statement on the globals, within [poll_server]. *)
Definition on_globals {A : Type} (m : SE Movable.canvas A) : SE simulation A :=
  fun s =>
    let (r, c) := m (globals s) in
    (r, {| globals := c; t := t s; received_label := received_label s;
           printed := printed s |}).

Definition set_t (v : R) : SE simulation unit :=
  fun s => (Ok tt, {| globals := globals s; t := v;
                      received_label := received_label s;
                      printed := printed s |}).

Definition set_received_label (v : option point) : SE simulation unit :=
  fun s => (Ok tt, {| globals := globals s; t := t s;
                      received_label := v;
                      printed := printed s |}).

Definition print (e : exn) : SE simulation unit :=
  fun s => (Ok tt, {| globals := globals s; t := t s;
                      received_label := received_label s;
                      printed := printed s ++ [e] |}).

(** One round of the loop of [poll_server]. *)
Definition poll_round (anchors : list point) : SE simulation unit :=
  try_except
    (s <- get ;;
     let x := 15 * sin (t s) in
     let y := 10 * cos (t s) in
     on_globals (Movable.set_star_pos (x, y)) ;;
     on_globals (Movable.set_star_data (x, y)) ;;
     on_globals (update_circles anchors) ;;
     set_received_label (Some (x, y)) ;;
     set_t (t s + 0.01))
    (fun e => print e).

Fixpoint poll_rounds (anchors : list point) (n : nat) : SE simulation unit :=
  match n with
  | O => ret tt
  | S n' => poll_round anchors ;; poll_rounds anchors n'
  end.

(** [poll_server()], stopped after [n] rounds of its loop. *)
Definition poll_server (anchors : list point) (n : nat) : SE simulation unit :=
  set_t 0 ;; poll_rounds anchors n.

End AutoSinus.

(** * Properties *)

(** ** The solver *)

Lemma trilateration_unfold p1 d1 p2 d2 p3 d3 :
  trilateration p1 d1 p2 d2 p3 d3 =
  if Req_dec_T (denom p1 p2 p3) 0 then Raise DegenerateGeometryError
  else Ok ((coefC p1 p2 d1 d2 * coefE p1 p3 - coefB p1 p2 * coefF p1 p3 d1 d3)
             / denom p1 p2 p3,
           (coefA p1 p2 * coefF p1 p3 d1 d3 - coefC p1 p2 d1 d2 * coefD p1 p3)
             / denom p1 p2 p3).
Proof.
  destruct p1 as [x1 y1], p2 as [x2 y2], p3 as [x3 y3].
  reflexivity.
Qed.

Lemma denom_cross p1 p2 p3 :
  denom p1 p2 p3 =
  4 * ((fst p2 - fst p1) * (snd p3 - snd p1)
       - (snd p2 - snd p1) * (fst p3 - fst p1)).
Proof. unfold denom, coefA, coefB, coefD, coefE. ring. Qed.

(** The determinant of the linear system vanishes exactly on collinear
    anchors. *)
Lemma collinear_denom p1 p2 p3 :
  collinear p1 p2 p3 <-> denom p1 p2 p3 = 0.
Proof.
  rewrite denom_cross.
  destruct p1 as [x1 y1], p2 as [x2 y2], p3 as [x3 y3]; simpl.
  split.
  - intros (a & b & c & Hab & H1 & H2 & H3).
    unfold on_line in *; simpl in *.
    assert (Ha : a * ((x2 - x1) * (y3 - y1) - (y2 - y1) * (x3 - x1)) = 0).
    { replace (a * ((x2 - x1) * (y3 - y1) - (y2 - y1) * (x3 - x1)))
        with ((a * x2 + b * y2 - (a * x1 + b * y1)) * (y3 - y1)
              - (a * x3 + b * y3 - (a * x1 + b * y1)) * (y2 - y1)) by ring.
      rewrite H1, H2, H3. ring. }
    assert (Hb : b * ((x2 - x1) * (y3 - y1) - (y2 - y1) * (x3 - x1)) = 0).
    { replace (b * ((x2 - x1) * (y3 - y1) - (y2 - y1) * (x3 - x1)))
        with ((a * x3 + b * y3 - (a * x1 + b * y1)) * (x2 - x1)
              - (a * x2 + b * y2 - (a * x1 + b * y1)) * (x3 - x1)) by ring.
      rewrite H1, H2, H3. ring. }
    destruct Hab as [Hne | Hne].
    + apply Rmult_integral in Ha. destruct Ha as [Ha | Ha]; [contradiction | lra].
    + apply Rmult_integral in Hb. destruct Hb as [Hb | Hb]; [contradiction | lra].
  - intros H0.
    assert (Hc : (x2 - x1) * (y3 - y1) - (y2 - y1) * (x3 - x1) = 0) by lra.
    clear H0.
    destruct (Req_dec_T (y2 - y1) 0) as [Hy2 | Hy2].
    + destruct (Req_dec_T (x2 - x1) 0) as [Hx2 | Hx2].
      * (* p2 = p1: the line through p1 and p3, or any line through p1 *)
        destruct (Req_dec_T (y3 - y1) 0) as [Hy3 | Hy3].
        -- exists 0, 1, y1. unfold on_line; simpl.
           repeat split; try lra.
        -- exists (y3 - y1), (- (x3 - x1)), ((y3 - y1) * x1 - (x3 - x1) * y1).
           unfold on_line; simpl.
           assert (x2 = x1) by lra. assert (y2 = y1) by lra. subst x2 y2.
           repeat split; try (left; assumption); ring.
      * exists (y2 - y1), (- (x2 - x1)), ((y2 - y1) * x1 - (x2 - x1) * y1).
        unfold on_line; simpl.
        repeat split; try (right; lra); try ring.
        replace ((y2 - y1) * x3 + - (x2 - x1) * y3)
          with ((y2 - y1) * x1 - (x2 - x1) * y1
                - ((x2 - x1) * (y3 - y1) - (y2 - y1) * (x3 - x1))) by ring.
        rewrite Hc. ring.
    + exists (y2 - y1), (- (x2 - x1)), ((y2 - y1) * x1 - (x2 - x1) * y1).
      unfold on_line; simpl.
      repeat split; try (left; assumption); try ring.
      replace ((y2 - y1) * x3 + - (x2 - x1) * y3)
        with ((y2 - y1) * x1 - (x2 - x1) * y1
              - ((x2 - x1) * (y3 - y1) - (y2 - y1) * (x3 - x1))) by ring.
      rewrite Hc. ring.
Qed.

Lemma trilateration_raises_iff p1 d1 p2 d2 p3 d3 :
  (exists e, trilateration p1 d1 p2 d2 p3 d3 = Raise e) <-> denom p1 p2 p3 = 0.
Proof.
  rewrite trilateration_unfold.
  destruct (Req_dec_T (denom p1 p2 p3) 0) as [H0 | Hn].
  - split; [intros _; exact H0 | intros _; eexists; reflexivity].
  - split; [intros [e He]; discriminate | intros H0; contradiction].
Qed.

Lemma trilateration_raise_inv p1 d1 p2 d2 p3 d3 e :
  trilateration p1 d1 p2 d2 p3 d3 = Raise e -> e = DegenerateGeometryError.
Proof.
  rewrite trilateration_unfold.
  destruct (Req_dec_T (denom p1 p2 p3) 0); intros H; inversion H; reflexivity.
Qed.


(** The example of the specification: three anchors on the x axis. *)
Example trilateration_aligned_example (d1 d2 d3 : R) :
  trilateration (0, 0) d1 (1, 0) d2 (2, 0) d3 = Raise DegenerateGeometryError.
Proof.
  rewrite trilateration_unfold.
  destruct (Req_dec_T (denom (0, 0) (1, 0) (2, 0)) 0) as [_ | Hn];
    [reflexivity |].
  exfalso. apply Hn.
  unfold denom, coefA, coefB, coefD, coefE; simpl. ring.
Qed.

(** *** Round trip *)

Lemma norm_sq (v : point) : norm v ^ 2 = fst v ^ 2 + snd v ^ 2.
Proof.
  unfold norm. apply pow2_sqrt. nra.
Qed.


(** When the three squared distances are those of a point [g], the solver
    returns [g]. *)
Lemma trilateration_exact (p1 p2 p3 g : point) (d1 d2 d3 : R) :
  denom p1 p2 p3 <> 0 ->
  d1 ^ 2 = (fst g - fst p1) ^ 2 + (snd g - snd p1) ^ 2 ->
  d2 ^ 2 = (fst g - fst p2) ^ 2 + (snd g - snd p2) ^ 2 ->
  d3 ^ 2 = (fst g - fst p3) ^ 2 + (snd g - snd p3) ^ 2 ->
  trilateration p1 d1 p2 d2 p3 d3 = Ok g.
Proof.
  intros Hn H1 H2 H3.
  rewrite trilateration_unfold.
  destruct (Req_dec_T (denom p1 p2 p3) 0) as [H0 | _]; [contradiction |].
  unfold coefC, coefF. rewrite H1, H2, H3.
  destruct g as [gx gy], p1 as [x1 y1], p2 as [x2 y2], p3 as [x3 y3].
  unfold denom, coefA, coefB, coefD, coefE in *; simpl in *.
  apply f_equal. apply f_equal2; field; assumption.
Qed.

Lemma norm_psub_sq (g p : point) :
  norm (psub g p) ^ 2 = (fst g - fst p) ^ 2 + (snd g - snd p) ^ 2.
Proof. rewrite norm_sq. reflexivity. Qed.

Lemma anchors_default_denom :
  denom (-4.5, 0) (-1.5, -3) (1.5, 0) = 72.
Proof. unfold denom, coefA, coefB, coefD, coefE; simpl. lra. Qed.



(** *** Only the squares of the distances are read *)

Lemma trilateration_sq_ext p1 p2 p3 d1 d2 d3 e1 e2 e3 :
  d1 ^ 2 = e1 ^ 2 -> d2 ^ 2 = e2 ^ 2 -> d3 ^ 2 = e3 ^ 2 ->
  trilateration p1 d1 p2 d2 p3 d3 = trilateration p1 e1 p2 e2 p3 e3.
Proof.
  intros H1 H2 H3. rewrite !trilateration_unfold.
  unfold coefC, coefF. rewrite H1, H2, H3. reflexivity.
Qed.

(** ** [sorted] *)

Section SortedFacts.
Context {X K : Type}.
Variable ltb : K -> K -> bool.
Variable key : X -> K.
Variable before : X -> X -> Prop.

(** [<] on keys is transitive, also through [>=]. *)
Hypothesis ltb_trans :
  forall a b c, ltb a b = true -> ltb b c = true -> ltb a c = true.
Hypothesis ltb_le_trans :
  forall a b c, ltb a b = true -> ltb c b = false -> ltb a c = true.

Lemma insert_right_perm (x : X) (l : list X) :
  Permutation (insert_right ltb key x l) (x :: l).
Proof.
  induction l as [| y l IH]; simpl.
  - apply Permutation_refl.
  - destruct (ltb (key x) (key y)).
    + apply Permutation_refl.
    + eapply perm_trans; [apply perm_skip, IH | apply perm_swap].
Qed.

Lemma sorted_into_perm (l acc : list X) :
  Permutation (sorted_into ltb key acc l) (acc ++ l).
Proof.
  unfold sorted_into. revert acc.
  induction l as [| x l IH]; intros acc; simpl.
  - rewrite app_nil_r. apply Permutation_refl.
  - eapply perm_trans; [apply IH |].
    eapply perm_trans; [apply Permutation_app_tail, insert_right_perm |].
    simpl. apply Permutation_middle.
Qed.

Lemma sorted_perm (l : list X) : Permutation (sorted ltb key l) l.
Proof. apply (sorted_into_perm l []). Qed.

Lemma ordered_through (x y z : X) :
  ltb (key x) (key y) = true -> (key_then_position ltb key before) y z -> ltb (key x) (key z) = true.
Proof.
  intros Hxy [Hyz | [Hzy _]].
  - eapply ltb_trans; eassumption.
  - eapply ltb_le_trans; eassumption.
Qed.

Lemma insert_right_ordered (x : X) (l : list X) :
  StronglySorted (key_then_position ltb key before) l ->
  Forall (fun y => before y x) l ->
  StronglySorted (key_then_position ltb key before) (insert_right ltb key x l).
Proof.
  induction l as [| y l IH]; intros Hs Hb; simpl.
  - constructor; constructor.
  - inversion Hs as [| y' l' Hs' Hy]; subst.
    inversion Hb as [| y' l' Hyx Hb']; subst.
    destruct (ltb (key x) (key y)) eqn:Hxy.
    + constructor; [assumption |].
      constructor; [left; assumption |].
      rewrite Forall_forall in Hy |- *. intros z Hz.
      left. apply (ordered_through x y z Hxy). apply Hy, Hz.
    + constructor; [apply IH; assumption |].
      rewrite Forall_forall in Hy |- *. intros z Hz.
      apply (Permutation_in _ (insert_right_perm x l)) in Hz.
      destruct Hz as [<- | Hz].
      * right. split; assumption.
      * apply Hy, Hz.
Qed.

Lemma sorted_into_ordered (l acc : list X) :
  StronglySorted (key_then_position ltb key before) acc ->
  StronglySorted before l ->
  Forall (fun y => Forall (before y) l) acc ->
  StronglySorted (key_then_position ltb key before) (sorted_into ltb key acc l).
Proof.
  unfold sorted_into. revert acc.
  induction l as [| x l IH]; intros acc Hacc Hl Hb; simpl.
  - assumption.
  - inversion Hl as [| x' l' Hl' Hx]; subst.
    apply IH.
    + apply insert_right_ordered; [assumption |].
      eapply Forall_impl; [| exact Hb].
      intros y Hy. inversion Hy; assumption.
    + assumption.
    + rewrite Forall_forall. intros y Hy.
      apply (Permutation_in _ (insert_right_perm x acc)) in Hy.
      destruct Hy as [<- | Hy].
      * assumption.
      * rewrite Forall_forall in Hb. specialize (Hb y Hy).
        inversion Hb; assumption.
Qed.

(** A list laid out along [before] comes out of [sorted] (key_then_position ltb key before) by key,
    equal keys in input order. *)
Lemma sorted_ordered (l : list X) :
  StronglySorted before l ->
  StronglySorted (key_then_position ltb key before) (sorted ltb key l).
Proof.
  intros Hl. apply sorted_into_ordered.
  - constructor.
  - assumption.
  - constructor.
Qed.

End SortedFacts.

(** *** Prefixes of ordered lists *)

Lemma StronglySorted_app_inv {A : Type} (R : A -> A -> Prop) (l1 l2 : list A) :
  StronglySorted R (l1 ++ l2) ->
  StronglySorted R l1 /\ StronglySorted R l2 /\
  (forall x y, In x l1 -> In y l2 -> R x y).
Proof.
  induction l1 as [| a l1 IH]; simpl; intros Hs.
  - repeat split; [constructor | assumption | intros x y []].
  - inversion Hs as [| a' l' Hs' Ha]; subst.
    destruct (IH Hs') as (H1 & H2 & H12).
    rewrite Forall_forall in Ha.
    repeat split.
    + constructor; [assumption |].
      rewrite Forall_forall. intros z Hz. apply Ha, in_or_app. left; assumption.
    + assumption.
    + intros x y [<- | Hx] Hy.
      * apply Ha, in_or_app. right; assumption.
      * apply H12; assumption.
Qed.

Lemma firstn_ordered {A : Type} (R : A -> A -> Prop) (n : nat) (l : list A) :
  StronglySorted R l ->
  StronglySorted R (firstn n l) /\
  (forall x y, In x (firstn n l) -> In y (skipn n l) -> R x y).
Proof.
  intros Hs. rewrite <- (firstn_skipn n l) in Hs.
  apply StronglySorted_app_inv in Hs. tauto.
Qed.

Lemma NoDup_firstn_skipn {A : Type} (n : nat) (l : list A) (x : A) :
  NoDup l -> In x l -> ~ In x (firstn n l) -> In x (skipn n l).
Proof.
  intros _ Hin Hnot.
  rewrite <- (firstn_skipn n l) in Hin.
  apply in_app_or in Hin. tauto.
Qed.

(** *** Comparisons of reals *)

Lemma Rltb_true (x y : R) : Rltb x y = true <-> x < y.
Proof. unfold Rltb. destruct (Rlt_dec x y); split; intros; (discriminate || lra || reflexivity). Qed.

Lemma Rltb_false (x y : R) : Rltb x y = false <-> y <= x.
Proof. unfold Rltb. destruct (Rlt_dec x y); split; intros; (discriminate || lra || reflexivity). Qed.

Lemma Rleb_true (x y : R) : Rleb x y = true <-> x <= y.
Proof. unfold Rleb. destruct (Rle_dec x y); split; intros; (discriminate || lra || reflexivity). Qed.

Lemma Rleb_false (x y : R) : Rleb x y = false <-> y < x.
Proof. unfold Rleb. destruct (Rle_dec x y); split; intros; (discriminate || lra || reflexivity). Qed.

Lemma Rltb_trans a b c : Rltb a b = true -> Rltb b c = true -> Rltb a c = true.
Proof. rewrite !Rltb_true. lra. Qed.

Lemma Rltb_le_trans a b c : Rltb a b = true -> Rltb c b = false -> Rltb a c = true.
Proof. rewrite !Rltb_true, Rltb_false. lra. Qed.

(** Evaluates comparisons between numerals. *)
Ltac Rcompare :=
  repeat match goal with
    | |- context [Rltb ?a ?b] =>
        first [ replace (Rltb a b) with true by (symmetry; apply Rltb_true; lra)
              | replace (Rltb a b) with false by (symmetry; apply Rltb_false; lra) ]
    | |- context [Rleb ?a ?b] =>
        first [ replace (Rleb a b) with true by (symmetry; apply Rleb_true; lra)
              | replace (Rleb a b) with false by (symmetry; apply Rleb_false; lra) ]
    end.

Lemma key_then_position_closer (d : nat -> R) (i j : nat) :
  key_then_position Rltb d lt i j -> closer d i j.
Proof.
  unfold key_then_position, closer.
  rewrite Rltb_true, Rltb_false.
  intros [H | [H1 H2]]; [left; assumption |].
  destruct (Rle_lt_or_eq_dec _ _ H1) as [Hlt | Heq]; [left | right]; auto.
Qed.

Lemma StronglySorted_impl {A : Type} (R S : A -> A -> Prop) (l : list A) :
  (forall x y, R x y -> S x y) -> StronglySorted R l -> StronglySorted S l.
Proof.
  intros HRS. induction 1 as [| a l Hl IH Ha]; constructor.
  - assumption.
  - eapply Forall_impl; [| exact Ha]. intros; apply HRS; assumption.
Qed.

Lemma StronglySorted_seq (start len : nat) : StronglySorted lt (seq start len).
Proof.
  revert start. induction len as [| len IH]; intros start; simpl.
  - constructor.
  - constructor; [apply IH |].
    rewrite Forall_forall. intros j Hj. apply in_seq in Hj. lia.
Qed.

(** ** Closest three *)

Lemma d_index_full_perm (distances : list R) :
  Permutation (sorted Rltb (fun i => nth i distances 0) (range (length distances)))
              (seq 0 (length distances)).
Proof. apply sorted_perm. Qed.

Lemma d_index_full_sorted (distances : list R) :
  StronglySorted (closer (fun i => nth i distances 0))
    (sorted Rltb (fun i => nth i distances 0) (range (length distances))).
Proof.
  eapply StronglySorted_impl; [apply key_then_position_closer |].
  apply sorted_ordered.
  - apply Rltb_trans.
  - apply Rltb_le_trans.
  - apply StronglySorted_seq.
Qed.

Lemma NoDup_firstn_of {A : Type} (n : nat) (l : list A) :
  NoDup l -> NoDup (firstn n l).
Proof.
  intros H. rewrite <- (firstn_skipn n l) in H.
  apply NoDup_app_remove_r in H. exact H.
Qed.

Lemma In_firstn_of {A : Type} (n : nat) (l : list A) (x : A) :
  In x (firstn n l) -> In x l.
Proof.
  intros H. rewrite <- (firstn_skipn n l). apply in_or_app. left; exact H.
Qed.

(** What [d_index] returns on at least three distances. *)
Lemma d_index_spec (distances : list R) :
  (3 <= length distances)%nat ->
  exists i1 i2 i3 : nat,
    d_index distances = [i1; i2; i3] /\
    NoDup [i1; i2; i3] /\
    (i1 < length distances)%nat /\
    (i2 < length distances)%nat /\
    (i3 < length distances)%nat /\
    StronglySorted (closer (fun i => nth i distances 0)) [i1; i2; i3] /\
    (forall i j : nat,
        In i [i1; i2; i3] -> (j < length distances)%nat -> ~ In j [i1; i2; i3] ->
        closer (fun i => nth i distances 0) i j).
Proof.
  intros Hlen.
  set (d := fun i => nth i distances 0).
  set (full := sorted Rltb d (range (length distances))).
  assert (Hperm : Permutation full (seq 0 (length distances)))
    by apply d_index_full_perm.
  assert (Hsorted : StronglySorted (closer d) full)
    by apply d_index_full_sorted.
  assert (Hnodup : NoDup full).
  { eapply Permutation_NoDup; [apply Permutation_sym, Hperm | apply seq_NoDup]. }
  assert (Hfull_len : length full = length distances).
  { rewrite (Permutation_length Hperm). apply length_seq. }
  assert (Hin : forall i, In i full <-> (i < length distances)%nat).
  { intros i. split; intros H.
    - apply (Permutation_in _ Hperm) in H. apply in_seq in H. lia.
    - apply (Permutation_in _ (Permutation_sym Hperm)). apply in_seq. lia. }
  assert (Hpicked_len : length (firstn 3 full) = 3%nat).
  { rewrite length_firstn. lia. }
  fold d. unfold d_index. fold d. fold full.
  destruct (firstn 3 full) as [| i1 [| i2 [| i3 [| i4 rest]]]] eqn:Hpicked;
    simpl in Hpicked_len; try discriminate.
  exists i1, i2, i3.
  assert (Hsub : forall i, In i [i1; i2; i3] -> In i full).
  { intros i Hi. rewrite <- Hpicked in Hi. eapply In_firstn_of; exact Hi. }
  destruct (firstn_ordered (closer d) 3 full Hsorted) as [Hps Hrest].
  rewrite Hpicked in Hps, Hrest.
  repeat split.
  - rewrite <- Hpicked. apply NoDup_firstn_of. exact Hnodup.
  - apply Hin, Hsub. simpl; auto.
  - apply Hin, Hsub. simpl; auto.
  - apply Hin, Hsub. simpl; auto.
  - exact Hps.
  - intros i j Hi Hj Hnot.
    apply Hrest; [exact Hi |].
    apply NoDup_firstn_skipn; [exact Hnodup | apply Hin; exact Hj |].
    rewrite Hpicked. exact Hnot.
Qed.

Lemma d_index_example : d_index [10; 3; 7; 1; 20] = [3; 1; 2]%nat.
Proof.
  unfold d_index, sorted, sorted_into, range.
  repeat (progress (simpl; Rcompare)). reflexivity.
Qed.

Lemma getitem_nth {A : Type} (l : list A) (i : nat) (default : A) :
  (i < length l)%nat -> getitem l i = Ok (nth i l default).
Proof.
  intros H. unfold getitem.
  rewrite (nth_error_nth' l default H). reflexivity.
Qed.

(** Lines 117 to 123 write no global. *)
Lemma solve_closest_pure {G : Type} (w : world G) :
  snd (solve_closest w) = w.
Proof.
  unfold solve_closest, bind, get, lift.
  repeat match goal with
         | |- context [getitem ?l ?i] => destruct (getitem l i); simpl; try reflexivity
         end.
Qed.

(** C5: on at least three distances (and as many anchors), line 119 of
    [update_position] picks three distinct indices [i1, i2, i3] in ascending
    order of distance, equal distances in index order, every other index
    being no closer than the picked ones; the solver is then called on
    exactly these anchors and distances, and the step leaves the globals
    (anchors and distances among them) as they were.  On the distances
    [10, 3, 7, 1, 20] the indices are [3, 1, 2]: the distances 1, 3, 7. *)
Theorem C5_closest_three :
  (forall (G : Type) (w : world G),
      (3 <= length (distances w))%nat ->
      length (anchors w) = length (distances w) ->
      exists i1 i2 i3 : nat,
        d_index (distances w) = [i1; i2; i3] /\
        NoDup [i1; i2; i3] /\
        (i1 < length (distances w))%nat /\
        (i2 < length (distances w))%nat /\
        (i3 < length (distances w))%nat /\
        StronglySorted (closer (fun i => nth i (distances w) 0)) [i1; i2; i3] /\
        (forall i j : nat,
            In i [i1; i2; i3] -> (j < length (distances w))%nat ->
            ~ In j [i1; i2; i3] ->
            closer (fun i => nth i (distances w) 0) i j) /\
        solve_closest w =
          (trilateration_3anchors
             (nth i1 (anchors w) (0, 0)) (nth i1 (distances w) 0)
             (nth i2 (anchors w) (0, 0)) (nth i2 (distances w) 0)
             (nth i3 (anchors w) (0, 0)) (nth i3 (distances w) 0), w)) /\
  d_index [10; 3; 7; 1; 20] = [3; 1; 2]%nat.
Proof.
  split; [| exact d_index_example].
  intros G w Hlen Heq.
  destruct (d_index_spec (distances w) Hlen)
    as (i1 & i2 & i3 & Hd & Hnd & H1 & H2 & H3 & Hs & Hmin).
  exists i1, i2, i3.
  repeat (split; [assumption |]).
  unfold solve_closest, bind, get, lift. rewrite Hd.
  cbn [getitem nth_error].
  rewrite (getitem_nth (anchors w) i1 (0, 0)) by lia.
  rewrite (getitem_nth (distances w) i1 0) by lia.
  rewrite (getitem_nth (anchors w) i2 (0, 0)) by lia.
  rewrite (getitem_nth (distances w) i2 0) by lia.
  rewrite (getitem_nth (anchors w) i3 (0, 0)) by lia.
  rewrite (getitem_nth (distances w) i3 0) by lia.
  reflexivity.
Qed.

(** C5 on the distances the script starts with. *)
Lemma C5_closest_three_witness :
  exists i1 i2 i3 : nat,
    d_index [7; 5; 8] = [i1; i2; i3] /\ NoDup [i1; i2; i3].
Proof.
  destruct (proj1 C5_closest_three nat (initial_world 0%nat))
    as (i1 & i2 & i3 & Hd & Hnd & _).
  - simpl. lia.
  - reflexivity.
  - exists i1, i2, i3. split; [exact Hd | exact Hnd].
Defined.

(** ** Range-gated selection *)

Lemma key_then_position_nearer (x y : nat * R) :
  key_then_position Rltb snd index_before x y -> nearer x y.
Proof.
  unfold key_then_position, nearer, index_before.
  rewrite Rltb_true, Rltb_false.
  intros [H | [H1 H2]]; [left; assumption |].
  destruct (Rle_lt_or_eq_dec _ _ H1) as [Hlt | Heq]; [left | right]; auto.
Qed.

Lemma enumerate_from_In {A : Type} (l : list A) (start i : nat) (a : A) :
  In (i, a) (enumerate_from start l) <->
  (start <= i)%nat /\ nth_error l (i - start) = Some a.
Proof.
  revert start. induction l as [| b l IH]; intros start; simpl.
  - split; [intros [] | intros [_ H]]. destruct (i - start)%nat; discriminate.
  - rewrite IH. split.
    + intros [H | [Hle Hn]].
      * inversion H; subst. rewrite Nat.sub_diag. split; [lia | reflexivity].
      * split; [lia |].
        replace (i - start)%nat with (S (i - S start)) by lia. exact Hn.
    + intros [Hle Hn].
      destruct (Nat.eq_dec start i) as [-> | Hne].
      * rewrite Nat.sub_diag in Hn. simpl in Hn. inversion Hn. left; reflexivity.
      * right. split; [lia |].
        replace (i - start)%nat with (S (i - S start)) in Hn by lia. exact Hn.
Qed.

Lemma enumerate_In {A : Type} (l : list A) (i : nat) (a : A) :
  In (i, a) (enumerate l) <-> nth_error l i = Some a.
Proof.
  unfold enumerate. rewrite enumerate_from_In, Nat.sub_0_r.
  split; [tauto | split; [lia | assumption]].
Qed.

Lemma enumerate_from_sorted (l : list R) (start : nat) :
  StronglySorted index_before (enumerate_from start l).
Proof.
  revert start. induction l as [| b l IH]; intros start; simpl.
  - constructor.
  - constructor; [apply IH |].
    rewrite Forall_forall. intros [i a] Hin.
    apply enumerate_from_In in Hin. unfold index_before; simpl. lia.
Qed.

Lemma StronglySorted_filter {A : Type} (R : A -> A -> Prop) (f : A -> bool)
      (l : list A) :
  StronglySorted R l -> StronglySorted R (filter f l).
Proof.
  induction 1 as [| a l Hl IH Ha]; simpl.
  - constructor.
  - destruct (f a); [| assumption].
    constructor; [assumption |].
    rewrite Forall_forall in Ha |- *. intros x Hx.
    apply filter_In in Hx. apply Ha, Hx.
Qed.

Lemma StronglySorted_index_NoDup (l : list (nat * R)) :
  StronglySorted index_before l -> NoDup (map fst l).
Proof.
  induction 1 as [| a l Hl IH Ha]; simpl; constructor.
  - intros Hin. apply in_map_iff in Hin. destruct Hin as (x & Hx & Hin).
    rewrite Forall_forall in Ha. specialize (Ha x Hin).
    unfold index_before in Ha. lia.
  - assumption.
Qed.

Lemma within_In (r : R) (distances : list R) (i : nat) (d : R) :
  In (i, d) (within r distances) <-> nth_error distances i = Some d /\ d <= r.
Proof.
  unfold within. rewrite filter_In, enumerate_In. simpl.
  rewrite Rleb_true. tauto.
Qed.

Lemma within_sorted (r : R) (distances : list R) :
  StronglySorted index_before (within r distances).
Proof.
  unfold within, enumerate. apply StronglySorted_filter, enumerate_from_sorted.
Qed.

Lemma NoDup_map_fst {A B : Type} (l : list (A * B)) :
  NoDup (map fst l) -> NoDup l.
Proof.
  induction l as [| a l IH]; simpl; intros H.
  - constructor.
  - inversion H as [| a' l' Hn Hl]; subst.
    constructor; [| apply IH; assumption].
    intros Hin. apply Hn. apply in_map. exact Hin.
Qed.

(** C7: for every range and list of distances, [select_in_range] returns the
    [min 3 k] closest of the [k] pairs with distance at most the range: a
    sub-list of the qualifying pairs (one per qualifying index), without
    repetition, in ascending order of distance (equal distances in index
    order), every qualifying pair left out being no closer than the selected
    ones; [count] is that number, one of 0, 1, 2, 3; and three pairs (a triple
    a solver could take) come out exactly when at least three qualify. *)
Theorem C7_range_gated_selection :
  forall (r : R) (distances : list R),
  exists sel : selection,
    select_in_range r distances = Ok sel /\
    (forall i d, In (i, d) (within r distances)
                 <-> nth_error distances i = Some d /\ d <= r) /\
    NoDup (map fst (within r distances)) /\
    count sel = Nat.min 3 (length (within r distances)) /\
    length (closest_valid sel) = count sel /\
    (count sel <= 3)%nat /\
    incl (closest_valid sel) (within r distances) /\
    NoDup (closest_valid sel) /\
    StronglySorted nearer (closest_valid sel) /\
    (forall x y, In x (closest_valid sel) -> In y (within r distances) ->
                 ~ In y (closest_valid sel) -> nearer x y) /\
    (length (closest_valid sel) = 3%nat
       <-> (3 <= length (within r distances))%nat).
Proof.
  intros r distances.
  set (q := within r distances).
  set (full := sorted Rltb snd q).
  assert (Hperm : Permutation full q) by apply sorted_perm.
  assert (Hq_idx : NoDup (map fst q))
    by apply StronglySorted_index_NoDup, within_sorted.
  assert (Hq_nodup : NoDup q) by apply NoDup_map_fst, Hq_idx.
  assert (Hnodup : NoDup full).
  { eapply Permutation_NoDup; [apply Permutation_sym, Hperm | exact Hq_nodup]. }
  assert (Hsorted : StronglySorted nearer full).
  { eapply StronglySorted_impl; [apply key_then_position_nearer |].
    apply sorted_ordered.
    - apply Rltb_trans.
    - apply Rltb_le_trans.
    - apply within_sorted. }
  assert (Hlen : length (firstn 3 full) = Nat.min 3 (length q)).
  { rewrite length_firstn, (Permutation_length Hperm). reflexivity. }
  destruct (firstn_ordered nearer 3 full Hsorted) as [Hps Hrest].
  eexists. split; [reflexivity |]. cbn [closest_valid count circle_color].
  fold q. fold full.
  split; [intros i d; apply within_In |].
  split; [exact Hq_idx |].
  split; [exact Hlen |].
  split; [reflexivity |].
  split; [rewrite Hlen; lia |].
  split.
  { intros x Hx. apply (Permutation_in _ Hperm). eapply In_firstn_of; exact Hx. }
  split; [apply NoDup_firstn_of; exact Hnodup |].
  split; [exact Hps |].
  split.
  { intros x y Hx Hy Hnot. apply Hrest; [exact Hx |].
    apply NoDup_firstn_skipn; [exact Hnodup | | exact Hnot].
    apply (Permutation_in _ (Permutation_sym Hperm)). exact Hy. }
  rewrite Hlen. lia.
Qed.

(** Six anchors, four of them within 10: the three closest, nearest first,
    the tie between the two at distance 3 in index order. *)
Example select_in_range_example :
  select_in_range 10 [12; 3; 9; 1; 10.5; 3]
  = Ok {| closest_valid := [(3%nat, 1); (1%nat, 3); (5%nat, 3)];
          count := 3;
          circle_color := Some "green"%string |}.
Proof.
  unfold select_in_range, within, enumerate, sorted, sorted_into.
  repeat (progress (simpl; Rcompare)). reflexivity.
Qed.

(** When fewer than three elements are sorted, the first three are all. *)
Lemma firstn_short {A : Type} (l : list A) :
  (length l < 3)%nat -> firstn 3 l = l.
Proof. intros H. apply firstn_all2. lia. Qed.

(** C6 fails on the code: on the distances [12, 15, 20] with range 10,
    [select_in_range] returns (an empty selection, count 0, no colour); it
    raises nothing, in particular no InsufficientAnchorsError; and so does
    [update_circles] on anchors at these distances from the star. *)
Lemma C6_counterexample :
  select_in_range 10 [12; 15; 20]
  = Ok {| closest_valid := []; count := 0; circle_color := None |} /\
  ~ (exists msg : string,
        select_in_range 10 [12; 15; 20] = Raise (InsufficientAnchorsError msg)) /\
  update_circles [(12, 0); (0, 15); (-20, 0)] (0, 0)
  = Ok {| closest_valid := []; count := 0; circle_color := None |}.
Proof.
  assert (H : select_in_range 10 [12; 15; 20]
              = Ok {| closest_valid := []; count := 0; circle_color := None |}).
  { unfold select_in_range, within, enumerate. simpl. Rcompare. reflexivity. }
  split; [exact H |]. split.
  - intros [msg Hr]. rewrite H in Hr. discriminate.
  - unfold update_circles, distances_to, norm, psub. simpl.
    replace (sqrt ((12 - 0) * ((12 - 0) * 1) + (0 - 0) * ((0 - 0) * 1)))
      with 12 by (symmetry; apply sqrt_lem_1; lra).
    replace (sqrt ((0 - 0) * ((0 - 0) * 1) + (15 - 0) * ((15 - 0) * 1)))
      with 15 by (symmetry; apply sqrt_lem_1; lra).
    replace (sqrt ((-20 - 0) * ((-20 - 0) * 1) + (0 - 0) * ((0 - 0) * 1)))
      with 20 by (symmetry; apply sqrt_lem_1; lra).
    exact H.
Qed.

(** C6 as amended: when fewer than three anchors are within range, the
    selection raises nothing; it returns all the qualifying pairs (ordered by
    distance), their number as [count] (0, 1 or 2), and the colour of that
    tier: yellow for two, red for one, none for zero. *)
Theorem C6_insufficient_anchors_reported :
  forall (r : R) (distances : list R),
    (length (within r distances) < 3)%nat ->
    exists sel : selection,
      select_in_range r distances = Ok sel /\
      count sel = length (within r distances) /\
      Permutation (closest_valid sel) (within r distances) /\
      StronglySorted nearer (closest_valid sel) /\
      circle_color sel =
        match length (within r distances) with
        | 2%nat => Some "yellow"%string
        | 1%nat => Some "red"%string
        | _ => None
        end.
Proof.
  intros r distances Hk.
  set (q := within r distances) in *.
  assert (Hperm : Permutation (sorted Rltb snd q) q) by apply sorted_perm.
  assert (Hfull : firstn 3 (sorted Rltb snd q) = sorted Rltb snd q).
  { apply firstn_short. rewrite (Permutation_length Hperm). exact Hk. }
  eexists. split; [reflexivity |]. cbn [closest_valid count circle_color].
  fold q. rewrite Hfull.
  split; [apply (Permutation_length Hperm) |].
  split; [exact Hperm |].
  split.
  - eapply StronglySorted_impl; [apply key_then_position_nearer |].
    apply sorted_ordered.
    + apply Rltb_trans.
    + apply Rltb_le_trans.
    + apply within_sorted.
  - rewrite (Permutation_length Hperm).
    destruct (length q) as [| [| [| n]]]; try reflexivity. lia.
Qed.

(** C6 at the distances [12, 15, 20] and range 10: nothing qualifies. *)
Lemma C6_insufficient_anchors_witness :
  exists sel : selection,
    select_in_range 10 [12; 15; 20] = Ok sel /\ count sel = 0%nat.
Proof.
  assert (Hq : within 10 [12; 15; 20] = []).
  { unfold within, enumerate. simpl. Rcompare. reflexivity. }
  destruct (C6_insufficient_anchors_reported 10 [12; 15; 20])
    as (sel & Hsel & Hcount & _).
  - rewrite Hq. simpl. lia.
  - exists sel. split; [exact Hsel |]. rewrite Hcount, Hq. reflexivity.
Defined.

(** ** The [random] module and the noise block *)

Lemma length_list_set {A : Type} (l : list A) (i : nat) (v : A) :
  length (list_set l i v) = length l.
Proof.
  revert i. induction l as [| a l IH]; intros [| i]; simpl; auto.
Qed.

Lemma counter_source_laws : RandomSourceLaws nat.
Proof.
  split.
  - intros g. simpl. lra.
  - intros n g Hn. simpl. apply Nat.mod_upper_bound. lia.
Qed.

Lemma bind_run {S A B : Type} (m : SE S A) (k : A -> SE S B) (s : S) :
  bind m k s =
  match m s with
  | (Ok a, s') => k a s'
  | (Raise e, s') => (Raise e, s')
  end.
Proof. reflexivity. Qed.

Section RandomFacts.
Context {G : Type} {RS : RandomSource G} {RL : RandomSourceLaws G}.

Lemma uniform_run (lo hi : R) (g : G) :
  uniform lo hi g = (Ok (lo + (hi - lo) * fst (random g)), snd (random g)).
Proof.
  unfold uniform, bind, random_m, ret. destruct (random g); reflexivity.
Qed.

Lemma uniform_range (lo hi : R) (g : G) :
  lo <= hi -> lo <= lo + (hi - lo) * fst (random g) <= hi.
Proof.
  intros Hle. pose proof (random_range g) as Hu. nra.
Qed.

Lemma choice3_run (g : G) :
  exists (i : nat) (g' : G),
    choice [0; 1; 2]%nat g = (Ok i, g') /\ (i < 3)%nat.
Proof.
  unfold choice, bind, randbelow_m, lift. simpl length.
  pose proof (randbelow_range 3 g ltac:(lia)) as Hj.
  destruct (randbelow 3 g) as [j g']; simpl in Hj.
  exists j, g'.
  destruct j as [| [| [| j]]]; try lia; simpl; split; auto.
Qed.

Lemma sample3_run (g : G) :
  exists (i j : nat) (g' : G),
    sample [0; 1; 2]%nat 2 g = (Ok [i; j], g') /\
    (i < 3)%nat /\ (j < 3)%nat /\ i <> j.
Proof.
  unfold sample. cbn [Nat.leb length sample_loop Nat.sub].
  unfold bind, randbelow_m, lift, ret.
  pose proof (randbelow_range 3 g ltac:(lia)) as Hj1.
  destruct (randbelow 3 g) as [j1 g1]; simpl in Hj1.
  pose proof (randbelow_range 2 g1 ltac:(lia)) as Hj2.
  destruct j1 as [| [| [| j1]]]; try lia; simpl;
    destruct (randbelow 2 g1) as [j2 g2]; simpl in Hj2;
    destruct j2 as [| [| j2]]; try lia; simpl;
    do 3 eexists; (split; [reflexivity | repeat split; lia]).
Qed.

Lemma add_noise_at_run (lo hi : R) (noisy : list R) (i : nat) (g : G) :
  (i < length noisy)%nat ->
  add_noise_at lo hi noisy i g =
  (Ok (list_set noisy i (nth i noisy 0 + (lo + (hi - lo) * fst (random g)))),
   snd (random g)).
Proof.
  intros Hi. unfold add_noise_at, bind, lift.
  rewrite (getitem_nth noisy i 0 Hi), uniform_run.
  unfold setitem. apply Nat.ltb_lt in Hi. rewrite Hi. reflexivity.
Qed.

Lemma add_noise_all_run3 (lo hi d1 d2 d3 : R) (g : G) :
  exists (u1 u2 u3 : R) (g' : G),
    add_noise_all lo hi [d1; d2; d3] g = (Ok [d1 + u1; d2 + u2; d3 + u3], g') /\
    (lo <= hi -> lo <= u1 <= hi /\ lo <= u2 <= hi /\ lo <= u3 <= hi).
Proof.
  unfold add_noise_all, bind, ret. rewrite uniform_run.
  rewrite uniform_run. rewrite uniform_run.
  do 4 eexists. split; [reflexivity |].
  intros Hle. repeat split; apply uniform_range; assumption.
Qed.

(** On three distances the noise block returns three distances, whatever
    the case, the bounds and the state of the generator. *)
Lemma inject_noise_ok (lo hi : R) (case : Z) (ds : list R) (g : G) :
  length ds = 3%nat ->
  exists (noisy : list R) (g' : G),
    inject_noise lo hi case ds g = (Ok noisy, g') /\ length noisy = 3%nat.
Proof.
  intros Hlen. unfold inject_noise. cbv zeta.
  destruct (case =? 1)%Z; [| destruct (case =? 2)%Z; [| destruct (case =? 3)%Z]].
  - destruct (choice3_run g) as (i & g1 & Hc & Hi).
    rewrite bind_run, Hc.
    rewrite add_noise_at_run by lia.
    do 2 eexists. split; [reflexivity |]. rewrite length_list_set. exact Hlen.
  - destruct (sample3_run g) as (i & j & g1 & Hs & Hi & Hj & _).
    rewrite bind_run, Hs.
    unfold add_noise_each, bind, ret.
    rewrite add_noise_at_run by lia.
    rewrite add_noise_at_run by (rewrite length_list_set; lia).
    do 2 eexists. split; [reflexivity |]. rewrite !length_list_set. exact Hlen.
  - destruct ds as [| d1 [| d2 [| d3 [| d4 ds]]]]; try discriminate.
    destruct (add_noise_all_run3 lo hi d1 d2 d3 g) as (u1 & u2 & u3 & g' & Hr & _).
    rewrite Hr. do 2 eexists. split; reflexivity.
  - unfold ret. do 2 eexists. split; [reflexivity | exact Hlen].
Qed.

Lemma perturbed_one (lo hi d1 d2 d3 u : R) (i : nat) :
  (i < 3)%nat -> lo <= u <= hi ->
  perturbed_at lo hi [d1; d2; d3]
    (list_set [d1; d2; d3] i (nth i [d1; d2; d3] 0 + u)) [i].
Proof.
  intros Hi Hu. split; [apply length_list_set |].
  intros k.
  destruct i as [| [| [| i]]]; try lia;
    destruct k as [| [| [| k]]]; simpl;
    (split; [intros [Hk | []]; try discriminate; lra
            | intros Hk; try reflexivity; exfalso; apply Hk; auto]).
Qed.

Lemma perturbed_two (lo hi d1 d2 d3 u v : R) (i j : nat) :
  (i < 3)%nat -> (j < 3)%nat -> i <> j -> lo <= u <= hi -> lo <= v <= hi ->
  perturbed_at lo hi [d1; d2; d3]
    (list_set (list_set [d1; d2; d3] i (nth i [d1; d2; d3] 0 + u)) j
       (nth j (list_set [d1; d2; d3] i (nth i [d1; d2; d3] 0 + u)) 0 + v))
    [i; j].
Proof.
  intros Hi Hj Hij Hu Hv. split; [rewrite !length_list_set; reflexivity |].
  intros k.
  destruct i as [| [| [| i]]]; try lia;
    destruct j as [| [| [| j]]]; try lia;
    destruct k as [| [| [| k]]]; simpl;
    (split; [intros [Hk | [Hk | []]]; try discriminate; lra
            | intros Hk; try reflexivity; exfalso; apply Hk; auto]).
Qed.

Lemma perturbed_all (lo hi d1 d2 d3 u1 u2 u3 : R) :
  lo <= u1 <= hi -> lo <= u2 <= hi -> lo <= u3 <= hi ->
  perturbed_at lo hi [d1; d2; d3] [d1 + u1; d2 + u2; d3 + u3] [0; 1; 2]%nat.
Proof.
  intros H1 H2 H3. split; [reflexivity |].
  intros k.
  destruct k as [| [| [| k]]]; simpl;
    (split; [intros Hin;
             first [lra | destruct Hin as [Hk | [Hk | [Hk | []]]]; discriminate]
            | intros Hk; first [reflexivity | exfalso; apply Hk; auto]]).
Qed.

(** [random.choice([0, 1, 2])] is the index that [_randbelow(3)] draws. *)
Lemma choice3_draw (g : G) :
  choice [0; 1; 2]%nat g = (Ok (fst (randbelow 3 g)), snd (randbelow 3 g)) /\
  (fst (randbelow 3 g) < 3)%nat.
Proof.
  unfold choice, bind, randbelow_m, lift. simpl length.
  pose proof (randbelow_range 3 g ltac:(lia)) as Hj.
  destruct (randbelow 3 g) as [j g']; simpl in Hj |- *.
  destruct j as [| [| [| j]]]; try lia; split; auto.
Qed.

(** [random.sample([0, 1, 2], 2)]: the first index is the draw [i] of
    [_randbelow(3)]; the pool then holds 2 at position [i], so the second
    index is the draw of [_randbelow(2)], or 2 when that draw is [i]. *)
Lemma sample3_draw (g : G) :
  sample [0; 1; 2]%nat 2 g
  = (Ok [fst (randbelow 3 g);
         if (fst (randbelow 2 (snd (randbelow 3 g))) =? fst (randbelow 3 g))%nat
         then 2%nat else fst (randbelow 2 (snd (randbelow 3 g)))],
     snd (randbelow 2 (snd (randbelow 3 g)))) /\
  (fst (randbelow 3 g) < 3)%nat /\
  ((if (fst (randbelow 2 (snd (randbelow 3 g))) =? fst (randbelow 3 g))%nat
    then 2%nat else fst (randbelow 2 (snd (randbelow 3 g)))) < 3)%nat /\
  fst (randbelow 3 g)
  <> (if (fst (randbelow 2 (snd (randbelow 3 g))) =? fst (randbelow 3 g))%nat
      then 2%nat else fst (randbelow 2 (snd (randbelow 3 g)))).
Proof.
  unfold sample. cbn [Nat.leb length sample_loop Nat.sub].
  unfold bind, randbelow_m, lift, ret.
  pose proof (randbelow_range 3 g ltac:(lia)) as Hj1.
  destruct (randbelow 3 g) as [j1 g1]; cbn [fst snd] in Hj1 |- *.
  pose proof (randbelow_range 2 g1 ltac:(lia)) as Hj2.
  destruct (randbelow 2 g1) as [j2 g2]; cbn [fst snd] in Hj2 |- *.
  destruct j1 as [| [| [| j1]]]; try lia;
    destruct j2 as [| [| j2]]; try lia; simpl;
    (split; [reflexivity | repeat split; lia]).
Qed.

Lemma inject_noise_case1 (lo hi : R) (ds : list R) :
  inject_noise lo hi 1 ds
  = (i <- choice [0; 1; 2]%nat ;; add_noise_at lo hi ds i).
Proof. reflexivity. Qed.

Lemma inject_noise_case2 (lo hi : R) (ds : list R) :
  inject_noise lo hi 2 ds
  = (indices <- sample [0; 1; 2]%nat 2 ;; add_noise_each lo hi ds indices).
Proof. reflexivity. Qed.

Lemma inject_noise_case3 (lo hi : R) (ds : list R) :
  inject_noise lo hi 3 ds = add_noise_all lo hi ds.
Proof. reflexivity. Qed.

End RandomFacts.

(** C8: for a generator within its documented ranges, three true distances
    and a magnitude that is not negative, the noise block returns the input
    with the generator's samples added at the generator's indices, and leaves
    the generator after its last draw.  In case 1 the index [i] is the draw
    of [random.choice] and only entry [i] is replaced, by itself plus the
    next sample; in case 2 the two different indices [i], [j] are those of
    [random.sample] and entries [i] and [j] are replaced by themselves plus
    the next two samples; in case 3 each of the three entries has the next
    sample added.  A sample is [lo + (hi - lo) * random()], between [lo] and
    [hi], with [lo = 0] in the one-sided variant ([uniform(0, magnitude)]),
    [lo = - magnitude] in the symmetric one ([uniform(-magnitude,
    magnitude)]) and [hi = magnitude]; every entry at another index is the
    input entry. *)
Theorem C8_noise_injection :
  forall (G : Type) (RS : RandomSource G),
    RandomSourceLaws G ->
    forall (magnitude : R) (symmetric : bool) (d1 d2 d3 : R) (g : G),
      0 <= magnitude ->
      let lo := if symmetric then - magnitude else 0 in
      let hi := magnitude in
      let ds := [d1; d2; d3] in
      let sample_at := fun g' : G => lo + (hi - lo) * fst (random g') in
      (let i := fst (randbelow 3 g) in
       let g1 := snd (randbelow 3 g) in
       let noisy := list_set ds i (nth i ds 0 + sample_at g1) in
       inject_noise lo hi 1 ds g = (Ok noisy, snd (random g1)) /\
       (i < 3)%nat /\
       lo <= sample_at g1 <= hi /\
       perturbed_at lo hi ds noisy [i]) /\
      (let i := fst (randbelow 3 g) in
       let g1 := snd (randbelow 3 g) in
       let j := if (fst (randbelow 2 g1) =? i)%nat
                then 2%nat else fst (randbelow 2 g1) in
       let g2 := snd (randbelow 2 g1) in
       let g3 := snd (random g2) in
       let noisy := list_set (list_set ds i (nth i ds 0 + sample_at g2))
                             j (nth j ds 0 + sample_at g3) in
       inject_noise lo hi 2 ds g = (Ok noisy, snd (random g3)) /\
       (i < 3)%nat /\ (j < 3)%nat /\ i <> j /\
       lo <= sample_at g2 <= hi /\
       lo <= sample_at g3 <= hi /\
       perturbed_at lo hi ds noisy [i; j]) /\
      (let g1 := snd (random g) in
       let g2 := snd (random g1) in
       let noisy := [d1 + sample_at g; d2 + sample_at g1; d3 + sample_at g2] in
       inject_noise lo hi 3 ds g = (Ok noisy, snd (random g2)) /\
       lo <= sample_at g <= hi /\
       lo <= sample_at g1 <= hi /\
       lo <= sample_at g2 <= hi /\
       perturbed_at lo hi ds noisy [0; 1; 2]%nat).
Proof.
  intros G RS RL magnitude symmetric d1 d2 d3 g Hm lo hi ds sample_at.
  assert (Hle : lo <= hi) by (unfold lo, hi; destruct symmetric; lra).
  assert (Hs : forall g' : G, lo <= sample_at g' <= hi)
    by (intros g'; apply uniform_range; exact Hle).
  clearbody lo hi. subst ds sample_at.
  rewrite inject_noise_case1, inject_noise_case2, inject_noise_case3.
  split; [| split].
  - destruct (choice3_draw g) as [Hc Hi].
    cbv zeta. rewrite bind_run, Hc.
    rewrite add_noise_at_run by (simpl; lia).
    split; [reflexivity |]. split; [exact Hi |]. split; [apply Hs |].
    apply perturbed_one; [exact Hi | apply Hs].
  - destruct (sample3_draw g) as (Hd & Hi & Hj & Hij).
    cbv zeta. rewrite bind_run, Hd.
    unfold add_noise_each, bind, ret.
    rewrite add_noise_at_run by (simpl; lia).
    rewrite add_noise_at_run by (rewrite length_list_set; simpl; lia).
    set (i := fst (randbelow 3 g)) in *.
    set (g1 := snd (randbelow 3 g)) in *.
    set (j := if (fst (randbelow 2 g1) =? i)%nat
              then 2%nat else fst (randbelow 2 g1)) in *.
    set (g2 := snd (randbelow 2 g1)).
    assert (Hnth : nth j (list_set [d1; d2; d3] i
                            (nth i [d1; d2; d3] 0
                             + (lo + (hi - lo) * fst (random g2)))) 0
                   = nth j [d1; d2; d3] 0).
    { clearbody i j.
      destruct i as [| [| [| i]]]; try lia;
        destruct j as [| [| [| j]]]; try lia; try reflexivity;
        exfalso; apply Hij; reflexivity. }
    rewrite Hnth.
    split; [reflexivity |].
    repeat (split; [first [assumption | apply Hs] |]).
    rewrite <- Hnth.
    apply perturbed_two; try assumption; apply Hs.
  - cbv zeta. unfold add_noise_all, bind, ret. rewrite !uniform_run.
    split; [reflexivity |].
    repeat (split; [apply Hs |]).
    apply perturbed_all; apply Hs.
Qed.

(** C8 on the counting generator, one-sided, magnitude 5, case 1: the index
    drawn is 0, the sample is 5/2, and the first distance becomes 7/2. *)
Lemma C8_noise_injection_witness :
  inject_noise 0 5 1 [1; 2; 3] 0%nat
  = (Ok (list_set [1; 2; 3] 0 (1 + (0 + (5 - 0) * / 2))), 2%nat).
Proof.
  apply (C8_noise_injection nat counter_source counter_source_laws
                            5 false 1 2 3 0%nat).
  lra.
Defined.

(** ** The Monte-Carlo harness *)

Lemma trial_error_spec (anchors : list point) (true_pos : point) (noisy : list R) :
  length anchors = 3%nat -> length noisy = 3%nat ->
  trial_error anchors true_pos noisy =
  match trilateration (nth 0 anchors (0, 0)) (nth 0 noisy 0)
                      (nth 1 anchors (0, 0)) (nth 1 noisy 0)
                      (nth 2 anchors (0, 0)) (nth 2 noisy 0) with
  | Ok pos => Ok (norm (psub pos true_pos))
  | Raise e => Raise e
  end.
Proof.
  intros Ha Hn.
  destruct anchors as [| a0 [| a1 [| a2 [| a3 anchors]]]]; try discriminate.
  destruct noisy as [| n0 [| n1 [| n2 [| n3 noisy]]]]; try discriminate.
  reflexivity.
Qed.

Lemma trial_error_outcome (anchors : list point) (true_pos : point) (noisy : list R) :
  length anchors = 3%nat -> length noisy = 3%nat ->
  trial_outcome anchors true_pos (trial_error anchors true_pos noisy).
Proof.
  intros Ha Hn. rewrite (trial_error_spec _ _ _ Ha Hn).
  destruct (trilateration _ _ _ _ _ _) as [pos | e] eqn:Ht.
  - right. exists noisy, pos. repeat split; assumption.
  - left. apply trilateration_raise_inv in Ht. rewrite Ht. reflexivity.
Qed.

Lemma mean_or_nan_level (log : list (result R)) :
  mean_or_nan (successes log) = level_mean log.
Proof.
  unfold level_mean, mean_or_nan, np_mean.
  destruct (successes log); reflexivity.
Qed.


Section HarnessFacts.
Context {G : Type} {RS : RandomSource G}.
Variables (anchors : list point) (true_pos : point).

(** The trial loop returns what it had collected followed by the successes
    of the log, and stops in the generator state where the log stops. *)
Lemma trial_loop_log (lo hi : R) (case : Z) (n : nat) :
  forall (errors : list R) (g : G),
    trial_loop anchors true_pos lo hi case n errors g =
    match trial_log anchors true_pos lo hi case n g with
    | (Ok log, g') => (Ok (errors ++ successes log), g')
    | (Raise e, g') => (Raise e, g')
    end.
Proof.
  induction n as [| n IH]; intros errors g; simpl.
  - unfold ret. rewrite app_nil_r. reflexivity.
  - rewrite !bind_run. unfold run_trial. rewrite bind_run.
    destruct (inject_noise lo hi case (true_distances anchors true_pos) g)
      as [[noisy | e] g1]; [| reflexivity].
    unfold ret at 1. rewrite bind_run.
    destruct (trial_error anchors true_pos noisy) as [err | e]; rewrite IH;
      destruct (trial_log anchors true_pos lo hi case n g1) as [[log | e'] g2];
      unfold ret; simpl; try reflexivity.
    rewrite <- app_assoc. reflexivity.
Qed.

(** The loop over the levels returns what it had collected followed by the
    means of the sweep. *)
Lemma level_loop_sweep (case : Z) (trials : Z) (noise_levels : list R) :
  forall (mean_errors : list mean_error) (g : G),
    level_loop anchors true_pos case trials noise_levels mean_errors g =
    match sweep anchors true_pos case (Z.to_nat trials) noise_levels g with
    | (Ok means, g') => (Ok (mean_errors ++ means), g')
    | (Raise e, g') => (Raise e, g')
    end.
Proof.
  induction noise_levels as [| noise rest IH]; intros mean_errors g; simpl.
  - unfold ret. rewrite app_nil_r. reflexivity.
  - rewrite !bind_run, trial_loop_log.
    destruct (trial_log anchors true_pos (- noise) noise case (Z.to_nat trials) g)
      as [[log | e] g1]; [| reflexivity].
    rewrite IH, bind_run.
    destruct (sweep anchors true_pos case (Z.to_nat trials) rest g1)
      as [[means | e] g2]; unfold ret; simpl; [| reflexivity].
    rewrite <- app_assoc. reflexivity.
Qed.

Context {RL : RandomSourceLaws G}.
Hypothesis three_anchors : length anchors = 3%nat.

Lemma true_distances_length : length (true_distances anchors true_pos) = 3%nat.
Proof. unfold true_distances. rewrite length_map. exact three_anchors. Qed.

(** Every trial runs: the log has one outcome per trial. *)
Lemma trial_log_total (lo hi : R) (case : Z) (n : nat) (g : G) :
  exists (log : list (result R)) (g' : G),
    trial_log anchors true_pos lo hi case n g = (Ok log, g') /\
    length log = n /\
    Forall (trial_outcome anchors true_pos) log.
Proof.
  revert g. induction n as [| n IH]; intros g; simpl.
  - exists [], g. repeat split. constructor.
  - destruct (inject_noise_ok lo hi case _ g true_distances_length)
      as (noisy & g1 & Hinj & Hlen).
    destruct (IH g1) as (log & g2 & Hlog & Hn & Hall).
    rewrite bind_run. unfold run_trial. rewrite bind_run, Hinj.
    unfold ret at 1. rewrite bind_run, Hlog. unfold ret.
    do 2 eexists. split; [reflexivity |]. split; [simpl; congruence |].
    constructor; [| exact Hall].
    apply trial_error_outcome; assumption.
Qed.

Lemma sweep_total (case : Z) (n : nat) (noise_levels : list R) (g : G) :
  exists (means : list mean_error) (g' : G),
    sweep anchors true_pos case n noise_levels g = (Ok means, g') /\
    Forall2 (fun noise m =>
               exists (g1 g2 : G) (log : list (result R)),
                 trial_log anchors true_pos (- noise) noise case n g1
                 = (Ok log, g2) /\
                 length log = n /\
                 Forall (trial_outcome anchors true_pos) log /\
                 m = level_mean log)
            noise_levels means.
Proof.
  revert g. induction noise_levels as [| noise rest IH]; intros g; simpl.
  - exists [], g. split; [reflexivity | constructor].
  - destruct (trial_log_total (- noise) noise case n g)
      as (log & g1 & Hlog & Hn & Hall).
    destruct (IH g1) as (means & g2 & Hsw & Hall2).
    rewrite bind_run, Hlog, bind_run, Hsw. unfold ret.
    do 2 eexists. split; [reflexivity |].
    constructor; [| exact Hall2].
    exists g, g1, log. repeat split; try assumption.
    apply mean_or_nan_level.
Qed.

End HarnessFacts.


(** C3: with three anchors and a generator within its documented ranges,
    [simulate_errors] raises nothing and returns one entry per magnitude, in
    the order of the magnitudes: the entry of a magnitude is computed from the
    log of the [trials] trials run at that magnitude, and is the mean
    (sum over count) of the errors of its successful trials, or the NaN
    sentinel when the level has no successful trial. *)
Theorem C3_simulate_errors_sweep :
  forall (G : Type) (RS : RandomSource G),
    RandomSourceLaws G ->
    forall (anchors : list point) (true_pos : point)
           (noise_levels : list R) (case trials : Z) (g : G),
      length anchors = 3%nat ->
      exists (means : list mean_error) (g' : G),
        simulate_errors anchors true_pos noise_levels case trials g
        = (Ok means, g') /\
        sweep anchors true_pos case (Z.to_nat trials) noise_levels g
        = (Ok means, g') /\
        length means = length noise_levels /\
        Forall2 (fun noise m =>
                   exists (g1 g2 : G) (log : list (result R)),
                     trial_log anchors true_pos (- noise) noise case
                               (Z.to_nat trials) g1 = (Ok log, g2) /\
                     length log = Z.to_nat trials /\
                     Forall (trial_outcome anchors true_pos) log /\
                     m = level_mean log)
                noise_levels means.
Proof.
  intros G RS RL anchors true_pos noise_levels case trials g Hlen.
  destruct (sweep_total anchors true_pos Hlen case (Z.to_nat trials) noise_levels g)
    as (means & g' & Hsw & Hall).
  exists means, g'.
  split; [| split; [exact Hsw | split; [| exact Hall]]].
  - unfold simulate_errors. rewrite level_loop_sweep, Hsw. reflexivity.
  - symmetry. eapply Forall2_length. exact Hall.
Qed.


(** C3 on the anchors and the eleven magnitudes of the script, case 3, the
    default of 100 trials per magnitude, the counting generator: eleven
    entries. *)
Lemma C3_simulate_errors_witness :
  exists (means : list mean_error) (g' : nat),
    simulate_errors anchors_default true_pos_default noise_levels_default
                    3 100 0%nat
    = (Ok means, g') /\
    length means = 11%nat.
Proof.
  destruct (C3_simulate_errors_sweep nat counter_source counter_source_laws
              anchors_default true_pos_default noise_levels_default
              3 100 0%nat)
    as (means & g' & Hrun & _ & Hlen & _).
  - reflexivity.
  - exists means, g'. split; [exact Hrun | exact Hlen].
Defined.

(** On aligned anchors every trial fails, so every level of the sweep is the
    NaN sentinel: no level is dropped and none is reported as zero. *)
Lemma trial_outcome_aligned (anchors : list point) (true_pos : point)
      (r : result R) :
  collinear (nth 0 anchors (0, 0)) (nth 1 anchors (0, 0)) (nth 2 anchors (0, 0)) ->
  trial_outcome anchors true_pos r -> r = Raise DegenerateGeometryError.
Proof.
  intros Hc [Hr | (noisy & pos & _ & Ht & _)]; [exact Hr |].
  apply collinear_denom in Hc.
  rewrite trilateration_unfold in Ht.
  destruct (Req_dec_T _ 0); [discriminate | contradiction].
Qed.

Lemma successes_all_failed (log : list (result R)) :
  Forall (fun r => r = Raise DegenerateGeometryError) log -> successes log = [].
Proof.
  induction 1 as [| r log Hr Hlog IH]; simpl; [reflexivity |].
  rewrite Hr. exact IH.
Qed.

Example simulate_errors_aligned_all_nan :
  exists g' : nat,
    simulate_errors [(0, 0); (1, 0); (2, 0)] (0, 2) [0; 1; 2] 1 5 0%nat
    = (Ok [NaN; NaN; NaN], g').
Proof.
  destruct (sweep_total (RL := counter_source_laws)
              [(0, 0); (1, 0); (2, 0)] (0, 2) eq_refl 1 (Z.to_nat 5)
              [0; 1; 2] 0%nat)
    as (means & g' & Hsw & Hall).
  assert (Hlen : length means = 3%nat)
    by (symmetry; apply (Forall2_length Hall)).
  exists g'. unfold simulate_errors. rewrite level_loop_sweep, Hsw.
  cbn [app]. f_equal. f_equal.
  assert (Hnan : Forall (fun m => m = NaN) means).
  { clear Hsw Hlen. induction Hall as [| noise m levels means Hm Hall IH];
      constructor; [| exact IH].
    destruct Hm as (g1 & g2 & log & _ & _ & Hlog & ->).
    unfold level_mean. rewrite successes_all_failed; [reflexivity |].
    eapply Forall_impl; [| exact Hlog].
    intros r Hr. eapply trial_outcome_aligned; [| exact Hr].
    simpl. apply collinear_denom.
    unfold denom, coefA, coefB, coefD, coefE; simpl. ring. }
  destruct means as [| m1 [| m2 [| m3 [| m4 means]]]]; try discriminate.
  inversion Hnan as [| ? ? H1 Hnan1]; subst.
  inversion Hnan1 as [| ? ? H2 Hnan2]; subst.
  inversion Hnan2 as [| ? ? H3 _]; subst.
  reflexivity.
Qed.


(** On aligned anchors [simulate_error] goes through all its trials and
    returns the empty list. *)
Example simulate_error_aligned_empty :
  exists g' : nat,
    simulate_error [(0, 0); (1, 0); (2, 0)] (0, 2) 2 4 0%nat = (Ok [], g').
Proof.
  destruct (trial_log_total (RL := counter_source_laws)
              [(0, 0); (1, 0); (2, 0)] (0, 2) eq_refl 0 5 2 (Z.to_nat 4) 0%nat)
    as (log & g' & Hrun & _ & Hlog).
  exists g'. unfold simulate_error. rewrite trial_loop_log, Hrun.
  cbn [app]. f_equal. f_equal.
  apply successes_all_failed.
  eapply Forall_impl; [| exact Hlog].
  intros r Hr. eapply trial_outcome_aligned; [| exact Hr].
  simpl. apply collinear_denom.
  unfold denom, coefA, coefB, coefD, coefE; simpl. ring.
Qed.

(** ** The anchor manager *)

(** Runs the monadic plumbing of a handler. *)
Ltac se_run :=
  cbv beta iota zeta delta
    [bind lift get put ret try_except draw
     set_anchors set_distances set_distance_entries set_selected_index
     set_star set_result_label];
  cbn [fst snd anchors distances distance_entries selected_index star
       result_label rng].

Section ManagerFacts.
Context {G : Type} {RS : RandomSource G}.

Lemma setitem_length {A : Type} (l l' : list A) (i : nat) (v : A) :
  setitem l i v = Ok l' -> length l' = length l.
Proof.
  unfold setitem. destruct (i <? length l)%nat; intros H; inversion H.
  apply length_list_set.
Qed.

Lemma pop_length {A : Type} (l l' : list A) :
  pop l = Ok l' -> S (length l') = length l.
Proof.
  destruct l as [| a l]; simpl; intros H; inversion H as [H'].
  clear H H'. revert a. induction l as [| b l IH]; intros a.
  - reflexivity.
  - change (removelast (a :: b :: l)) with (a :: removelast (b :: l)).
    simpl length. rewrite (IH b). reflexivity.
Qed.

Lemma read_entries_lens (entries : list (option R)) :
  forall (i : nat) (w : world G),
    anchors (snd (read_entries i entries w)) = anchors w /\
    length (distances (snd (read_entries i entries w))) = length (distances w).
Proof.
  induction entries as [| entry rest IH]; intros i w; simpl.
  - split; reflexivity.
  - se_run.
    destruct (float_of_entry entry) as [v | e]; [| split; reflexivity].
    destruct (setitem (distances w) i v) as [ds | e] eqn:Hset;
      [| split; reflexivity].
    match goal with |- context [read_entries (S i) rest ?w1] =>
      destruct (IH (S i) w1) as [Ha Hd]; rewrite Ha, Hd end.
    cbn [anchors distances]. split; [reflexivity |].
    eapply setitem_length; exact Hset.
Qed.

Lemma locate_lens (w : world G) :
  anchors (snd (locate w)) = anchors w /\
  length (distances (snd (locate w))) = length (distances w).
Proof.
  unfold locate. se_run.
  destruct (read_entries_lens (distance_entries w) 0 w) as [Ha Hd].
  destruct (read_entries 0 (distance_entries w) w) as [[u | e] w1];
    cbn [snd] in Ha, Hd; [| split; assumption].
  pose proof (solve_closest_pure w1) as Hpure.
  destruct (solve_closest w1) as [[pos | e] w2]; cbn [snd] in Hpure; subst w2;
    cbn [anchors distances snd]; split; assumption.
Qed.

Lemma update_position_lens (w : world G) :
  anchors (snd (update_position w)) = anchors w /\
  length (distances (snd (update_position w))) = length (distances w).
Proof.
  unfold update_position. se_run.
  destruct (length (anchors w) <? 3)%nat; [split; reflexivity |].
  destruct (locate_lens w) as [Ha Hd].
  destruct (locate w) as [[u | e] w1]; cbn [snd anchors distances] in *;
    split; assumption.
Qed.

(** [update_position] catches whatever its [try] block raises. *)
Lemma update_position_returns (w : world G) :
  fst (update_position w) = Ok tt.
Proof.
  unfold update_position. se_run.
  destruct (length (anchors w) <? 3)%nat; [reflexivity |].
  destruct (locate w) as [[[] | e] w1]; reflexivity.
Qed.

Lemma redraw_anchors_lens (w : world G) :
  anchors (snd (redraw_anchors w)) = anchors w /\
  distances (snd (redraw_anchors w)) = distances w.
Proof. split; reflexivity. Qed.

Lemma add_anchor_full (w : world G) :
  (10 <= length (anchors w))%nat ->
  anchors (snd (add_anchor w)) = anchors w /\
  distances (snd (add_anchor w)) = distances w.
Proof.
  intros H. unfold add_anchor. se_run.
  apply Nat.leb_le in H. rewrite H. split; reflexivity.
Qed.

Lemma add_anchor_grows (w : world G) :
  (length (anchors w) < 10)%nat ->
  exists x y : R,
    anchors (snd (add_anchor w)) = anchors w ++ [(x, y)] /\
    distances (snd (add_anchor w)) = distances w ++ [5].
Proof.
  intros H. unfold add_anchor. se_run.
  apply Nat.leb_gt in H. rewrite H.
  rewrite uniform_run. cbn [rng]. rewrite uniform_run.
  do 2 eexists. split; reflexivity.
Qed.

Lemma remove_anchor_minimum (w : world G) :
  (length (anchors w) <= 3)%nat ->
  anchors (snd (remove_anchor w)) = anchors w /\
  distances (snd (remove_anchor w)) = distances w.
Proof.
  intros H. unfold remove_anchor. se_run.
  apply Nat.leb_le in H. rewrite H. split; reflexivity.
Qed.

Lemma remove_anchor_shrinks (w : world G) :
  (3 < length (anchors w))%nat ->
  length (anchors w) = length (distances w) ->
  anchors (snd (remove_anchor w)) = removelast (anchors w) /\
  distances (snd (remove_anchor w)) = removelast (distances w).
Proof.
  intros H Heq. unfold remove_anchor. se_run.
  pose proof H as H'. apply Nat.leb_gt in H'. rewrite H'.
  destruct (anchors w) as [| a l] eqn:Ha; [simpl in H; lia |].
  destruct (distances w) as [| d l'] eqn:Hd; [simpl in Heq; lia |].
  unfold pop. split; reflexivity.
Qed.

Lemma on_motion_lens (ev : event) (w : world G) :
  length (anchors (snd (on_motion ev w))) = length (anchors w) /\
  length (distances (snd (on_motion ev w))) = length (distances w).
Proof.
  unfold on_motion. se_run.
  destruct (selected_index w) as [i |]; [| split; reflexivity].
  destruct (negb (inaxes ev)); [split; reflexivity |].
  destruct (getitem (anchors w) i) as [a | e]; [| split; reflexivity].
  destruct (getitem _ i) as [a' | e];
    [| cbn [snd anchors distances]; rewrite length_list_set; split; reflexivity].
  unfold redraw_anchors. se_run.
  match goal with |- context [update_position ?w1] =>
    destruct (update_position_lens w1) as [Ha Hd]; rewrite Ha, Hd end.
  cbn [anchors distances]. rewrite !length_list_set. split; reflexivity.
Qed.

Lemma on_press_lens (ev : event) (w : world G) :
  anchors (snd (on_press ev w)) = anchors w /\
  distances (snd (on_press ev w)) = distances w.
Proof.
  unfold on_press. destruct (negb (inaxes ev)); [split; reflexivity |].
  se_run.
  destruct (first_hit ev 0 (anchors w)); split; reflexivity.
Qed.

(** Every callback keeps the anchor set within its bounds. *)
Lemma after_ok (a : action) (w : world G) :
  anchor_set_ok w -> anchor_set_ok (after a w).
Proof.
  unfold anchor_set_ok, after. intros [Heq Hb].
  destruct a as [| | | i text | ev | ev | ev]; cbn [handler].
  - destruct (le_lt_dec 10 (length (anchors w))) as [Hfull | Hroom].
    + destruct (add_anchor_full w Hfull) as [-> ->]. split; assumption.
    + destruct (add_anchor_grows w Hroom) as (x & y & -> & ->).
      rewrite !length_app. simpl. split; lia.
  - destruct (le_lt_dec (length (anchors w)) 3) as [Hmin | Hmore].
    + destruct (remove_anchor_minimum w Hmin) as [-> ->]. split; assumption.
    + destruct (remove_anchor_shrinks w Hmore Heq) as [-> ->].
      assert (Ha : S (length (removelast (anchors w))) = length (anchors w)).
      { apply pop_length. destruct (anchors w); [simpl in Hmore; lia | reflexivity]. }
      assert (Hd : S (length (removelast (distances w))) = length (distances w)).
      { apply pop_length. destruct (distances w); [simpl in *; lia | reflexivity]. }
      split; lia.
  - destruct (update_position_lens w) as [-> ->]. split; assumption.
  - se_run.
    match goal with |- context [update_position ?w1] =>
      destruct (update_position_lens w1) as [Ha Hd]; rewrite Ha, Hd end.
    cbn [anchors distances]. split; assumption.
  - destruct (on_press_lens ev w) as [-> ->]. split; assumption.
  - unfold on_release. se_run. split; assumption.
  - destruct (on_motion_lens ev w) as [-> ->]. split; assumption.
Qed.

Lemma startup_ok (g : G) : anchor_set_ok (startup g).
Proof.
  unfold anchor_set_ok, startup, redraw_anchors. se_run.
  match goal with |- context [update_position ?w1] =>
    destruct (update_position_lens w1) as [Ha Hd]; rewrite Ha, Hd end.
  simpl. split; [reflexivity | lia].
Qed.

Lemma reachable_ok (g : G) (w : world G) :
  reachable g w -> anchor_set_ok w.
Proof.
  induction 1 as [| a w Hw IH].
  - apply startup_ok.
  - apply after_ok. exact IH.
Qed.

End ManagerFacts.

(** C10: the anchor set starts with three anchors and three distances, and
    in every state the event loop can reach (by any sequence of adding,
    removing, typing, pressing, releasing and dragging) there are as many
    distances as anchors, and between 3 and 10 of them; each of
    [add_anchor], [remove_anchor] and [on_motion] keeps this; [add_anchor]
    on 10 anchors and [remove_anchor] on 3 anchors change neither list;
    otherwise [add_anchor] appends one element to both lists and
    [remove_anchor] removes the last element of both. *)
Theorem C10_anchor_set_invariant :
  forall (G : Type) (RS : RandomSource G) (g : G),
    anchor_set_ok (initial_world g) /\
    (forall w : world G, reachable g w -> anchor_set_ok w) /\
    (forall (w : world G) (ev : event),
        anchor_set_ok w ->
        anchor_set_ok (snd (add_anchor w)) /\
        anchor_set_ok (snd (remove_anchor w)) /\
        anchor_set_ok (snd (on_motion ev w))) /\
    (forall w : world G,
        length (anchors w) = 10%nat ->
        anchors (snd (add_anchor w)) = anchors w /\
        distances (snd (add_anchor w)) = distances w) /\
    (forall w : world G,
        length (anchors w) = 3%nat ->
        anchors (snd (remove_anchor w)) = anchors w /\
        distances (snd (remove_anchor w)) = distances w) /\
    (forall w : world G,
        anchor_set_ok w -> (length (anchors w) < 10)%nat ->
        exists x y : R,
          anchors (snd (add_anchor w)) = anchors w ++ [(x, y)] /\
          distances (snd (add_anchor w)) = distances w ++ [5]) /\
    (forall w : world G,
        anchor_set_ok w -> (3 < length (anchors w))%nat ->
        anchors (snd (remove_anchor w)) = removelast (anchors w) /\
        distances (snd (remove_anchor w)) = removelast (distances w)).
Proof.
  intros G RS g.
  split; [| split; [| split; [| split; [| split; [| split]]]]].
  - unfold anchor_set_ok. simpl. split; [reflexivity | lia].
  - intros w Hw. eapply reachable_ok; exact Hw.
  - intros w ev Hok. split; [| split].
    + apply (after_ok ClickAddAnchor w Hok).
    + apply (after_ok ClickRemoveAnchor w Hok).
    + apply (after_ok (MouseMotion ev) w Hok).
  - intros w H10. apply add_anchor_full. lia.
  - intros w H3. apply remove_anchor_minimum. lia.
  - intros w _ Hroom. apply add_anchor_grows. exact Hroom.
  - intros w [Heq _] Hmore. apply remove_anchor_shrinks; assumption.
Qed.

(** ** No input validation *)

(** C9 fails on the code: with the negative distance -1 the solver returns a
    position, and raises nothing, in particular no InvalidInputError. *)
Lemma C9_counterexample :
  trilateration (0, 0) (-1) (1, 0) 1 (0, 1) 1 = Ok (1 / 2, 1 / 2) /\
  ~ (exists msg : string,
        trilateration (0, 0) (-1) (1, 0) 1 (0, 1) 1
        = Raise (InvalidInputError msg)).
Proof.
  assert (H : trilateration (0, 0) (-1) (1, 0) 1 (0, 1) 1 = Ok (1 / 2, 1 / 2)).
  { rewrite trilateration_unfold.
    destruct (Req_dec_T (denom (0, 0) (1, 0) (0, 1)) 0) as [H0 | _].
    - unfold denom, coefA, coefB, coefD, coefE in H0; simpl in H0. lra.
    - unfold denom, coefA, coefB, coefC, coefD, coefE, coefF; simpl.
      f_equal. f_equal; field. }
  split; [exact H |].
  intros [msg Hr]. rewrite H in Hr. discriminate.
Qed.

(** When there are fewer distances than entries and every entry holds a
    float, the loop over the entries stops at the first index past the
    distances, on the [IndexError] of the assignment. *)
Lemma read_entries_short {G : Type} (entries : list (option R)) :
  forall (i : nat) (w : world G),
    ~ In None entries ->
    (i <= length (distances w))%nat ->
    (length (distances w) < i + length entries)%nat ->
    fst (read_entries i entries w)
    = Raise (IndexError "list assignment index out of range").
Proof.
  induction entries as [| entry rest IH]; intros i w Hall Hi Hlt.
  - simpl in Hlt. lia.
  - destruct entry as [v |]; [| exfalso; apply Hall; left; reflexivity].
    cbn [read_entries float_of_entry]. se_run. unfold setitem.
    destruct (i <? length (distances w))%nat eqn:Hb; [| reflexivity].
    apply Nat.ltb_lt in Hb. se_run. apply IH.
    + intros Hin. apply Hall. right. exact Hin.
    + cbn [distances]. rewrite length_list_set. lia.
    + cbn [distances]. rewrite length_list_set. simpl in Hlt. lia.
Qed.

(** An exception raised inside the [try] block of [update_position] ends up
    in the result label. *)
Lemma update_position_shows {G : Type} (w : world G) (e : exn) :
  (3 <= length (anchors w))%nat ->
  fst (locate w) = Raise e ->
  result_label (snd (update_position w)) = LabelException e.
Proof.
  intros H3 He. unfold update_position. se_run.
  apply Nat.ltb_ge in H3. rewrite H3.
  destruct (locate w) as [[[] | e'] w1]; cbn [fst] in He.
  - discriminate.
  - inversion He; subst e'. reflexivity.
Qed.

Lemma locate_short {G : Type} (w : world G) :
  ~ In None (distance_entries w) ->
  (length (distances w) < length (distance_entries w))%nat ->
  fst (locate w) = Raise (IndexError "list assignment index out of range").
Proof.
  intros Hall Hlt. unfold locate. se_run.
  pose proof (read_entries_short (distance_entries w) 0 w Hall
                                 ltac:(lia) ltac:(simpl; lia)) as Hr.
  destruct (read_entries 0 (distance_entries w) w) as [[[] | e] w1];
    cbn [fst] in Hr; [discriminate |].
  exact Hr.
Qed.

(** Three anchors, two distances, three entries: the mismatch is not
    rejected up front; the third assignment fails and its message is
    shown. *)
Example update_position_mismatch :
  let w := {| anchors := [(0, 0); (1, 0); (0, 1)];
              distances := [1; 1];
              distance_entries := [Some 1; Some 1; Some 1];
              selected_index := None;
              star := None;
              result_label := LabelInitial;
              rng := 0%nat |} in
  fst (update_position w) = Ok tt /\
  result_label (snd (update_position w))
  = LabelException (IndexError "list assignment index out of range").
Proof.
  intros w. split; [apply update_position_returns |].
  apply update_position_shows; [simpl; lia |].
  apply locate_short; [| simpl; lia].
  simpl. intros [H | [H | [H | []]]]; discriminate.
Qed.

(** C9 as amended: nothing is validated.  On three anchors and three
    distances that are floats, the solver ignores the sign of a distance
    (only its square is used), so a negative distance gives the result of
    its absolute value, and it never raises an InvalidInputError.
    [update_position], whatever the lengths of the anchor, distance and
    entry lists, raises nothing; with at least three anchors an exception
    raised inside its [try] block is caught and shown in the result label,
    and so is the [IndexError] of the assignment when there are fewer
    distances than entries. *)
Theorem C9_solver_validates_nothing :
  forall (p1 p2 p3 : point) (d1 d2 d3 : R),
    trilateration p1 d1 p2 d2 p3 d3
    = trilateration p1 (Rabs d1) p2 (Rabs d2) p3 (Rabs d3) /\
    trilateration p1 (- d1) p2 (- d2) p3 (- d3)
    = trilateration p1 d1 p2 d2 p3 d3 /\
    ~ (exists msg : string,
          trilateration p1 d1 p2 d2 p3 d3 = Raise (InvalidInputError msg)) /\
    (forall (G : Type) (w : world G),
        fst (update_position w) = Ok tt /\
        ((3 <= length (anchors w))%nat ->
         forall e : exn,
           fst (locate w) = Raise e ->
           result_label (snd (update_position w)) = LabelException e) /\
        ((3 <= length (anchors w))%nat ->
         ~ In None (distance_entries w) ->
         (length (distances w) < length (distance_entries w))%nat ->
         result_label (snd (update_position w))
         = LabelException (IndexError "list assignment index out of range"))).
Proof.
  intros p1 p2 p3 d1 d2 d3.
  split; [| split; [| split]].
  - apply trilateration_sq_ext; rewrite <- !Rsqr_pow2; apply Rsqr_abs.
  - apply trilateration_sq_ext; ring.
  - intros [msg Hr]. apply trilateration_raise_inv in Hr. discriminate.
  - intros G w. split; [apply update_position_returns |]. split.
    + intros H3 e He. apply update_position_shows; assumption.
    + intros H3 Hall Hlt. apply update_position_shows; [exact H3 |].
      apply locate_short; assumption.
Qed.

(** * Further properties *)

(** ** The solver: what the returned position is *)











(** ** The harness on anchors that are not aligned *)

Lemma norm_self (g : point) : norm (psub g g) = 0.
Proof.
  unfold norm, psub; simpl.
  replace ((fst g - fst g) * ((fst g - fst g) * 1)
           + (snd g - snd g) * ((snd g - snd g) * 1)) with 0 by ring.
  apply sqrt_0.
Qed.

Lemma list_of_length_3 {A : Type} (l : list A) :
  length l = 3%nat -> exists a b c, l = [a; b; c].
Proof.
  destruct l as [| a [| b [| c [| d l]]]]; try discriminate.
  intros _. exists a, b, c. reflexivity.
Qed.

Lemma successes_all_ok (log : list (result R)) :
  Forall (fun r => is_ok r = true) log -> length (successes log) = length log.
Proof.
  induction 1 as [| r log Hr Hlog IH]; simpl; [reflexivity |].
  destruct r; [simpl; rewrite IH; reflexivity | discriminate].
Qed.

Section HarnessOnTriangles.
Context {G : Type} {RS : RandomSource G} {RL : RandomSourceLaws G}.
Variables (a0 a1 a2 true_pos : point).
Hypothesis triangle : ~ collinear a0 a1 a2.

Lemma triangle_denom : denom a0 a1 a2 <> 0.
Proof. intros H0. apply triangle, collinear_denom, H0. Qed.

Lemma trial_error_triangle (noisy : list R) :
  length noisy = 3%nat ->
  exists pos : point,
    trilateration a0 (nth 0 noisy 0) a1 (nth 1 noisy 0) a2 (nth 2 noisy 0)
    = Ok pos /\
    trial_error [a0; a1; a2] true_pos noisy = Ok (norm (psub pos true_pos)).
Proof.
  intros Hlen.
  rewrite (trial_error_spec [a0; a1; a2] true_pos noisy eq_refl Hlen).
  cbn [nth]. rewrite trilateration_unfold.
  destruct (Req_dec_T (denom a0 a1 a2) 0) as [H0 | _];
    [exfalso; apply triangle_denom, H0 |].
  eexists. split; reflexivity.
Qed.

Lemma trial_log_triangle (lo hi : R) (case : Z) (n : nat) (g : G) :
  exists (log : list (result R)) (g' : G),
    trial_log [a0; a1; a2] true_pos lo hi case n g = (Ok log, g') /\
    length log = n /\
    Forall (fun r => is_ok r = true) log.
Proof.
  revert g. induction n as [| n IH]; intros g; simpl.
  - exists [], g. repeat split. constructor.
  - destruct (inject_noise_ok lo hi case
                (true_distances [a0; a1; a2] true_pos) g eq_refl)
      as (noisy & g1 & Hinj & Hlen).
    destruct (IH g1) as (log & g2 & Hlog & Hn & Hall).
    destruct (trial_error_triangle noisy Hlen) as (pos & _ & Herr).
    rewrite bind_run. unfold run_trial. rewrite bind_run, Hinj.
    unfold ret at 1. rewrite bind_run, Hlog. unfold ret.
    do 2 eexists. split; [reflexivity |]. split; [simpl; congruence |].
    constructor; [rewrite Herr; reflexivity | exact Hall].
Qed.

(** With both bounds at zero the noise block returns the true distances. *)
Lemma inject_noise_zero (lo hi : R) (case : Z) (ds : list R) (g : G) :
  lo = 0 -> hi = 0 -> length ds = 3%nat ->
  exists g' : G, inject_noise lo hi case ds g = (Ok ds, g').
Proof.
  intros Hlo Hhi Hlen.
  destruct (list_of_length_3 ds Hlen) as (d1 & d2 & d3 & ->).
  unfold inject_noise. cbv zeta.
  destruct (case =? 1)%Z; [| destruct (case =? 2)%Z; [| destruct (case =? 3)%Z]].
  - destruct (choice3_run g) as (i & g1 & Hc & Hi).
    rewrite bind_run, Hc.
    rewrite add_noise_at_run by (simpl; lia).
    eexists. apply f_equal2; [| reflexivity]. apply f_equal.
    subst lo hi.
    destruct i as [| [| [| i]]]; try lia; simpl; repeat f_equal; ring.
  - destruct (sample3_run g) as (i & j & g1 & Hs & Hi & Hj & _).
    rewrite bind_run, Hs.
    unfold add_noise_each, bind, ret.
    rewrite add_noise_at_run by (simpl; lia).
    rewrite add_noise_at_run by (rewrite length_list_set; simpl; lia).
    eexists. apply f_equal2; [| reflexivity]. apply f_equal.
    subst lo hi.
    destruct i as [| [| [| i]]]; try lia;
      destruct j as [| [| [| j]]]; try lia; simpl; repeat f_equal; ring.
  - destruct (add_noise_all_run3 lo hi d1 d2 d3 g)
      as (u1 & u2 & u3 & g' & Hr & Hu).
    rewrite Hr. exists g'. apply f_equal2; [| reflexivity]. apply f_equal.
    destruct Hu as (H1 & H2 & H3); [lra |].
    repeat f_equal; lra.
  - eexists. reflexivity.
Qed.

Lemma trial_error_exact :
  trial_error [a0; a1; a2] true_pos (true_distances [a0; a1; a2] true_pos)
  = Ok 0.
Proof.
  unfold trial_error, true_distances.
  cbn [getitem nth_error map and_then].
  rewrite (trilateration_exact a0 a1 a2 true_pos);
    try apply norm_psub_sq; [| apply triangle_denom].
  cbn [and_then]. rewrite norm_self. reflexivity.
Qed.

Lemma trial_log_zero (lo hi : R) (case : Z) (n : nat) (g : G) :
  lo = 0 -> hi = 0 ->
  exists g' : G,
    trial_log [a0; a1; a2] true_pos lo hi case n g = (Ok (repeat (Ok 0) n), g').
Proof.
  intros Hlo Hhi. revert g. induction n as [| n IH]; intros g; simpl.
  - exists g. reflexivity.
  - destruct (inject_noise_zero lo hi case
                (true_distances [a0; a1; a2] true_pos) g Hlo Hhi eq_refl)
      as (g1 & Hinj).
    destruct (IH g1) as (g2 & Hlog).
    rewrite bind_run. unfold run_trial. rewrite bind_run, Hinj.
    unfold ret at 1. rewrite bind_run, Hlog. unfold ret.
    rewrite trial_error_exact. exists g2. reflexivity.
Qed.

End HarnessOnTriangles.

Lemma successes_repeat_zero (n : nat) :
  successes (repeat (Ok 0) n) = repeat 0 n.
Proof. induction n as [| n IH]; simpl; [| rewrite IH]; reflexivity. Qed.

Lemma sum_list_repeat_zero (n : nat) : sum_list (repeat 0 n) = 0.
Proof. induction n as [| n IH]; simpl; [| rewrite IH]; lra. Qed.

Lemma mean_or_nan_zeros (n : nat) :
  (0 < n)%nat -> mean_or_nan (repeat 0 n) = Mean 0.
Proof.
  destruct n as [| n]; [lia |]. intros _.
  change (mean_or_nan (repeat 0 (S n))) with (Mean (np_mean (repeat 0 (S n)))).
  unfold np_mean. rewrite sum_list_repeat_zero.
  f_equal. unfold Rdiv. ring.
Qed.

(** X5: on three anchors that are not collinear no trial of [simulate_error]
    fails: the list it returns has exactly [trials] errors (none for a
    [trials] that is zero or negative). *)
Theorem X5_simulate_error_full_length :
  forall (G : Type) (RS : RandomSource G),
    RandomSourceLaws G ->
    forall (a0 a1 a2 true_pos : point) (case trials : Z) (g : G),
      ~ collinear a0 a1 a2 ->
      exists (errors : list R) (g' : G),
        simulate_error [a0; a1; a2] true_pos case trials g = (Ok errors, g') /\
        length errors = Z.to_nat trials.
Proof.
  intros G RS RL a0 a1 a2 true_pos case trials g Htri.
  destruct (trial_log_triangle a0 a1 a2 true_pos Htri 0 5 case
                               (Z.to_nat trials) g)
    as (log & g' & Hlog & Hn & Hall).
  exists (successes log), g'. split.
  - unfold simulate_error. rewrite trial_loop_log, Hlog. reflexivity.
  - rewrite successes_all_ok; assumption.
Qed.

(** X5 on the anchors of the script with the default of 1000 trials. *)
Lemma X5_simulate_error_full_length_witness :
  exists (errors : list R) (g' : nat),
    simulate_error anchors_default true_pos_default 3 1000 0%nat
    = (Ok errors, g') /\
    length errors = 1000%nat.
Proof.
  apply (X5_simulate_error_full_length nat counter_source counter_source_laws
           (-4.5, 0) (-1.5, -3) (1.5, 0) true_pos_default 3 1000 0%nat).
  intros Hc. apply collinear_denom in Hc.
  rewrite anchors_default_denom in Hc. lra.
Defined.

(** X6: without noise there is no error: when the first magnitude of the
    sweep is 0, the anchors are not collinear and at least one trial is run
    per magnitude, the first mean [simulate_errors] returns is exactly 0. *)
Theorem X6_simulate_errors_zero_noise :
  forall (G : Type) (RS : RandomSource G),
    RandomSourceLaws G ->
    forall (a0 a1 a2 true_pos : point) (rest : list R) (case trials : Z) (g : G),
      ~ collinear a0 a1 a2 ->
      (0 < trials)%Z ->
      exists (means : list mean_error) (g' : G),
        simulate_errors [a0; a1; a2] true_pos (0 :: rest) case trials g
        = (Ok (Mean 0 :: means), g') /\
        length means = length rest.
Proof.
  intros G RS RL a0 a1 a2 true_pos rest case trials g Htri Htrials.
  destruct (trial_log_zero a0 a1 a2 true_pos Htri (- 0) 0 case
                           (Z.to_nat trials) g Ropp_0 eq_refl)
    as (g1 & Hlog).
  destruct (sweep_total [a0; a1; a2] true_pos eq_refl case (Z.to_nat trials)
                        rest g1)
    as (means & g' & Hsw & Hall).
  exists means, g'. split.
  - unfold simulate_errors. rewrite level_loop_sweep.
    cbn [sweep]. rewrite bind_run, Hlog, bind_run, Hsw. unfold ret.
    rewrite successes_repeat_zero, mean_or_nan_zeros by lia.
    reflexivity.
  - symmetry. apply (Forall2_length Hall).
Qed.

(** X6 on the globals of UWB_error_test_line.py, whose first magnitude is 0. *)
Lemma X6_simulate_errors_zero_noise_witness :
  exists (means : list mean_error) (g' : nat),
    simulate_errors anchors_default true_pos_default noise_levels_default
                    1 100 0%nat
    = (Ok (Mean 0 :: means), g') /\
    length means = 10%nat.
Proof.
  apply (X6_simulate_errors_zero_noise nat counter_source counter_source_laws
           (-4.5, 0) (-1.5, -3) (1.5, 0) true_pos_default
           [0.5; 1; 1.5; 2; 2.5; 3; 3.5; 4; 4.5; 5] 1 100 0%nat).
  - intros Hc. apply collinear_denom in Hc.
    rewrite anchors_default_denom in Hc. lra.
  - lia.
Defined.

(** ** UWB_errors_on_map.py *)

Lemma plot_estimate_three (a0 a1 a2 TRUE_POS : point) (true_d noisy : list R) :
  length true_d = 3%nat -> length noisy = 3%nat ->
  plot_estimate [a0; a1; a2] TRUE_POS true_d noisy =
  match trilateration a0 (nth 0 noisy 0) a1 (nth 1 noisy 0) a2 (nth 2 noisy 0) with
  | Ok est_pos => Ok (FigureSaved est_pos (norm (psub est_pos TRUE_POS)))
  | Raise e => Raise e
  end.
Proof.
  intros Ht Hn.
  destruct (list_of_length_3 true_d Ht) as (t0 & t1 & t2 & ->).
  destruct (list_of_length_3 noisy Hn) as (n0 & n1 & n2 & ->).
  unfold plot_estimate. cbn [getitem nth_error and_then nth].
  destruct (trilateration a0 n0 a1 n1 a2 n2); reflexivity.
Qed.

Section SimulateAndPlotFacts.
Context {G : Type} {RS : RandomSource G} {RL : RandomSourceLaws G}.

Lemma simulate_and_plot_run (a0 a1 a2 TRUE_POS : point) (case : Z)
      (noise_level : R) (trial_index : nat) (g : G) :
  exists (noisy : list R) (g' : G),
    inject_noise 0 noise_level case (true_distances [a0; a1; a2] TRUE_POS) g
    = (Ok noisy, g') /\
    length noisy = 3%nat /\
    simulate_and_plot [a0; a1; a2] case noise_level trial_index TRUE_POS g
    = (Ok (if Req_dec_T (denom a0 a1 a2) 0
           then ErrorPrinted DegenerateGeometryError
           else
             let est_pos :=
               ((coefC a0 a1 (nth 0 noisy 0) (nth 1 noisy 0) * coefE a0 a2
                 - coefB a0 a1 * coefF a0 a2 (nth 0 noisy 0) (nth 2 noisy 0))
                  / denom a0 a1 a2,
                (coefA a0 a1 * coefF a0 a2 (nth 0 noisy 0) (nth 2 noisy 0)
                 - coefC a0 a1 (nth 0 noisy 0) (nth 1 noisy 0) * coefD a0 a2)
                  / denom a0 a1 a2) in
             FigureSaved est_pos (norm (psub est_pos TRUE_POS))), g').
Proof.
  unfold simulate_and_plot. cbv zeta.
  destruct (inject_noise_ok 0 noise_level case
              (true_distances [a0; a1; a2] TRUE_POS) g eq_refl)
    as (noisy & g1 & Hinj & Hlen).
  exists noisy, g1. split; [exact Hinj |]. split; [exact Hlen |].
  rewrite bind_run, Hinj.
  rewrite (plot_estimate_three a0 a1 a2 TRUE_POS
             (true_distances [a0; a1; a2] TRUE_POS) noisy eq_refl Hlen).
  rewrite trilateration_unfold.
  destruct (Req_dec_T (denom a0 a1 a2) 0); reflexivity.
Qed.

Lemma simulate_and_plot_triangle (a0 a1 a2 TRUE_POS : point) (case : Z)
      (noise_level : R) (trial_index : nat) (g : G) :
  ~ collinear a0 a1 a2 ->
  exists (est_pos : point) (g' : G),
    simulate_and_plot [a0; a1; a2] case noise_level trial_index TRUE_POS g
    = (Ok (FigureSaved est_pos (norm (psub est_pos TRUE_POS))), g').
Proof.
  intros Htri.
  destruct (simulate_and_plot_run a0 a1 a2 TRUE_POS case noise_level
                                  trial_index g)
    as (noisy & g' & _ & _ & Hrun).
  destruct (Req_dec_T (denom a0 a1 a2) 0) as [H0 | _];
    [exfalso; apply Htri, collinear_denom, H0 |].
  cbv zeta in Hrun. do 2 eexists. exact Hrun.
Qed.

End SimulateAndPlotFacts.



Section ForEachFacts.
Context {G : Type} {RS : RandomSource G}.

(** A loop whose every iteration leaves [k] records satisfying [P] leaves
    [k] records per element, all satisfying [P]. *)
Lemma for_each_total {A B : Type} (P : B -> Prop) (k : nat)
      (l : list A) (body : A -> SE G (list B)) :
  (forall a g, In a l ->
     exists r g', body a g = (Ok r, g') /\ length r = k /\ Forall P r) ->
  forall g : G,
    exists rs g', for_each l body g = (Ok rs, g') /\
                  length rs = (length l * k)%nat /\ Forall P rs.
Proof.
  induction l as [| a l IH]; intros Hbody g; simpl.
  - exists [], g. repeat split. constructor.
  - destruct (Hbody a g (or_introl eq_refl)) as (r & g1 & Hr & Hk & HP).
    destruct (IH (fun a' g' Hin => Hbody a' g' (or_intror Hin)) g1)
      as (rs & g2 & Hrs & Hlen & HPs).
    rewrite bind_run, Hr, bind_run, Hrs. unfold ret.
    do 2 eexists. split; [reflexivity |]. split.
    + rewrite length_app, Hk, Hlen. reflexivity.
    + apply Forall_app. split; assumption.
Qed.

End ForEachFacts.

(** X8: on three anchors that are not collinear the main loop of
    UWB_errors_on_map.py goes through 3 cases times the noise levels times
    the trials per setting without a single printed error: every run saves a
    figure, for a true position drawn with x between -1.5 and 1.5 and y one of
    the integers 0 to 9; with the globals of the script that is 54 figures. *)
Theorem X8_errors_on_map_main :
  forall (G : Type) (RS : RandomSource G),
    RandomSourceLaws G ->
    forall (a0 a1 a2 : point) (NOISE_LEVELS : list R)
           (TRIALS_PER_SETTING : nat) (g : G),
      ~ collinear a0 a1 a2 ->
      exists (runs : list map_run) (g' : G),
        errors_on_map_main [a0; a1; a2] NOISE_LEVELS TRIALS_PER_SETTING g
        = (Ok runs, g') /\
        length runs = (3 * (length NOISE_LEVELS * TRIALS_PER_SETTING))%nat /\
        Forall (fun r =>
                  -1.5 <= fst (map_true_pos r) <= 1.5 /\
                  (exists j : nat, (j < 10)%nat /\ snd (map_true_pos r) = INR j) /\
                  exists est_pos : point,
                    map_outcome r
                    = FigureSaved est_pos
                        (norm (psub est_pos (map_true_pos r))))
               runs.
Proof.
  intros G RS RL a0 a1 a2 NOISE_LEVELS TRIALS_PER_SETTING g Htri.
  unfold errors_on_map_main.
  apply for_each_total. intros case g1 _.
  apply for_each_total. intros noise g2 _.
  match goal with |- context [Forall ?Q _] => set (P := Q) end.
  assert (Hinner : forall (trial : nat) (g3 : G),
             In trial (range TRIALS_PER_SETTING) ->
             exists r g', map_iteration [a0; a1; a2] case noise trial g3
                          = (Ok r, g') /\ length r = 1%nat /\ Forall P r);
    [| destruct (for_each_total P 1 (range TRIALS_PER_SETTING) _ Hinner g2)
         as (rs & g' & Hrun & Hlen & HP);
       exists rs, g'; split; [exact Hrun |]; split; [| exact HP];
       rewrite Hlen; unfold range; rewrite length_seq; lia].
  intros trial g3 _. subst P.
  unfold map_iteration.
  rewrite bind_run, uniform_run.
  pose proof (uniform_range (-1.5) 1.5 g3 ltac:(lra)) as Hx.
  set (x := -1.5 + (1.5 - -1.5) * fst (random g3)) in *.
  rewrite bind_run.
  assert (Hy : exists (j : nat) (g4 : G),
             choice (range 10) (snd (random g3)) = (Ok j, g4) /\ (j < 10)%nat).
  { unfold choice, range. cbn [seq]. rewrite bind_run.
    unfold randbelow_m, lift. cbn [length].
    pose proof (randbelow_range 10 (snd (random g3)) ltac:(lia)) as Hj.
    destruct (randbelow 10 (snd (random g3))) as [j g4]; cbn [fst] in Hj.
    exists j, g4.
    do 10 (destruct j as [| j]; [split; [reflexivity | lia] |]). lia. }
  destruct Hy as (j & g4 & Hchoice & Hj). rewrite Hchoice.
  destruct (simulate_and_plot_triangle a0 a1 a2 (x, INR j) case noise trial g4
                                       Htri)
    as (est_pos & g5 & Hrun).
  rewrite bind_run, Hrun. unfold ret.
  do 2 eexists. split; [reflexivity |]. split; [reflexivity |].
  constructor; [| constructor]. cbn [map_true_pos map_outcome fst snd].
  split; [exact Hx |]. split; [exists j; split; [exact Hj | reflexivity] |].
  exists est_pos. reflexivity.
Qed.

(** X8 on the globals of the script: 3 cases, 6 noise levels, 3 trials. *)
Lemma X8_errors_on_map_main_witness :
  exists (runs : list map_run) (g' : nat),
    errors_on_map_main anchors_default NOISE_LEVELS_default
                       TRIALS_PER_SETTING_default 0%nat
    = (Ok runs, g') /\
    length runs = 54%nat.
Proof.
  destruct (X8_errors_on_map_main nat counter_source counter_source_laws
              (-4.5, 0) (-1.5, -3) (1.5, 0) NOISE_LEVELS_default
              TRIALS_PER_SETTING_default 0%nat)
    as (runs & g' & Hrun & Hlen & _).
  - intros Hc. apply collinear_denom in Hc.
    rewrite anchors_default_denom in Hc. lra.
  - exists runs, g'. split; [exact Hrun | exact Hlen].
Defined.

(** ** The reference lines *)

(** X9: the dashed line of the displays goes to the nearer of the two
    reference lines y = 0 and y = -3, to y = 0 when both are equally far:
    [closest_y] is 0 from y = -1.5 upwards and -3 below, the length shown is
    the smaller of |y| and |y + 3|, and between the two lines it is at most
    1.5. *)
Theorem X9_reference_line :
  forall y_star : R,
    closest_y y_star = (if Rle_dec (-1.5) y_star then 0 else -3) /\
    distance_to_line y_star = Rmin (Rabs y_star) (Rabs (y_star + 3)) /\
    distance_to_line y_star <= Rabs (y_star - 0) /\
    distance_to_line y_star <= Rabs (y_star - -3) /\
    (-3 <= y_star <= 0 -> distance_to_line y_star <= 1.5) /\
    Rmin y_star (closest_y y_star) <= mid_y y_star
      <= Rmax y_star (closest_y y_star).
Proof.
  intros y.
  assert (Hc : closest_y y = (if Rle_dec (-1.5) y then 0 else -3)).
  { unfold closest_y, min_by.
    destruct (Rle_dec (-1.5) y) as [Hge | Hlt].
    - replace (Rltb (Rabs (y - -3)) (Rabs (y - 0))) with false; [reflexivity |].
      symmetry. apply Rltb_false.
      unfold Rabs. destruct (Rcase_abs (y - 0)), (Rcase_abs (y - -3)); lra.
    - replace (Rltb (Rabs (y - -3)) (Rabs (y - 0))) with true; [reflexivity |].
      symmetry. apply Rltb_true.
      unfold Rabs. destruct (Rcase_abs (y - 0)), (Rcase_abs (y - -3)); lra. }
  unfold distance_to_line, mid_y. rewrite Hc.
  split; [reflexivity |].
  destruct (Rle_dec (-1.5) y) as [Hge | Hlt];
    unfold Rmin, Rmax, Rabs;
    repeat match goal with
      | |- context [Rcase_abs ?x] => destruct (Rcase_abs x)
      | |- context [Rle_dec ?a ?b] => destruct (Rle_dec a b)
      end;
    repeat split; try intros; lra.
Qed.

(** ** The anchor manager: pressing, dragging, adding, removing *)

Lemma first_hit_spec (ev : event) (l : list point) :
  forall start : nat,
    match first_hit ev start l with
    | Some i =>
        (start <= i)%nat /\
        exists a : point,
          nth_error l (i - start) = Some a /\
          click_distance ev a < 0.5 /\
          forall (j : nat) (b : point),
            (j < i - start)%nat -> nth_error l j = Some b ->
            0.5 <= click_distance ev b
    | None => forall a : point, In a l -> 0.5 <= click_distance ev a
    end.
Proof.
  induction l as [| a l IH]; intros start; cbn [first_hit].
  - intros a [].
  - change (sqrt ((xdata ev - fst a) ^ 2 + (ydata ev - snd a) ^ 2))
      with (click_distance ev a).
    destruct (Rltb (click_distance ev a) 0.5) eqn:Hhit; cbv iota beta.
    + apply Rltb_true in Hhit. split; [lia |].
      exists a. rewrite Nat.sub_diag. split; [reflexivity |].
      split; [exact Hhit |]. intros j b Hj. lia.
    + apply Rltb_false in Hhit.
      specialize (IH (S start)).
      destruct (first_hit ev (S start) l) as [i |].
      * destruct IH as (Hle & b & Hb & Hd & Hbefore).
        split; [lia |]. exists b.
        replace (i - start)%nat with (S (i - S start)) by lia.
        split; [exact Hb |]. split; [exact Hd |].
        intros j c Hj Hc. destruct j as [| j].
        -- simpl in Hc. inversion Hc; subst. exact Hhit.
        -- simpl in Hc. apply (Hbefore j c); [lia | exact Hc].
      * intros b [<- | Hb]; [exact Hhit | apply IH, Hb].
Qed.

(** X10: a press outside the axes changes nothing; a press inside the axes
    leaves the anchors and the distances as they are and selects the first
    anchor (in list order) that is closer than 0.5 to the click, or nothing
    when every anchor is at least 0.5 away. *)
Theorem X10_on_press_selects_first_hit :
  forall (G : Type) (w : world G) (ev : event),
    (inaxes ev = false -> on_press ev w = (Ok tt, w)) /\
    (inaxes ev = true ->
     anchors (snd (on_press ev w)) = anchors w /\
     distances (snd (on_press ev w)) = distances w /\
     match selected_index (snd (on_press ev w)) with
     | Some i =>
         exists a : point,
           nth_error (anchors w) i = Some a /\
           click_distance ev a < 0.5 /\
           forall (j : nat) (b : point),
             (j < i)%nat -> nth_error (anchors w) j = Some b ->
             0.5 <= click_distance ev b
     | None => forall a : point, In a (anchors w) -> 0.5 <= click_distance ev a
     end).
Proof.
  intros G w ev. unfold on_press. split; intros Hax; rewrite Hax; cbn [negb].
  - reflexivity.
  - se_run.
    pose proof (first_hit_spec ev (anchors w) 0) as Hspec.
    destruct (first_hit ev 0 (anchors w)) as [i |];
      cbn [snd anchors distances selected_index].
    + destruct Hspec as (_ & a & Ha & Hd & Hbefore).
      rewrite Nat.sub_0_r in *.
      split; [reflexivity | split; [reflexivity |]].
      exists a. split; [exact Ha | split; [exact Hd | exact Hbefore]].
    + split; [reflexivity | split; [reflexivity | exact Hspec]].
Qed.

Lemma list_set_same {A : Type} (l : list A) (i : nat) (v : A) :
  nth_error l i = Some v -> list_set l i v = l.
Proof.
  revert i. induction l as [| a l IH]; intros [| i]; simpl; intros H;
    try discriminate.
  - inversion H. reflexivity.
  - rewrite (IH i H). reflexivity.
Qed.

Lemma list_set_twice {A : Type} (l : list A) (i : nat) (u v : A) :
  list_set (list_set l i u) i v = list_set l i v.
Proof.
  revert i. induction l as [| a l IH]; intros [| i]; simpl; try reflexivity.
  rewrite IH. reflexivity.
Qed.

Lemma nth_error_list_set_same {A : Type} (l : list A) (i : nat) (v : A) :
  (i < length l)%nat -> nth_error (list_set l i v) i = Some v.
Proof.
  revert i. induction l as [| a l IH]; intros [| i]; simpl; intros H;
    try lia; [reflexivity | apply IH; lia].
Qed.

Lemma nth_error_combine_snd {A B : Type} (la : list A) (lb : list B)
      (j : nat) (v : B) :
  nth_error (map snd (combine la lb)) j = Some v -> nth_error lb j = Some v.
Proof.
  revert lb j. induction la as [| a la IH]; intros [| b lb] [| j]; simpl;
    intros H; try discriminate; [exact H | apply IH, H].
Qed.

Section DragFacts.
Context {G : Type}.

Lemma set_distances_same (w : world G) :
  set_distances (distances w) w = (Ok tt, w).
Proof. destruct w. reflexivity. Qed.

(** Reading entries that hold the distances already stored changes nothing. *)
Lemma read_entries_same (l : list R) :
  forall (i : nat) (w : world G),
    (forall j v, nth_error l j = Some v ->
                 nth_error (distances w) (i + j) = Some v) ->
    read_entries i (map Some l) w = (Ok tt, w).
Proof.
  induction l as [| v l IH]; intros i w Hl; simpl.
  - reflexivity.
  - pose proof (Hl 0%nat v eq_refl) as Hv. rewrite Nat.add_0_r in Hv.
    assert (Hi : (i < length (distances w))%nat).
    { apply nth_error_Some. rewrite Hv. discriminate. }
    rewrite bind_run. unfold lift at 1. cbn [float_of_entry].
    rewrite bind_run. unfold get at 1.
    rewrite bind_run. unfold lift at 1, setitem.
    apply Nat.ltb_lt in Hi. rewrite Hi.
    rewrite (list_set_same _ _ _ Hv).
    rewrite bind_run, set_distances_same.
    apply IH. intros j u Hj.
    replace (S i + j)%nat with (i + S j)%nat by lia.
    apply Hl. exact Hj.
Qed.

(** After [redraw_anchors] the entries hold the stored distances, so
    [update_position] reads them back unchanged. *)
Lemma read_redrawn_entries (w : world G) :
  read_entries 0 (map (fun ad : point * R => Some (snd ad))
                      (combine (anchors w) (distances w))) w
  = (Ok tt, w).
Proof.
  rewrite <- (map_map snd Some).
  apply read_entries_same. intros j v Hj. simpl.
  eapply nth_error_combine_snd. exact Hj.
Qed.

End DragFacts.

Section UpdatePositionFacts.
Context {G : Type}.

(** Everything but the distances is out of reach of the entry loop. *)
Lemma read_entries_frame (entries : list (option R)) :
  forall (i : nat) (w : world G),
    anchors (snd (read_entries i entries w)) = anchors w /\
    distance_entries (snd (read_entries i entries w)) = distance_entries w /\
    selected_index (snd (read_entries i entries w)) = selected_index w /\
    star (snd (read_entries i entries w)) = star w /\
    result_label (snd (read_entries i entries w)) = result_label w /\
    rng (snd (read_entries i entries w)) = rng w.
Proof.
  induction entries as [| entry rest IH]; intros i w; simpl.
  - repeat split.
  - se_run.
    destruct (float_of_entry entry) as [v | e]; [| repeat split].
    destruct (setitem (distances w) i v) as [ds | e]; [| repeat split].
    match goal with |- context [read_entries (S i) rest ?w1] =>
      destruct (IH (S i) w1) as (H1 & H2 & H3 & H4 & H5 & H6);
      rewrite H1, H2, H3, H4, H5, H6 end.
    repeat split.
Qed.

(** The solver step reads the anchors and the distances only. *)
Lemma solve_closest_reads (w u : world G) :
  anchors u = anchors w -> distances u = distances w ->
  fst (solve_closest u) = fst (solve_closest w).
Proof.
  intros Ha Hd. unfold solve_closest. se_run. rewrite Ha, Hd.
  repeat match goal with
         | |- context [getitem ?l ?i] => destruct (getitem l i); simpl; try reflexivity
         end.
Qed.

Lemma firstn_list_set {A : Type} (l : list A) (i : nat) (v : A) :
  (i < length l)%nat -> firstn (S i) (list_set l i v) = firstn i l ++ [v].
Proof.
  revert i. induction l as [| a l IH]; intros [| i] H; simpl in *; try lia.
  - reflexivity.
  - rewrite IH by lia. reflexivity.
Qed.

Lemma skipn_list_set {A : Type} (l : list A) (i k : nat) (v : A) :
  (i < k)%nat -> skipn k (list_set l i v) = skipn k l.
Proof.
  revert i k. induction l as [| a l IH]; intros [| i] [| k] H; simpl;
    try lia; try reflexivity.
  apply IH. lia.
Qed.

(** Entries are written one by one: when the text of an entry is not a
    float, the entries before it have been stored and the others have not. *)
Lemma read_entries_prefix (vs : list R) (rest : list (option R)) :
  forall (i : nat) (w : world G),
    (i + length vs < S (length (distances w)))%nat ->
    exists w' : world G,
      read_entries i (map Some vs ++ None :: rest) w
      = (Raise (ValueError "could not convert string to float"), w') /\
      distances w' = firstn i (distances w) ++ vs
                     ++ skipn (i + length vs) (distances w) /\
      anchors w' = anchors w /\
      star w' = star w.
Proof.
  induction vs as [| v vs IH]; intros i w Hlen;
    cbn [map app read_entries length] in *.
  - exists w. split; [reflexivity |]. split; [| split; reflexivity].
    rewrite Nat.add_0_r. cbn [app]. symmetry. apply firstn_skipn.
  - assert (Hi : (i < length (distances w))%nat) by lia.
    pose proof Hi as Hi'. apply Nat.ltb_lt in Hi'.
    cbn [float_of_entry]. se_run. unfold setitem. rewrite Hi'. se_run.
    match goal with |- context [read_entries (S i) _ ?w1] =>
      destruct (IH (S i) w1) as (w' & Hrun & Hd & Ha & Hs) end.
    { cbn [distances]. rewrite length_list_set. lia. }
    exists w'. split; [exact Hrun |].
    cbn [distances anchors star] in Hd, Ha, Hs.
    split; [| split; assumption].
    rewrite Hd, firstn_list_set by exact Hi.
    rewrite skipn_list_set by lia.
    rewrite <- app_assoc. cbn [app].
    replace (S i + length vs)%nat with (i + S (length vs))%nat by lia.
    reflexivity.
Qed.

End UpdatePositionFacts.

(** X11: what [update_position] can do.  It never raises: it always
    returns.  It never touches the anchors, the entries, the selection or the
    generator, nor the number of distances.  With fewer than three anchors it
    only writes the message about three anchors.  Otherwise it either shows a
    position, which is then both in the label and under the star and is the
    solver's answer for the three closest anchors of the distances now
    stored, or it shows the message of an exception and leaves the star where
    the previous estimate put it. *)
Theorem X11_update_position_outcome :
  forall (G : Type) (w : world G),
    fst (update_position w) = Ok tt /\
    anchors (snd (update_position w)) = anchors w /\
    distance_entries (snd (update_position w)) = distance_entries w /\
    selected_index (snd (update_position w)) = selected_index w /\
    rng (snd (update_position w)) = rng w /\
    length (distances (snd (update_position w))) = length (distances w) /\
    ((length (anchors w) < 3)%nat /\
     result_label (snd (update_position w))
     = LabelText "Need at least 3 anchors" /\
     star (snd (update_position w)) = star w /\
     distances (snd (update_position w)) = distances w
     \/
     (3 <= length (anchors w))%nat /\
     (exists pos : point,
         result_label (snd (update_position w)) = LabelEstimated pos /\
         star (snd (update_position w)) = Some pos /\
         fst (solve_closest (snd (update_position w))) = Ok pos)
     \/
     (3 <= length (anchors w))%nat /\
     (exists e : exn,
         result_label (snd (update_position w)) = LabelException e /\
         star (snd (update_position w)) = star w)).
Proof.
  intros G w.
  split; [apply update_position_returns |].
  unfold update_position. se_run.
  destruct (length (anchors w) <? 3)%nat eqn:H3.
  - apply Nat.ltb_lt in H3.
    cbn [snd anchors distance_entries selected_index rng distances
         result_label star].
    repeat (split; [reflexivity |]).
    left. repeat split. exact H3.
  - apply Nat.ltb_ge in H3.
    unfold locate. se_run.
    destruct (read_entries_frame (distance_entries w) 0 w)
      as (Ha & He & Hs & Hst & Hl & Hr).
    destruct (read_entries_lens (distance_entries w) 0 w) as [_ Hlen].
    destruct (read_entries 0 (distance_entries w) w) as [[[] | e] w1];
      cbn [snd] in Ha, He, Hs, Hst, Hl, Hr, Hlen.
    + pose proof (solve_closest_pure w1) as Hpure.
      destruct (solve_closest w1) as [[pos | e] w2] eqn:Hsolve;
        cbn [snd] in Hpure; subst w2;
        cbn [snd fst anchors distance_entries selected_index rng distances
             result_label star] in *.
      * repeat (split; [assumption |]).
        right; left. split; [exact H3 |].
        exists pos. split; [reflexivity |]. split; [reflexivity |].
        match goal with |- fst (solve_closest ?u) = _ =>
          rewrite (solve_closest_reads w1 u eq_refl eq_refl) end.
        rewrite Hsolve. reflexivity.
      * repeat (split; [assumption |]).
        right; right. split; [exact H3 |].
        exists e. split; [reflexivity | exact Hst].
    + cbn [snd fst anchors distance_entries selected_index rng distances
           result_label star] in *.
      repeat (split; [assumption |]).
      right; right. split; [exact H3 |].
      exists e. split; [reflexivity | exact Hst].
Qed.

(** X12: a text that is not a float stops the reading of the entries half
    way: with at least three anchors, when the first entries hold the floats
    [vs] and the next one does not parse, [update_position] has stored [vs]
    over the first distances, kept the other distances, shown the conversion
    error, and left the anchors and the star alone. *)
Theorem X12_update_position_bad_entry :
  forall (G : Type) (w : world G) (vs : list R) (rest : list (option R)),
    (3 <= length (anchors w))%nat ->
    distance_entries w = map Some vs ++ None :: rest ->
    (length vs <= length (distances w))%nat ->
    distances (snd (update_position w))
    = vs ++ skipn (length vs) (distances w) /\
    result_label (snd (update_position w))
    = LabelException (ValueError "could not convert string to float") /\
    star (snd (update_position w)) = star w /\
    anchors (snd (update_position w)) = anchors w.
Proof.
  intros G w vs rest H3 Hent Hlen.
  unfold update_position. se_run.
  apply Nat.ltb_ge in H3. rewrite H3.
  unfold locate. se_run. rewrite Hent.
  destruct (read_entries_prefix vs rest 0 w) as (w' & Hrun & Hd & Ha & Hs);
    [simpl; lia |].
  rewrite Hrun. cbn [snd distances result_label star anchors].
  rewrite Hd. simpl. repeat split; assumption.
Qed.

(** X12 at start-up values: three anchors, first entry 7.5, second entry not
    a float. *)
Lemma X12_update_position_bad_entry_witness :
  distances (snd (update_position
     {| anchors := [(6, 7.5); (9, -3); (5, 7.5)];
        distances := [7; 5; 8];
        distance_entries := [Some 7.5; None; Some 8];
        selected_index := None; star := Some (1, 1);
        result_label := LabelInitial; rng := 0%nat |}))
  = [7.5; 5; 8].
Proof.
  apply (X12_update_position_bad_entry nat
           {| anchors := [(6, 7.5); (9, -3); (5, 7.5)];
              distances := [7; 5; 8];
              distance_entries := [Some 7.5; None; Some 8];
              selected_index := None; star := Some (1, 1);
              result_label := LabelInitial; rng := 0%nat |}
           [7.5] [Some 8]).
  - simpl. lia.
  - reflexivity.
  - simpl. lia.
Defined.

Section MotionFacts.
Context {G : Type}.

Lemma update_position_frame (w : world G) :
  anchors (snd (update_position w)) = anchors w /\
  distance_entries (snd (update_position w)) = distance_entries w /\
  selected_index (snd (update_position w)) = selected_index w /\
  rng (snd (update_position w)) = rng w.
Proof.
  unfold update_position. se_run.
  destruct (length (anchors w) <? 3)%nat; [repeat split |].
  unfold locate. se_run.
  destruct (read_entries_frame (distance_entries w) 0 w)
    as (Ha & He & Hs & _ & _ & Hr).
  destruct (read_entries 0 (distance_entries w) w) as [[[] | e] w1];
    cbn [snd] in Ha, He, Hs, Hr.
  - pose proof (solve_closest_pure w1) as Hpure.
    destruct (solve_closest w1) as [[pos | e] w2];
      cbn [snd] in Hpure; subst w2;
      cbn [snd anchors distance_entries selected_index rng];
      repeat split; assumption.
  - cbn [snd anchors distance_entries selected_index rng].
    repeat split; assumption.
Qed.

(** Right after [redraw_anchors], [update_position] stores the distances it
    finds in the entries, which are the distances already stored. *)
Lemma update_position_redrawn (w : world G) :
  distance_entries w
  = map (fun ad : point * R => Some (snd ad))
        (combine (anchors w) (distances w)) ->
  distances (snd (update_position w)) = distances w.
Proof.
  intros Hent. unfold update_position. se_run.
  destruct (length (anchors w) <? 3)%nat; [reflexivity |].
  unfold locate. se_run. rewrite Hent, read_redrawn_entries.
  pose proof (solve_closest_pure w) as Hpure.
  destruct (solve_closest w) as [[pos | e] w2];
    cbn [snd] in Hpure; subst w2; reflexivity.
Qed.

End MotionFacts.

(** X13: dragging.  While an anchor is selected and the pointer is inside
    the axes, [on_motion] puts that anchor, and no other, at the pointer,
    keeps every distance (the entries are rebuilt from the distances before
    they are read back), keeps the selection and the generator, and raises
    nothing. *)
Theorem X13_on_motion_drags_selected_anchor :
  forall (G : Type) (w : world G) (ev : event) (i : nat),
    selected_index w = Some i ->
    inaxes ev = true ->
    (i < length (anchors w))%nat ->
    fst (on_motion ev w) = Ok tt /\
    anchors (snd (on_motion ev w))
    = list_set (anchors w) i (xdata ev, ydata ev) /\
    distances (snd (on_motion ev w)) = distances w /\
    selected_index (snd (on_motion ev w)) = Some i /\
    rng (snd (on_motion ev w)) = rng w.
Proof.
  intros G w ev i Hsel Hax Hi.
  assert (Hrun : on_motion ev w =
                 update_position
                   {| anchors := list_set (anchors w) i (xdata ev, ydata ev);
                      distances := distances w;
                      distance_entries :=
                        map (fun ad : point * R => Some (snd ad))
                            (combine (list_set (anchors w) i (xdata ev, ydata ev))
                                     (distances w));
                      selected_index := selected_index w;
                      star := star w;
                      result_label := result_label w;
                      rng := rng w |}).
  { unfold on_motion. se_run. rewrite Hsel, Hax. cbn [negb].
    destruct (nth_error (anchors w) i) as [a |] eqn:Ha;
      [| apply nth_error_None in Ha; lia].
    unfold getitem. rewrite Ha.
    rewrite nth_error_list_set_same by exact Hi.
    cbn [fst snd]. rewrite list_set_twice.
    unfold redraw_anchors. se_run. rewrite ?Hsel. reflexivity. }
  rewrite Hrun.
  match goal with |- context [update_position ?w1] =>
    destruct (update_position_frame w1) as (Hanch & _ & Hs & Hr);
    pose proof (update_position_redrawn w1 eq_refl) as Hd;
    pose proof (update_position_returns w1) as Hret;
    cbn [anchors distances selected_index rng] in Hanch, Hs, Hr, Hd
  end.
  split; [exact Hret |]. split; [exact Hanch |]. split; [exact Hd |].
  split; [rewrite Hs; exact Hsel | exact Hr].
Qed.

(** X13 on the start-up anchors: the first anchor is dragged to (2, 3). *)
Lemma X13_on_motion_witness :
  anchors (snd (on_motion {| inaxes := true; xdata := 2; ydata := 3 |}
     {| anchors := [(6, 7.5); (9, -3); (5, 7.5)];
        distances := [7; 5; 8];
        distance_entries := [Some 7; Some 5; Some 8];
        selected_index := Some 0%nat; star := None;
        result_label := LabelInitial; rng := 0%nat |}))
  = [(2, 3); (9, -3); (5, 7.5)].
Proof.
  apply (X13_on_motion_drags_selected_anchor nat
           {| anchors := [(6, 7.5); (9, -3); (5, 7.5)];
              distances := [7; 5; 8];
              distance_entries := [Some 7; Some 5; Some 8];
              selected_index := Some 0%nat; star := None;
              result_label := LabelInitial; rng := 0%nat |}
           {| inaxes := true; xdata := 2; ydata := 3 |} 0%nat).
  - reflexivity.
  - reflexivity.
  - simpl. lia.
Defined.

(** X14: [on_motion] does nothing at all when no anchor is selected or the
    pointer is outside the axes; and when the selected index is no longer an
    index of the anchor list it raises [IndexError] before it has changed
    anything. *)
Theorem X14_on_motion_otherwise :
  forall (G : Type) (w : world G) (ev : event),
    (selected_index w = None \/ inaxes ev = false ->
     on_motion ev w = (Ok tt, w)) /\
    (forall i : nat,
        selected_index w = Some i -> inaxes ev = true ->
        (length (anchors w) <= i)%nat ->
        on_motion ev w = (Raise (IndexError "list index out of range"), w)).
Proof.
  intros G w ev. unfold on_motion. se_run. split.
  - intros [Hsel | Hax].
    + rewrite Hsel. reflexivity.
    + rewrite Hax. destruct (selected_index w); reflexivity.
  - intros i Hsel Hax Hi. rewrite Hsel, Hax. cbn [negb].
    unfold getitem at 1.
    apply nth_error_None in Hi. rewrite Hi. reflexivity.
Qed.

(** X15: [add_anchor] below ten anchors appends the distance 5.0 and an
    anchor whose two coordinates lie between -10 and 10, draws twice from
    the generator and keeps the label; at ten anchors it only writes its
    message. *)
Theorem X15_add_anchor_details :
  forall (G : Type) (RS : RandomSource G),
    RandomSourceLaws G ->
    forall w : world G,
      ((length (anchors w) < 10)%nat ->
       exists x y : R,
         -10 <= x <= 10 /\ -10 <= y <= 10 /\
         add_anchor w =
         (Ok tt,
          {| anchors := anchors w ++ [(x, y)];
             distances := distances w ++ [5];
             distance_entries :=
               map (fun ad : point * R => Some (snd ad))
                   (combine (anchors w ++ [(x, y)]) (distances w ++ [5]));
             selected_index := selected_index w;
             star := star w;
             result_label := result_label w;
             rng := snd (random (snd (random (rng w)))) |})) /\
      ((10 <= length (anchors w))%nat ->
       add_anchor w =
       (Ok tt,
        {| anchors := anchors w;
           distances := distances w;
           distance_entries := distance_entries w;
           selected_index := selected_index w;
           star := star w;
           result_label := LabelText "Max 10 anchors allowed";
           rng := rng w |})).
Proof.
  intros G RS RL w. unfold add_anchor. se_run. split; intros Hlen.
  - apply Nat.leb_gt in Hlen. rewrite Hlen.
    rewrite uniform_run. cbn [rng]. rewrite uniform_run.
    unfold redraw_anchors. se_run.
    do 2 eexists. split; [| split; [| reflexivity]];
      apply uniform_range; lra.
  - apply Nat.leb_le in Hlen. rewrite Hlen. reflexivity.
Qed.

(** X15 on the start-up globals and the counting generator. *)
Lemma X15_add_anchor_witness :
  exists x y : R,
    -10 <= x <= 10 /\ -10 <= y <= 10 /\
    anchors (snd (add_anchor (initial_world 0%nat)))
    = [(6, 7.5); (9, -3); (5, 7.5); (x, y)].
Proof.
  destruct (X15_add_anchor_details nat counter_source counter_source_laws
              (initial_world 0%nat)) as [Hadd _].
  destruct Hadd as (x & y & Hx & Hy & Hrun).
  - simpl. lia.
  - exists x, y. rewrite Hrun. repeat split; apply Hx || apply Hy.
Defined.

(** X16: removing undoes adding: from 3 to 9 anchors with as many
    distances, [add_anchor] followed by [remove_anchor] gives back the
    anchors and the distances (and the entries [redraw_anchors] makes of
    them). *)
Theorem X16_add_then_remove :
  forall (G : Type) (RS : RandomSource G) (w : world G),
    length (anchors w) = length (distances w) ->
    (3 <= length (anchors w) < 10)%nat ->
    anchors (snd (remove_anchor (snd (add_anchor w)))) = anchors w /\
    distances (snd (remove_anchor (snd (add_anchor w)))) = distances w /\
    distance_entries (snd (remove_anchor (snd (add_anchor w))))
    = map (fun ad : point * R => Some (snd ad))
          (combine (anchors w) (distances w)).
Proof.
  intros G RS w Heq [H3 H10].
  destruct (add_anchor_grows w H10) as (x & y & Ha & Hd).
  set (w1 := snd (add_anchor w)) in *.
  assert (Hlen1 : (3 < length (anchors w1))%nat).
  { rewrite Ha, length_app. simpl. lia. }
  assert (Heq1 : length (anchors w1) = length (distances w1)).
  { rewrite Ha, Hd, !length_app. simpl. lia. }
  destruct (remove_anchor_shrinks w1 Hlen1 Heq1) as [Ha2 Hd2].
  assert (Hra : anchors (snd (remove_anchor w1)) = anchors w)
    by (rewrite Ha2, Ha; apply removelast_last).
  assert (Hrd : distances (snd (remove_anchor w1)) = distances w)
    by (rewrite Hd2, Hd; apply removelast_last).
  split; [exact Hra | split; [exact Hrd |]].
  rewrite <- Hra, <- Hrd.
  unfold remove_anchor. se_run.
  apply Nat.leb_gt in Hlen1. rewrite Hlen1.
  destruct (anchors w1) as [| a1 l1] eqn:Hw1; [simpl in Heq1, Hlen1; discriminate |].
  destruct (distances w1) as [| d1 l1'] eqn:Hw1'; [simpl in Heq1; discriminate |].
  unfold pop, redraw_anchors. se_run. reflexivity.
Qed.

(** X16 on the start-up globals and the counting generator. *)
Lemma X16_add_then_remove_witness :
  anchors (snd (remove_anchor (snd (add_anchor (initial_world 0%nat)))))
  = [(6, 7.5); (9, -3); (5, 7.5)].
Proof.
  apply (X16_add_then_remove nat counter_source (initial_world 0%nat)).
  - reflexivity.
  - simpl. lia.
Defined.

(** ** test_server_uwb.py *)

(** X17: the server hands out what was last posted.  After any sequence of
    requests, [/get] answers with the ["distances"] of the last posted JSON
    object, with [[]] when that object has no ["distances"], and with the
    initial value when no object was posted; a post that is not a JSON
    object is answered with 400 and changes nothing, and [/get] itself
    changes nothing. *)
Theorem X17_server_hands_out_last_post :
  forall (json : Type) (empty_list : json) (rqs : list (request json))
         (latest_data : json),
    send_latest json (serve_all json empty_list rqs latest_data)
    = (Ok (Distances200 (last_posted json empty_list rqs latest_data)),
       last_posted json empty_list rqs latest_data) /\
    (forall e : exn,
        receive_data json empty_list (NoObject e) latest_data
        = (Ok (Error400 e), latest_data)) /\
    (forall data : string -> option json,
        receive_data json empty_list (JsonObject data) latest_data
        = (Ok StatusSuccess200, dict_get json data "distances" empty_list)) /\
    snd (send_latest json latest_data) = latest_data.
Proof.
  intros json empty_list rqs latest_data.
  split; [| repeat split].
  revert latest_data.
  induction rqs as [| rq rest IH]; intros latest_data.
  - reflexivity.
  - cbn [serve_all last_posted].
    destruct rq as [[data | e] |]; cbn [serve]; rewrite IH; reflexivity.
Qed.

(** ** auto_distances.py *)

(** Runs the plumbing of the plot handlers. *)
Ltac plot_run :=
  cbv beta iota zeta delta
    [bind lift get put ret try_except
     set_plot_circles set_plot_star set_plot_label print];
  cbn [fst snd plot_star plot_circles plot_label plot_printed].

(** X18: one round of [poll_distances] raises nothing and has one of two
    effects.  Either the response has status 200 and exactly three items,
    each with an anchor id and a distance, the ids are indices of the anchor
    list, and the solver returns a position: then the star is at that
    position, the circles are exactly the three used anchors with the three
    distances as radii, in the colours red, yellow, purple in feed order,
    and the label shows the three distances.  Or one line is printed and the
    star, the circles and the label stay as they were. *)
Theorem X18_poll_once_effect :
  forall (anchors : list point) (response : http_response) (p : plot),
    fst (poll_once anchors response p) = Ok tt /\
    ((exists (i1 i2 i3 : Z) (d1 d2 d3 : R) (p1 p2 p3 pos : point),
         response = Response 200
                      (Some [{| anchor_id := Some i1; distance := Some d1 |};
                             {| anchor_id := Some i2; distance := Some d2 |};
                             {| anchor_id := Some i3; distance := Some d3 |}]) /\
         getitem_int anchors i1 = Ok p1 /\
         getitem_int anchors i2 = Ok p2 /\
         getitem_int anchors i3 = Ok p3 /\
         trilateration p1 d1 p2 d2 p3 d3 = Ok pos /\
         snd (poll_once anchors response p)
         = {| plot_star := pos;
              plot_circles := [(p1, d1, "red"%string);
                               (p2, d2, "yellow"%string);
                               (p3, d3, "purple"%string)];
              plot_label := Some (d1, d2, d3);
              plot_printed := plot_printed p |})
     \/
     (exists line : printed,
         snd (poll_once anchors response p)
         = {| plot_star := plot_star p;
              plot_circles := plot_circles p;
              plot_label := plot_label p;
              plot_printed := plot_printed p ++ [line] |})).
Proof.
  intros anchors response p.
  unfold poll_once, poll_try.
  destruct response as [e | status_code distances_value].
  { plot_run. split; [reflexivity |]. right. eexists. reflexivity. }
  destruct (status_code =? 200)%Z eqn:Hstatus;
    [| plot_run; split; [reflexivity |]; right; eexists; reflexivity].
  apply Z.eqb_eq in Hstatus. subst status_code.
  cbv zeta.
  destruct distances_value as [[| a [| b [| c [| x l]]]] |];
    cbn [length Nat.eqb negb];
    try (plot_run; split; [reflexivity |]; right; eexists; reflexivity).
  destruct a as [[i1 |] [d1 |]], b as [[i2 |] [d2 |]], c as [[i3 |] [d3 |]];
    cbn [comprehension and_then item_anchor_id item_distance
         anchor_id distance];
    try (plot_run; split; [reflexivity |]; right; eexists; reflexivity).
  plot_run. cbn [getitem nth_error]. plot_run.
  destruct (getitem_int anchors i1) as [p1 | e1] eqn:H1;
    [| plot_run; split; [reflexivity |]; right; eexists; reflexivity].
  destruct (getitem_int anchors i2) as [p2 | e2] eqn:H2;
    [| plot_run; split; [reflexivity |]; right; eexists; reflexivity].
  destruct (getitem_int anchors i3) as [p3 | e3] eqn:H3;
    [| plot_run; split; [reflexivity |]; right; eexists; reflexivity].
  unfold trilateration_3anchors.
  destruct (trilateration p1 d1 p2 d2 p3 d3) as [pos | e] eqn:Ht;
    [| plot_run; split; [reflexivity |]; right; eexists; reflexivity].
  unfold update_plot. cbn [combine draw_used].
  plot_run. rewrite H1, H2, H3. cbn [getitem nth_error plot_colors]. plot_run.
  split; [reflexivity |]. left.
  exists i1, i2, i3, d1, d2, d3, p1, p2, p3, pos.
  repeat split; assumption.
Qed.

(** *** Which triples of the depot anchors give a position *)

Lemma denom_two_rows (x1 y1 x2 y2 x3 y3 : R) :
  (y1 = 0 \/ y1 = -3) -> (y2 = 0 \/ y2 = -3) -> (y3 = 0 \/ y3 = -3) ->
  (denom (x1, y1) (x2, y2) (x3, y3) = 0 <->
   (y1 = y2 /\ y2 = y3) \/ (x1, y1) = (x2, y2) \/ (x2, y2) = (x3, y3)
   \/ (x1, y1) = (x3, y3)).
Proof.
  intros H1 H2 H3. rewrite denom_cross. simpl.
  destruct H1 as [-> | ->], H2 as [-> | ->], H3 as [-> | ->];
    (split;
     [ intros H0;
       first [ left; split; reflexivity
             | assert (x1 = x2) by lra; subst; right; left; reflexivity
             | assert (x2 = x3) by lra; subst; right; right; left; reflexivity
             | assert (x1 = x3) by lra; subst; right; right; right; reflexivity ]
     | intros [[Ha Hb] | [He | [He | He]]];
       try (inversion He; subst); try lra ]).
Qed.

Lemma depot_anchor_rows (n : nat) :
  (n < 12)%nat ->
  (snd (nth n depot_anchors (0, 0)) = 0 /\ depot_row n = 0%nat) \/
  (snd (nth n depot_anchors (0, 0)) = -3 /\ depot_row n = 1%nat).
Proof.
  intros Hn.
  do 12 (destruct n as [| n]; [simpl; auto |]). lia.
Qed.

Lemma depot_anchors_NoDup : NoDup depot_anchors.
Proof.
  unfold depot_anchors.
  repeat (constructor;
          [ simpl; intros H;
            repeat (destruct H as [H | H]; [inversion H; lra |]); exact H |]).
  constructor.
Qed.

Lemma depot_anchor_eq (i j : nat) :
  (i < 12)%nat -> (j < 12)%nat ->
  (nth i depot_anchors (0, 0) = nth j depot_anchors (0, 0) <-> i = j).
Proof.
  intros Hi Hj. split; [| intros ->; reflexivity].
  apply (proj1 (NoDup_nth depot_anchors (0, 0)) depot_anchors_NoDup); assumption.
Qed.

(** X19: with the twelve anchors of auto_distances.py and auto_sinus.py,
    three anchor indices give a position exactly when they are three
    different anchors that are not all in the same row; three anchors of one
    row, or an anchor named twice, always give the aligned-anchors error,
    whatever the distances. *)
Theorem X19_depot_triples :
  forall (i j k : nat) (d1 d2 d3 : R),
    (i < 12)%nat -> (j < 12)%nat -> (k < 12)%nat ->
    ((exists pos : point,
         trilateration_3anchors (nth i depot_anchors (0, 0)) d1
                                (nth j depot_anchors (0, 0)) d2
                                (nth k depot_anchors (0, 0)) d3 = Ok pos)
     <-> i <> j /\ j <> k /\ i <> k /\
         ~ (depot_row i = depot_row j /\ depot_row j = depot_row k)) /\
    (trilateration_3anchors (nth i depot_anchors (0, 0)) d1
                            (nth j depot_anchors (0, 0)) d2
                            (nth k depot_anchors (0, 0)) d3
     = Raise DegenerateGeometryError
     <-> i = j \/ j = k \/ i = k \/
         (depot_row i = depot_row j /\ depot_row j = depot_row k)).
Proof.
  intros i j k d1 d2 d3 Hi Hj Hk.
  unfold trilateration_3anchors. rewrite trilateration_unfold.
  pose proof (depot_anchor_eq i j Hi Hj) as Eij.
  pose proof (depot_anchor_eq j k Hj Hk) as Ejk.
  pose proof (depot_anchor_eq i k Hi Hk) as Eik.
  pose proof (depot_anchor_rows i Hi) as Ri.
  pose proof (depot_anchor_rows j Hj) as Rj.
  pose proof (depot_anchor_rows k Hk) as Rk.
  destruct (nth i depot_anchors (0, 0)) as [x1 y1].
  destruct (nth j depot_anchors (0, 0)) as [x2 y2].
  destruct (nth k depot_anchors (0, 0)) as [x3 y3].
  cbn [snd] in Ri, Rj, Rk.
  assert (Hden : denom (x1, y1) (x2, y2) (x3, y3) = 0 <->
                 i = j \/ j = k \/ i = k \/
                 (depot_row i = depot_row j /\ depot_row j = depot_row k)).
  { rewrite denom_two_rows by tauto.
    rewrite Eij, Ejk, Eik.
    destruct Ri as [[-> ->] | [-> ->]], Rj as [[-> ->] | [-> ->]],
             Rk as [[-> ->] | [-> ->]];
      (split;
       [ intros [[Ha Hb] | [He | [He | He]]]; try lra; try tauto;
         right; right; right; split; reflexivity
       | intros [He | [He | [He | [Ha Hb]]]]; try tauto; try discriminate;
         left; split; reflexivity ]). }
  destruct (Req_dec_T (denom (x1, y1) (x2, y2) (x3, y3)) 0) as [H0 | Hn].
  - apply Hden in H0. split; split.
    + intros [pos Hpos]. discriminate.
    + intros (Hij & Hjk & Hik & Hrow). tauto.
    + intros _. exact H0.
    + reflexivity.
  - split; split.
    + intros _.
      assert (Hno : ~ (i = j \/ j = k \/ i = k \/
                       depot_row i = depot_row j /\ depot_row j = depot_row k))
        by (intros H; apply Hn, Hden, H).
      repeat split; intros H; apply Hno; tauto.
    + intros _. eexists. reflexivity.
    + intros H. discriminate.
    + intros H. exfalso. apply Hn, Hden, H.
Qed.

(** X19 on the anchors A3, A9 and A4 (indices 2, 8 and 3). *)
Lemma X19_depot_triples_witness :
  exists pos : point,
    trilateration_3anchors (-4.5, 0) 3 (-1.5, -3) 3 (1.5, 0) 4 = Ok pos.
Proof.
  apply (proj1 (X19_depot_triples 2 8 3 3 3 4 ltac:(lia) ltac:(lia) ltac:(lia))).
  cbn. repeat split; intros H; try discriminate.
  destruct H as [H _]. discriminate.
Defined.

(** ** The draggable star: UWB_movable_position_GUI.py *)

(** Runs the monadic plumbing of the canvas. *)
Ltac canvas_run :=
  cbv beta iota zeta delta
    [bind lift get put ret try_except
     Movable.set_star_pos Movable.set_star_data Movable.set_selected_star
     Movable.clear_visuals Movable.add_circle Movable.add_text_label
     Movable.set_star_label Movable.set_corridor_line
     Movable.set_corridor_text];
  cbn [fst snd Movable.star_pos Movable.star_data Movable.selected_star
       Movable.circles Movable.text_labels Movable.star_label
       Movable.corridor_line Movable.corridor_text].

Lemma draw_circles_run (anchors : list point) (circle_color : option string)
      (cv : list (nat * R)) (c : Movable.canvas) :
  (forall x, In x cv -> (fst x < length anchors)%nat) ->
  Movable.draw_circles anchors circle_color cv c
  = (Ok tt,
     {| Movable.star_pos := Movable.star_pos c;
        Movable.star_data := Movable.star_data c;
        Movable.selected_star := Movable.selected_star c;
        Movable.circles :=
          Movable.circles c ++ map (Movable.circle_of anchors circle_color) cv;
        Movable.text_labels :=
          Movable.text_labels c ++ map (Movable.label_of anchors) cv;
        Movable.star_label := Movable.star_label c;
        Movable.corridor_line := Movable.corridor_line c;
        Movable.corridor_text := Movable.corridor_text c |}).
Proof.
  revert c. induction cv as [| [i d] cv IH]; intros c Hidx.
  - simpl. rewrite !app_nil_r. destruct c; reflexivity.
  - cbn [Movable.draw_circles].
    assert (Hi : (i < length anchors)%nat) by (apply (Hidx (i, d)); left; reflexivity).
    unfold bind at 1, lift at 1.
    rewrite (getitem_nth anchors i (0, 0) Hi).
    canvas_run. rewrite IH by (intros x Hx; apply Hidx; right; exact Hx).
    canvas_run. cbn [map]. rewrite <- !app_assoc. reflexivity.
Qed.

(** The pairs selected for a star are pairs of an anchor index and the
    distance of that anchor, which is at most the range. *)
Lemma selected_pairs (r : R) (anchors : list point) (star_pos : point)
      (n : nat) (x : nat * R) :
  In x (firstn n (sorted Rltb snd (within r (distances_to anchors star_pos)))) ->
  (fst x < length anchors)%nat /\
  snd x = norm (psub (nth (fst x) anchors (0, 0)) star_pos) /\
  snd x <= r.
Proof.
  intros Hx. apply In_firstn_of in Hx.
  apply (Permutation_in _ (sorted_perm Rltb snd _)) in Hx.
  destruct x as [i d]. apply within_In in Hx. destruct Hx as [Hnth Hle].
  unfold distances_to in Hnth. rewrite nth_error_map in Hnth.
  destruct (nth_error anchors i) as [a |] eqn:Ha; [| discriminate].
  simpl in Hnth. inversion Hnth; subst d. cbn [fst snd].
  split; [apply nth_error_Some; congruence |].
  split; [| exact Hle].
  rewrite (nth_error_nth anchors i (0, 0) Ha). reflexivity.
Qed.

Lemma movable_update_circles_run (anchors : list point) (c : Movable.canvas) :
  Movable.update_circles anchors c
  = (Ok tt,
     let cv := firstn 3 (sorted Rltb snd
                           (within 10 (distances_to anchors (Movable.star_pos c)))) in
     {| Movable.star_pos := Movable.star_pos c;
        Movable.star_data := Movable.star_data c;
        Movable.selected_star := Movable.selected_star c;
        Movable.circles := map (Movable.circle_of anchors (tier_color (length cv))) cv;
        Movable.text_labels := map (Movable.label_of anchors) cv;
        Movable.star_label :=
          Some ((fst (Movable.star_pos c) + 0.5, snd (Movable.star_pos c) + 0.5),
                Movable.star_pos c);
        Movable.corridor_line :=
          Some (Movable.star_pos c,
                (fst (Movable.star_pos c), closest_y (snd (Movable.star_pos c))));
        Movable.corridor_text :=
          Some ((fst (Movable.star_pos c) + 0.5, mid_y (snd (Movable.star_pos c))),
                distance_to_line (snd (Movable.star_pos c))) |}).
Proof.
  unfold Movable.update_circles, update_circles, select_in_range.
  canvas_run. cbn [closest_valid circle_color count].
  rewrite draw_circles_run
    by (intros x Hx; apply (selected_pairs 10 anchors _ 3 x Hx)).
  unfold Movable.draw_corridor. canvas_run. reflexivity.
Qed.

Lemma selected_sorted (r : R) (distances : list R) (n : nat) :
  StronglySorted nearer (firstn n (sorted Rltb snd (within r distances))).
Proof.
  apply firstn_ordered.
  eapply StronglySorted_impl; [apply key_then_position_nearer |].
  apply sorted_ordered.
  - apply Rltb_trans.
  - apply Rltb_le_trans.
  - apply within_sorted.
Qed.

Lemma StronglySorted_map {A B : Type} (RA : A -> A -> Prop)
      (RB : B -> B -> Prop) (f : A -> B) (l : list A) :
  (forall x y, RA x y -> RB (f x) (f y)) ->
  StronglySorted RA l -> StronglySorted RB (map f l).
Proof.
  intros Hf. induction 1 as [| a l Hl IH Ha]; simpl; constructor.
  - exact IH.
  - rewrite Forall_forall in Ha |- *. intros y Hy.
    apply in_map_iff in Hy. destruct Hy as (x & <- & Hx). apply Hf, Ha, Hx.
Qed.

Lemma Forall2_map_of {A B : Type} (P : A -> B -> Prop) (f : A -> B)
      (l : list A) :
  (forall x, In x l -> P x (f x)) -> Forall2 P l (map f l).
Proof.
  induction l as [| a l IH]; intros H; simpl; constructor.
  - apply H. left; reflexivity.
  - apply IH. intros x Hx. apply H. right; exact Hx.
Qed.

(** X20: [update_circles] of UWB_movable_position_GUI.py never raises,
    whatever the anchors and the star (the look-up [anchors[i]] of its loop is
    always in range), and leaves the star where it is.  It draws one circle
    per selected pair, in the order of the selection: at most three, each
    centred on an anchor, with the distance from that anchor to the star as
    radius, which is at most 10, all in the colour that goes with their
    number, the smallest first; when fewer than three are drawn, every anchor
    within 10 of the star has its circle; each distance label sits next to
    the centre of its circle. *)
Theorem X20_update_circles_draws :
  forall (anchors : list point) (c : Movable.canvas),
  exists sel : selection,
    update_circles anchors (Movable.star_pos c) = Ok sel /\
    fst (Movable.update_circles anchors c) = Ok tt /\
    Movable.star_pos (snd (Movable.update_circles anchors c))
    = Movable.star_pos c /\
    Forall2 (fun x k => nth_error anchors (fst x) = Some (Movable.center k) /\
                        Movable.radius k = snd x)
            (closest_valid sel)
            (Movable.circles (snd (Movable.update_circles anchors c))) /\
    (length (Movable.circles (snd (Movable.update_circles anchors c))) <= 3)%nat /\
    Forall (fun k =>
              In (Movable.center k) anchors /\
              Movable.radius k
              = norm (psub (Movable.center k) (Movable.star_pos c)) /\
              Movable.radius k <= 10 /\
              Movable.color k
              = tier_color
                  (length (Movable.circles
                             (snd (Movable.update_circles anchors c)))))
           (Movable.circles (snd (Movable.update_circles anchors c))) /\
    StronglySorted (fun k k' => Movable.radius k <= Movable.radius k')
                   (Movable.circles (snd (Movable.update_circles anchors c))) /\
    ((length (Movable.circles (snd (Movable.update_circles anchors c))) < 3)%nat ->
     forall a : point,
       In a anchors -> norm (psub a (Movable.star_pos c)) <= 10 ->
       exists k, In k (Movable.circles (snd (Movable.update_circles anchors c)))
                 /\ Movable.center k = a) /\
    Movable.text_labels (snd (Movable.update_circles anchors c))
    = map (fun k => ((fst (Movable.center k) + 0.5,
                      snd (Movable.center k) - 0.7), Movable.radius k))
          (Movable.circles (snd (Movable.update_circles anchors c))).
Proof.
  intros anchors c.
  rewrite movable_update_circles_run. cbv zeta.
  cbn [fst snd Movable.star_pos Movable.circles Movable.text_labels].
  unfold update_circles, select_in_range.
  set (full := sorted Rltb snd (within 10 (distances_to anchors (Movable.star_pos c)))).
  set (cv := firstn 3 full).
  assert (Hsel : forall x, In x cv ->
                   (fst x < length anchors)%nat /\
                   snd x = norm (psub (nth (fst x) anchors (0, 0)) (Movable.star_pos c)) /\
                   snd x <= 10)
    by (intros x Hx; apply (selected_pairs 10 anchors _ 3 x Hx)).
  eexists. split; [reflexivity |]. cbn [closest_valid].
  split; [reflexivity |].
  split; [reflexivity |].
  rewrite length_map.
  split.
  { apply Forall2_map_of. intros x Hx. cbn [Movable.circle_of Movable.center Movable.radius].
    split; [| reflexivity].
    apply nth_error_nth'. apply Hsel, Hx. }
  split; [unfold cv; rewrite length_firstn; lia |].
  split.
  { rewrite Forall_forall. intros k Hk.
    apply in_map_iff in Hk. destruct Hk as (x & <- & Hx).
    cbn [Movable.circle_of Movable.center Movable.radius Movable.color].
    destruct (Hsel x Hx) as (Hlt & Hd & Hle).
    repeat split; [apply nth_In; exact Hlt | exact Hd | exact Hle]. }
  split.
  { apply (StronglySorted_map nearer); [| apply selected_sorted].
    intros x y [Hlt | [Heq _]]; cbn [Movable.circle_of Movable.radius]; lra. }
  split; [| rewrite map_map; reflexivity].
  intros Hfew a Ha Hin.
  assert (Hall : cv = full).
  { unfold cv in *. rewrite length_firstn in Hfew.
    apply firstn_all2. lia. }
  destruct (In_nth_error anchors a Ha) as [i Hi].
  assert (Hq : In (i, norm (psub a (Movable.star_pos c))) cv).
  { rewrite Hall. unfold full.
    apply (Permutation_in _ (Permutation_sym (sorted_perm Rltb snd _))).
    apply within_In. split; [| exact Hin].
    unfold distances_to. rewrite nth_error_map, Hi. reflexivity. }
  exists (Movable.circle_of anchors (tier_color (length cv))
                            (i, norm (psub a (Movable.star_pos c)))).
  split; [apply in_map; exact Hq |].
  cbn [Movable.circle_of Movable.center fst].
  apply (nth_error_nth anchors i (0, 0) Hi).
Qed.

Lemma norm_le_10 (a p : point) :
  -6 <= fst a - fst p <= 6 -> -3 <= snd a - snd p <= 3 ->
  norm (psub a p) <= 10.
Proof.
  intros Hx Hy. unfold norm, psub. cbn [fst snd].
  replace 10 with (sqrt (10 * 10)) by (rewrite sqrt_square; lra).
  apply sqrt_le_1_alt.
  nra.
Qed.

(** Three different indices with a distance in range: at least three pairs
    qualify. *)
Lemma three_within (r : R) (distances : list R) (i1 i2 i3 : nat)
      (d1 d2 d3 : R) :
  i1 <> i2 -> i1 <> i3 -> i2 <> i3 ->
  nth_error distances i1 = Some d1 -> d1 <= r ->
  nth_error distances i2 = Some d2 -> d2 <= r ->
  nth_error distances i3 = Some d3 -> d3 <= r ->
  (3 <= length (within r distances))%nat.
Proof.
  intros H12 H13 H23 Hn1 Hd1 Hn2 Hd2 Hn3 Hd3.
  change 3%nat with (length [(i1, d1); (i2, d2); (i3, d3)]).
  apply NoDup_incl_length.
  - repeat constructor; simpl; intros H;
      repeat (destruct H as [H | H]; [inversion H; congruence |]); exact H.
  - intros x [<- | [<- | [<- | []]]]; apply within_In; split; assumption.
Qed.

(** X21: with the twelve anchors of UWB_movable_position_GUI.py, a star
    anywhere in the corridor between the two rows of anchors (x from -15 to
    15, y from -3 to 0) has at least three anchors within 10: [update_circles]
    draws three circles there, all green. *)
Theorem X21_corridor_is_covered :
  forall c : Movable.canvas,
    -15 <= fst (Movable.star_pos c) <= 15 ->
    -3 <= snd (Movable.star_pos c) <= 0 ->
    (exists sel : selection,
        update_circles Movable.anchors (Movable.star_pos c) = Ok sel /\
        count sel = 3%nat /\ circle_color sel = Some "green"%string) /\
    length (Movable.circles (snd (Movable.update_circles Movable.anchors c)))
    = 3%nat /\
    Forall (fun k => Movable.color k = Some "green"%string)
           (Movable.circles (snd (Movable.update_circles Movable.anchors c))).
Proof.
  intros c Hx Hy.
  set (p := Movable.star_pos c) in *.
  set (full := sorted Rltb snd (within 10 (distances_to Movable.anchors p))).
  assert (Hthree : (3 <= length (within 10 (distances_to Movable.anchors p)))%nat).
  { assert (Hin : forall i a, nth_error Movable.anchors i = Some a ->
                    -6 <= fst a - fst p <= 6 -> -3 <= snd a - snd p <= 3 ->
                    nth_error (distances_to Movable.anchors p) i
                    = Some (norm (psub a p)) /\ norm (psub a p) <= 10).
    { intros i a Hi Hax Hay. split; [| apply norm_le_10; assumption].
      unfold distances_to. rewrite nth_error_map, Hi. reflexivity. }
    assert (Hrow0 : -3 <= 0 - snd p <= 3) by lra.
    assert (Hrow3 : -3 <= -3 - snd p <= 3) by lra.
    destruct (Rle_dec (fst p) (-9)) as [H1 | H1];
      [| destruct (Rle_dec (fst p) (-3)) as [H2 | H2];
         [| destruct (Rle_dec (fst p) 3) as [H3 | H3];
            [| destruct (Rle_dec (fst p) 9) as [H4 | H4]]]].
    - destruct (Hin 0%nat (-15, 0) eq_refl) as [Ha Ha']; cbn [fst snd];
        [lra | exact Hrow0 |].
      destruct (Hin 1%nat (-9, 0) eq_refl) as [Hb Hb']; cbn [fst snd];
        [lra | exact Hrow0 |].
      destruct (Hin 6%nat (-15, -3) eq_refl) as [Hc Hc']; cbn [fst snd];
        [lra | exact Hrow3 |].
      eapply (three_within 10 _ 0 1 6);
        [lia | lia | lia | exact Ha | exact Ha' | exact Hb | exact Hb' | exact Hc | exact Hc'].
    - destruct (Hin 1%nat (-9, 0) eq_refl) as [Ha Ha']; cbn [fst snd];
        [lra | exact Hrow0 |].
      destruct (Hin 2%nat (-3, 0) eq_refl) as [Hb Hb']; cbn [fst snd];
        [lra | exact Hrow0 |].
      destruct (Hin 7%nat (-9, -3) eq_refl) as [Hc Hc']; cbn [fst snd];
        [lra | exact Hrow3 |].
      eapply (three_within 10 _ 1 2 7);
        [lia | lia | lia | exact Ha | exact Ha' | exact Hb | exact Hb' | exact Hc | exact Hc'].
    - destruct (Hin 2%nat (-3, 0) eq_refl) as [Ha Ha']; cbn [fst snd];
        [lra | exact Hrow0 |].
      destruct (Hin 3%nat (3, 0) eq_refl) as [Hb Hb']; cbn [fst snd];
        [lra | exact Hrow0 |].
      destruct (Hin 8%nat (-3, -3) eq_refl) as [Hc Hc']; cbn [fst snd];
        [lra | exact Hrow3 |].
      eapply (three_within 10 _ 2 3 8);
        [lia | lia | lia | exact Ha | exact Ha' | exact Hb | exact Hb' | exact Hc | exact Hc'].
    - destruct (Hin 3%nat (3, 0) eq_refl) as [Ha Ha']; cbn [fst snd];
        [lra | exact Hrow0 |].
      destruct (Hin 4%nat (9, 0) eq_refl) as [Hb Hb']; cbn [fst snd];
        [lra | exact Hrow0 |].
      destruct (Hin 9%nat (3, -3) eq_refl) as [Hc Hc']; cbn [fst snd];
        [lra | exact Hrow3 |].
      eapply (three_within 10 _ 3 4 9);
        [lia | lia | lia | exact Ha | exact Ha' | exact Hb | exact Hb' | exact Hc | exact Hc'].
    - destruct (Hin 4%nat (9, 0) eq_refl) as [Ha Ha']; cbn [fst snd];
        [lra | exact Hrow0 |].
      destruct (Hin 5%nat (15, 0) eq_refl) as [Hb Hb']; cbn [fst snd];
        [lra | exact Hrow0 |].
      destruct (Hin 10%nat (9, -3) eq_refl) as [Hc Hc']; cbn [fst snd];
        [lra | exact Hrow3 |].
      eapply (three_within 10 _ 4 5 10);
        [lia | lia | lia | exact Ha | exact Ha' | exact Hb | exact Hb' | exact Hc | exact Hc']. }
  assert (Hlen : length (firstn 3 full) = 3%nat).
  { rewrite length_firstn. unfold full.
    rewrite (Permutation_length (sorted_perm Rltb snd _)). lia. }
  split.
  { unfold update_circles, select_in_range. fold full.
    eexists. split; [reflexivity |]. cbn [count circle_color].
    rewrite Hlen. split; reflexivity. }
  rewrite movable_update_circles_run. cbv zeta. cbn [snd Movable.circles].
  fold p. fold full. rewrite length_map, Hlen.
  split; [reflexivity |].
  rewrite Forall_forall. intros k Hk.
  apply in_map_iff in Hk. destruct Hk as (x & <- & _). reflexivity.
Qed.

(** X21 with the star at (1, -2). *)
Lemma X21_corridor_witness :
  length (Movable.circles
            (snd (Movable.update_circles Movable.anchors
                    {| Movable.star_pos := (1, -2);
                       Movable.star_data := (1, -2);
                       Movable.selected_star := false;
                       Movable.circles := [];
                       Movable.text_labels := [];
                       Movable.star_label := None;
                       Movable.corridor_line := None;
                       Movable.corridor_text := None |})))
  = 3%nat.
Proof.
  apply (X21_corridor_is_covered
           {| Movable.star_pos := (1, -2);
              Movable.star_data := (1, -2);
              Movable.selected_star := false;
              Movable.circles := [];
              Movable.text_labels := [];
              Movable.star_label := None;
              Movable.corridor_line := None;
              Movable.corridor_text := None |});
    cbn [Movable.star_pos fst snd]; lra.
Defined.

(** *** The handlers *)

Lemma update_circles_up_to_date (anchors : list point) (c : Movable.canvas) :
  Movable.star_data c = Movable.star_pos c ->
  up_to_date anchors (snd (Movable.update_circles anchors c)).
Proof.
  intros Hdata. split.
  - rewrite movable_update_circles_run. cbv zeta. exact Hdata.
  - rewrite (movable_update_circles_run anchors c). cbv zeta. cbn [snd].
    rewrite movable_update_circles_run. cbv zeta.
    cbn [Movable.star_pos Movable.star_data Movable.selected_star].
    reflexivity.
Qed.

Lemma update_circles_selected (anchors : list point) (b : bool)
      (c : Movable.canvas) :
  Movable.update_circles anchors (snd (Movable.set_selected_star b c))
  = (Ok tt,
     snd (Movable.set_selected_star b (snd (Movable.update_circles anchors c)))).
Proof.
  rewrite !movable_update_circles_run. reflexivity.
Qed.

Lemma set_selected_up_to_date (anchors : list point) (b : bool)
      (c : Movable.canvas) :
  up_to_date anchors c ->
  up_to_date anchors (snd (Movable.set_selected_star b c)).
Proof.
  intros [Hdata Hup]. split; [exact Hdata |].
  rewrite update_circles_selected, Hup. reflexivity.
Qed.

Lemma up_to_date_circles (anchors : list point) (c : Movable.canvas) :
  up_to_date anchors c -> (length (Movable.circles c) <= 3)%nat.
Proof.
  intros [_ Hup]. apply (f_equal snd) in Hup.
  rewrite movable_update_circles_run in Hup. cbv zeta in Hup. cbn [snd] in Hup.
  rewrite <- Hup. cbn [Movable.circles].
  rewrite length_map, length_firstn. lia.
Qed.

Lemma handler_up_to_date (anchors : list point) (m : Movable.mouse)
      (c : Movable.canvas) :
  up_to_date anchors c ->
  fst (Movable.handler anchors m c) = Ok tt /\
  up_to_date anchors (snd (Movable.handler anchors m c)).
Proof.
  intros Hc. destruct m as [ev | ev | ev]; cbn [Movable.handler].
  - unfold Movable.on_press.
    destruct (Movable.inaxes ev), (Movable.xdata ev), (Movable.ydata ev);
      try (split; [reflexivity | exact Hc]).
    unfold bind, get.
    destruct (Rltb _ 0.7).
    + split; [reflexivity | apply set_selected_up_to_date, Hc].
    + split; [reflexivity | exact Hc].
  - split; [reflexivity | apply set_selected_up_to_date, Hc].
  - unfold Movable.on_motion. canvas_run.
    destruct (Movable.selected_star c) eqn:Hsel, (Movable.inaxes ev),
             (Movable.xdata ev), (Movable.ydata ev);
      try (split; [reflexivity | exact Hc]).
    split; [rewrite movable_update_circles_run; reflexivity |].
    apply update_circles_up_to_date. reflexivity.
Qed.

Lemma mainloop_up_to_date (anchors : list point) (events : list Movable.mouse)
      (c : Movable.canvas) :
  up_to_date anchors c ->
  fst (Movable.mainloop anchors events c) = Ok tt /\
  up_to_date anchors (snd (Movable.mainloop anchors events c)).
Proof.
  revert c. induction events as [| m events IH]; intros c Hc.
  - split; [reflexivity | exact Hc].
  - cbn [Movable.mainloop]. unfold bind.
    destruct (handler_up_to_date anchors m c Hc) as [Hok Hup].
    destruct (Movable.handler anchors m c) as [r c1]. cbn [fst snd] in Hok, Hup.
    subst r. apply IH, Hup.
Qed.

(** X22: the script of UWB_movable_position_GUI.py, from its initial update
    through any sequence of mouse events, raises nothing, and after every
    event the canvas shows the star where it is: the marker is at [star_pos],
    at most three circles are drawn, and calling [update_circles] again would
    change nothing. *)
Theorem X22_canvas_follows_star :
  forall (anchors : list point) (events : list Movable.mouse),
    fst (Movable.script anchors events Movable.initial_canvas) = Ok tt /\
    Movable.star_data (snd (Movable.script anchors events Movable.initial_canvas))
    = Movable.star_pos (snd (Movable.script anchors events Movable.initial_canvas)) /\
    (length (Movable.circles
               (snd (Movable.script anchors events Movable.initial_canvas)))
     <= 3)%nat /\
    Movable.update_circles anchors
      (snd (Movable.script anchors events Movable.initial_canvas))
    = (Ok tt, snd (Movable.script anchors events Movable.initial_canvas)).
Proof.
  intros anchors events. unfold Movable.script, bind.
  pose proof (update_circles_up_to_date anchors Movable.initial_canvas eq_refl)
    as Hstart.
  rewrite (movable_update_circles_run anchors Movable.initial_canvas) in Hstart |- *.
  cbn [snd] in Hstart.
  destruct (mainloop_up_to_date anchors events _ Hstart) as [Hok Hup].
  split; [exact Hok |].
  split; [apply Hup |].
  split; [apply (up_to_date_circles anchors), Hup | apply Hup].
Qed.

(** X23: the star moves only while it is grabbed.  From a canvas on which
    the star is not selected, a sequence of events in which no press lands
    within 0.7 of the star leaves every global as it was: motions and
    releases do nothing. *)
Theorem X23_star_moves_only_when_grabbed :
  forall (anchors : list point) (events : list Movable.mouse)
         (c : Movable.canvas),
    Movable.selected_star c = false ->
    (forall (ev : Movable.event) (x y : R),
        In (Movable.button_press_event ev) events ->
        Movable.inaxes ev = true ->
        Movable.xdata ev = Some x -> Movable.ydata ev = Some y ->
        0.7 <= norm (psub (x, y) (Movable.star_pos c))) ->
    Movable.mainloop anchors events c = (Ok tt, c).
Proof.
  intros anchors events c Hsel.
  induction events as [| m events IH]; intros Hfar.
  - reflexivity.
  - cbn [Movable.mainloop]. unfold bind.
    assert (Hm : Movable.handler anchors m c = (Ok tt, c)).
    { destruct m as [ev | ev | ev]; cbn [Movable.handler].
      - unfold Movable.on_press.
        destruct (Movable.inaxes ev) eqn:Hin; [| reflexivity].
        destruct (Movable.xdata ev) as [x |] eqn:Hx; [| reflexivity].
        destruct (Movable.ydata ev) as [y |] eqn:Hy; [| reflexivity].
        unfold bind, get.
        assert (H := Hfar ev x y (or_introl eq_refl) Hin Hx Hy).
        destruct (Rltb _ 0.7) eqn:Hhit; [| reflexivity].
        apply Rltb_true in Hhit. lra.
      - unfold Movable.on_release, Movable.set_selected_star.
        destruct c; cbn in *; subst; reflexivity.
      - unfold Movable.on_motion. canvas_run. rewrite Hsel. reflexivity. }
    rewrite Hm. apply IH.
    intros ev x y Hin. apply Hfar. right; exact Hin.
Qed.

(** X23 on a press outside the axes, a motion and a release. *)
Lemma X23_star_moves_only_when_grabbed_witness :
  Movable.mainloop Movable.anchors
    [Movable.button_press_event
       {| Movable.inaxes := false; Movable.xdata := None; Movable.ydata := None |};
     Movable.motion_notify_event
       {| Movable.inaxes := true; Movable.xdata := Some 3; Movable.ydata := Some 4 |};
     Movable.button_release_event
       {| Movable.inaxes := true; Movable.xdata := Some 3; Movable.ydata := Some 4 |}]
    Movable.initial_canvas
  = (Ok tt, Movable.initial_canvas).
Proof.
  apply X23_star_moves_only_when_grabbed.
  - reflexivity.
  - intros ev x y [Hev | [Hev | [Hev | []]]] Hin; try discriminate.
    inversion Hev; subst ev. discriminate.
Defined.

Lemma last_cons_default {A : Type} (a d : A) (l : list A) :
  last (a :: l) d = last l a.
Proof.
  revert a d. induction l as [| b l IH]; intros a d; [reflexivity |].
  change (last (a :: b :: l) d) with (last (b :: l) d).
  rewrite (IH b d). symmetry. apply (IH b a).
Qed.

Lemma mainloop_cons_ok (anchors : list point) (m : Movable.mouse)
      (rest : list Movable.mouse) (c c1 : Movable.canvas) :
  Movable.handler anchors m c = (Ok tt, c1) ->
  Movable.mainloop anchors (m :: rest) c = Movable.mainloop anchors rest c1.
Proof.
  intros H. cbn [Movable.mainloop]. unfold bind. rewrite H. reflexivity.
Qed.

(** The motions of a drag, the star being selected: the star is taken to the
    last point of the path, and redrawn there. *)
Lemma motions_run (anchors : list point) (rest : list Movable.mouse)
      (path : list point) (c : Movable.canvas) :
  Movable.selected_star c = true ->
  exists c' : Movable.canvas,
    Movable.mainloop anchors
      (map (fun p => Movable.motion_notify_event
                       {| Movable.inaxes := true;
                          Movable.xdata := Some (fst p);
                          Movable.ydata := Some (snd p) |}) path ++ rest) c
    = Movable.mainloop anchors rest c' /\
    Movable.selected_star c' = true /\
    Movable.star_pos c' = last path (Movable.star_pos c) /\
    (path = [] -> c' = c) /\
    (path <> [] -> up_to_date anchors c').
Proof.
  revert c. induction path as [| p path IH]; intros c Hsel.
  - exists c. split; [reflexivity |]. split; [exact Hsel |].
    split; [reflexivity |]. split; [reflexivity |].
    intros H. contradiction H. reflexivity.
  - cbn [map app Movable.mainloop Movable.handler].
    unfold bind at 1. unfold Movable.on_motion. canvas_run. rewrite Hsel.
    cbn [Movable.inaxes Movable.xdata Movable.ydata].
    set (c0 := {| Movable.star_pos := (fst p, snd p) |}).
    assert (Hup : up_to_date anchors (snd (Movable.update_circles anchors c0)))
      by (apply update_circles_up_to_date; reflexivity).
    assert (Hsel1 : Movable.selected_star (snd (Movable.update_circles anchors c0)) = true)
      by (rewrite movable_update_circles_run; exact Hsel).
    assert (Hpos1 : Movable.star_pos (snd (Movable.update_circles anchors c0)) = p)
      by (rewrite movable_update_circles_run; destruct p; reflexivity).
    assert (Hok : fst (Movable.update_circles anchors c0) = Ok tt)
      by (rewrite movable_update_circles_run; reflexivity).
    destruct (Movable.update_circles anchors c0) as [r c1].
    cbn [fst snd] in Hup, Hsel1, Hpos1, Hok. subst r.
    destruct (IH c1 Hsel1) as (c' & Hrun & Hsel' & Hpos' & Hnil & Hcons).
    exists c'. split; [exact Hrun |].
    split; [exact Hsel' |].
    split; [rewrite Hpos', Hpos1; symmetry; apply last_cons_default |].
    split; [intros H; discriminate |].
    intros _. destruct path as [| q path].
    + rewrite (Hnil eq_refl). exact Hup.
    + apply Hcons. discriminate.
Qed.

(** X24: a drag of the star.  After a press within 0.7 of the star, motions
    inside the axes through the points of a path and a release, no handler
    has raised, the star is at the last point of the path (where it was, when
    the path is empty) and is no longer selected; when the pointer has
    moved, the canvas shows the star at its new place. *)
Theorem X24_drag_moves_star :
  forall (anchors : list point) (c : Movable.canvas)
         (press release : Movable.event) (x y : R) (path : list point),
    Movable.inaxes press = true ->
    Movable.xdata press = Some x -> Movable.ydata press = Some y ->
    norm (psub (x, y) (Movable.star_pos c)) < 0.7 ->
    fst (Movable.mainloop anchors (Movable.drag press path release) c) = Ok tt /\
    Movable.star_pos
      (snd (Movable.mainloop anchors (Movable.drag press path release) c))
    = last path (Movable.star_pos c) /\
    Movable.selected_star
      (snd (Movable.mainloop anchors (Movable.drag press path release) c))
    = false /\
    (path <> [] ->
     up_to_date anchors
       (snd (Movable.mainloop anchors (Movable.drag press path release) c))).
Proof.
  intros anchors c press release x y path Hin Hx Hy Hhit.
  assert (Hpress : Movable.handler anchors (Movable.button_press_event press) c
                   = (Ok tt, snd (Movable.set_selected_star true c))).
  { cbn [Movable.handler]. unfold Movable.on_press. rewrite Hin, Hx, Hy.
    unfold bind, get. apply Rltb_true in Hhit. rewrite Hhit. reflexivity. }
  unfold Movable.drag. rewrite (mainloop_cons_ok _ _ _ _ _ Hpress).
  destruct (motions_run anchors [Movable.button_release_event release] path
                        (snd (Movable.set_selected_star true c)) eq_refl)
    as (c' & Hrun & Hsel' & Hpos' & _ & Hcons).
  rewrite Hrun. cbn [Movable.mainloop Movable.handler].
  unfold Movable.on_release, bind, ret. cbn [fst snd].
  split; [reflexivity |].
  split; [exact Hpos' |].
  split; [reflexivity |].
  intros Hpath. apply (set_selected_up_to_date anchors false c'), Hcons, Hpath.
Qed.

(** X24 on a press next to the star at the origin and a path of two
    points. *)
Lemma X24_drag_moves_star_witness :
  Movable.star_pos
    (snd (Movable.mainloop Movable.anchors
            (Movable.drag
               {| Movable.inaxes := true; Movable.xdata := Some 0;
                  Movable.ydata := Some 0 |}
               [(1, -1); (2, -2)]
               {| Movable.inaxes := true; Movable.xdata := Some 2;
                  Movable.ydata := Some (-2) |})
            Movable.initial_canvas))
  = (2, -2).
Proof.
  refine (proj1 (proj2 (X24_drag_moves_star Movable.anchors Movable.initial_canvas
            {| Movable.inaxes := true; Movable.xdata := Some 0;
               Movable.ydata := Some 0 |}
            {| Movable.inaxes := true; Movable.xdata := Some 2;
               Movable.ydata := Some (-2) |}
            0 0 [(1, -1); (2, -2)] eq_refl eq_refl eq_refl _))).
  cbn [Movable.initial_canvas Movable.star_pos].
  rewrite norm_self. lra.
Defined.

(** ** The simulated movement: auto_sinus.py *)

Lemma sinus_update_circles_run (anchors : list point) (c : Movable.canvas) :
  AutoSinus.update_circles anchors c
  = (Ok tt,
     let cv := firstn 3 (sorted Rltb snd
                           (within 10 (distances_to anchors (Movable.star_pos c)))) in
     {| Movable.star_pos := Movable.star_pos c;
        Movable.star_data := Movable.star_data c;
        Movable.selected_star := Movable.selected_star c;
        Movable.circles :=
          map (Movable.circle_of anchors (AutoSinus.tier_color (length cv))) cv;
        Movable.text_labels := map (Movable.label_of anchors) cv;
        Movable.star_label :=
          Some ((fst (Movable.star_pos c) + 0.5, snd (Movable.star_pos c) + 0.5),
                Movable.star_pos c);
        Movable.corridor_line :=
          Some (Movable.star_pos c,
                (fst (Movable.star_pos c), closest_y (snd (Movable.star_pos c))));
        Movable.corridor_text :=
          Some ((fst (Movable.star_pos c) + 0.5, mid_y (snd (Movable.star_pos c))),
                distance_to_line (snd (Movable.star_pos c))) |}).
Proof.
  unfold AutoSinus.update_circles.
  canvas_run.
  rewrite draw_circles_run
    by (intros x Hx; apply (selected_pairs 10 anchors _ 3 x Hx)).
  unfold Movable.draw_corridor. canvas_run. reflexivity.
Qed.

Lemma poll_round_run (anchors : list point) (s : AutoSinus.simulation) :
  exists s' : AutoSinus.simulation,
    AutoSinus.poll_round anchors s = (Ok tt, s') /\
    AutoSinus.t s' = AutoSinus.t s + 0.01 /\
    AutoSinus.printed s' = AutoSinus.printed s /\
    Movable.star_pos (AutoSinus.globals s')
    = (15 * sin (AutoSinus.t s), 10 * cos (AutoSinus.t s)) /\
    Movable.star_data (AutoSinus.globals s')
    = Movable.star_pos (AutoSinus.globals s') /\
    AutoSinus.received_label s' = Some (Movable.star_pos (AutoSinus.globals s')) /\
    (length (Movable.circles (AutoSinus.globals s')) <= 3)%nat.
Proof.
  unfold AutoSinus.poll_round, AutoSinus.on_globals, AutoSinus.set_t,
    AutoSinus.set_received_label.
  canvas_run. cbn [AutoSinus.globals AutoSinus.t AutoSinus.received_label
                   AutoSinus.printed].
  rewrite sinus_update_circles_run. cbv zeta.
  canvas_run. cbn [AutoSinus.globals AutoSinus.t AutoSinus.received_label
                   AutoSinus.printed].
  eexists. split; [reflexivity |].
  cbn [AutoSinus.globals AutoSinus.t AutoSinus.received_label
       AutoSinus.printed Movable.star_pos Movable.star_data Movable.circles].
  repeat (split; [reflexivity |]).
  rewrite length_map, length_firstn. lia.
Qed.

Lemma poll_rounds_run (anchors : list point) (n : nat) :
  forall s : AutoSinus.simulation,
  exists s' : AutoSinus.simulation,
    AutoSinus.poll_rounds anchors (S n) s = (Ok tt, s') /\
    AutoSinus.t s' = AutoSinus.t s + 0.01 * INR (S n) /\
    AutoSinus.printed s' = AutoSinus.printed s /\
    Movable.star_pos (AutoSinus.globals s')
    = (15 * sin (AutoSinus.t s + 0.01 * INR n),
       10 * cos (AutoSinus.t s + 0.01 * INR n)) /\
    Movable.star_data (AutoSinus.globals s')
    = Movable.star_pos (AutoSinus.globals s') /\
    AutoSinus.received_label s' = Some (Movable.star_pos (AutoSinus.globals s')) /\
    (length (Movable.circles (AutoSinus.globals s')) <= 3)%nat.
Proof.
  induction n as [| n IH]; intros s.
  - destruct (poll_round_run anchors s)
      as (s1 & Hrun & Ht & Hpr & Hpos & Hdata & Hlab & Hlen).
    exists s1. cbn [AutoSinus.poll_rounds]. unfold bind. rewrite Hrun.
    split; [reflexivity |].
    split; [rewrite Ht; simpl; lra |].
    split; [exact Hpr |].
    split; [| auto].
    rewrite Hpos. simpl INR.
    replace (AutoSinus.t s + 0.01 * 0) with (AutoSinus.t s) by lra.
    reflexivity.
  - destruct (poll_round_run anchors s)
      as (s1 & Hrun & Ht & Hpr & _).
    destruct (IH s1) as (s' & Hrun' & Ht' & Hpr' & Hpos' & Hrest).
    exists s'.
    change (AutoSinus.poll_rounds anchors (S (S n)) s)
      with ((AutoSinus.poll_round anchors ;;
             AutoSinus.poll_rounds anchors (S n))%se s).
    unfold bind. rewrite Hrun.
    split; [exact Hrun' |].
    split; [rewrite Ht', Ht, !S_INR; lra |].
    split; [congruence |].
    split; [| exact Hrest].
    rewrite Hpos', Ht, S_INR.
    replace (AutoSinus.t s + 0.01 + 0.01 * INR n)
      with (AutoSinus.t s + 0.01 * (INR n + 1)) by lra.
    reflexivity.
Qed.

(** X25: [poll_server] of auto_sinus.py, stopped after a positive number of
    rounds of its loop, has printed no simulation error (no round raises);
    after round n + 1 its clock [t] is 0.01 (n + 1) and the star is at
    (15 sin(0.01 n), 10 cos(0.01 n)), a point of the ellipse
    x^2/225 + y^2/100 = 1, inside the axes of the figure; the marker and the
    label show that position, and at most three circles are drawn. *)
Theorem X25_poll_server_ellipse :
  forall (anchors : list point) (n : nat) (s : AutoSinus.simulation),
  exists s' : AutoSinus.simulation,
    AutoSinus.poll_server anchors (S n) s = (Ok tt, s') /\
    AutoSinus.printed s' = AutoSinus.printed s /\
    AutoSinus.t s' = 0.01 * INR (S n) /\
    Movable.star_pos (AutoSinus.globals s')
    = (15 * sin (0.01 * INR n), 10 * cos (0.01 * INR n)) /\
    fst (Movable.star_pos (AutoSinus.globals s')) ^ 2 / 225
    + snd (Movable.star_pos (AutoSinus.globals s')) ^ 2 / 100 = 1 /\
    -15 <= fst (Movable.star_pos (AutoSinus.globals s')) <= 15 /\
    -10 <= snd (Movable.star_pos (AutoSinus.globals s')) <= 10 /\
    Movable.star_data (AutoSinus.globals s')
    = Movable.star_pos (AutoSinus.globals s') /\
    AutoSinus.received_label s' = Some (Movable.star_pos (AutoSinus.globals s')) /\
    (length (Movable.circles (AutoSinus.globals s')) <= 3)%nat.
Proof.
  intros anchors n s.
  unfold AutoSinus.poll_server, bind. unfold AutoSinus.set_t at 1.
  set (s0 := {| AutoSinus.t := 0 |}).
  destruct (poll_rounds_run anchors n s0)
    as (s' & Hrun & Ht & Hpr & Hpos & Hdata & Hlab & Hlen).
  exists s'.
  assert (Hpos0 : Movable.star_pos (AutoSinus.globals s')
                  = (15 * sin (0.01 * INR n), 10 * cos (0.01 * INR n))).
  { rewrite Hpos. unfold s0. cbn [AutoSinus.t]. rewrite Rplus_0_l. reflexivity. }
  split; [exact Hrun |].
  split; [exact Hpr |].
  split; [rewrite Ht; unfold s0; cbn [AutoSinus.t]; lra |].
  split; [exact Hpos0 |].
  rewrite Hpos0 in *. cbn [fst snd].
  pose proof (sin2_cos2 (0.01 * INR n)) as Hsc. unfold Rsqr in Hsc.
  pose proof (SIN_bound (0.01 * INR n)) as Hs.
  pose proof (COS_bound (0.01 * INR n)) as Hc.
  split; [field_simplify; nra |].
  split; [lra |].
  split; [lra |].
  split; [exact Hdata |].
  split; [exact Hlab | exact Hlen].
Qed.

(** ** The two ways of choosing three anchors *)

Section SortedMap.
Context {X Y K : Type}.
Variable ltb : K -> K -> bool.
Variable f : X -> Y.
Variable key : Y -> K.
Variable key' : X -> K.
Hypothesis key_f : forall x : X, key' x = key (f x).

Lemma insert_right_map (x : X) (l : list X) :
  insert_right ltb key (f x) (map f l) = map f (insert_right ltb key' x l).
Proof.
  induction l as [| y l IH]; [reflexivity |].
  cbn [map insert_right]. rewrite !key_f.
  destruct (ltb (key (f x)) (key (f y))); [reflexivity |].
  cbn [map]. rewrite IH. reflexivity.
Qed.

Lemma sorted_into_map (l acc : list X) :
  sorted_into ltb key (map f acc) (map f l)
  = map f (sorted_into ltb key' acc l).
Proof.
  revert acc. induction l as [| x l IH]; intros acc; [reflexivity |].
  unfold sorted_into in *. cbn [map fold_left].
  rewrite insert_right_map. apply IH.
Qed.

Lemma sorted_map (l : list X) :
  sorted ltb key (map f l) = map f (sorted ltb key' l).
Proof. apply (sorted_into_map l []). Qed.

End SortedMap.

Lemma enumerate_from_seq (l : list R) (start : nat) :
  enumerate_from start l
  = map (fun i => (i, nth (i - start) l 0)) (seq start (length l)).
Proof.
  revert start. induction l as [| d l IH]; intros start; [reflexivity |].
  cbn [enumerate_from length seq map]. rewrite Nat.sub_diag. cbn [nth].
  f_equal. rewrite IH. apply map_ext_in. intros i Hi.
  apply in_seq in Hi.
  replace (i - start)%nat with (S (i - S start)) by lia. reflexivity.
Qed.

Lemma enumerate_range (l : list R) :
  enumerate l = map (fun i => (i, nth i l 0)) (range (length l)).
Proof.
  unfold enumerate, range. rewrite enumerate_from_seq.
  apply map_ext. intros i. rewrite Nat.sub_0_r. reflexivity.
Qed.

Lemma within_all (r : R) (distances : list R) :
  (forall d, In d distances -> d <= r) ->
  within r distances = enumerate distances.
Proof.
  intros Hall. unfold within.
  apply forallb_filter_id. apply forallb_forall. intros [i d] Hin.
  apply enumerate_In in Hin. apply nth_error_In in Hin.
  cbn [snd]. apply Rleb_true, Hall, Hin.
Qed.

(** X26: the two selection rules agree when every anchor is in range.  On a
    list of distances that are all at most [r], the range-gated selection of
    [update_circles] picks the indices that line 119 of [update_position]
    picks, in the same order, each with its distance. *)
Theorem X26_selections_agree :
  forall (r : R) (distances : list R),
    (forall d, In d distances -> d <= r) ->
    exists sel : selection,
      select_in_range r distances = Ok sel /\
      map fst (closest_valid sel) = d_index distances /\
      map snd (closest_valid sel)
      = map (fun i => nth i distances 0) (d_index distances) /\
      count sel = Nat.min 3 (length distances).
Proof.
  intros r distances Hall.
  unfold select_in_range. eexists. split; [reflexivity |].
  cbn [closest_valid count].
  rewrite (within_all r distances Hall), enumerate_range.
  rewrite (sorted_map Rltb (fun i => (i, nth i distances 0)) snd
                      (fun i => nth i distances 0))
    by (intros i; reflexivity).
  rewrite firstn_map. fold (d_index distances).
  rewrite !map_map. cbn [fst snd].
  split; [apply map_id |].
  split; [reflexivity |].
  rewrite length_map. unfold d_index.
  rewrite length_firstn, (Permutation_length (sorted_perm Rltb _ _)).
  unfold range. rewrite length_seq. reflexivity.
Qed.

(** X26 on four distances below 10. *)
Lemma X26_selections_agree_witness :
  exists sel : selection,
    select_in_range 10 [4; 2; 7; 3] = Ok sel /\
    map fst (closest_valid sel) = d_index [4; 2; 7; 3].
Proof.
  destruct (X26_selections_agree 10 [4; 2; 7; 3]) as (sel & Hsel & Hidx & _).
  - intros d [<- | [<- | [<- | [<- | []]]]]; lra.
  - exists sel. split; assumption.
Defined.
